(** * SupercellSWF container codec: a shallow embedding of the reader and writer

    The development follows the TypeScript sources of [supercell-swf]:
    [lib/texture/index.ts] (class [Texture]) and [lib/swf.ts] (class
    [SupercellSWF]).  Pure parts are Rocq functions, the buffer is threaded
    explicitly, and exceptions are an error monad. *)

From Stdlib Require Import ZArith Lia String Ascii.
From Stdlib.Strings Require Import Byte.
From stdpp Require Import base option list gmap strings sorting.

Local Open Scope Z_scope.
Local Open Scope list_scope.

(** ** Errors and the exception monad *)

(** The exceptions the modelled code can raise.  [INVALID_SHAPE_COUNT],
    [INVALID_TEXTFIELD_COUNT] and [INVALID_EXTERNAL_TEXTURE] are the members
    of [ERRORS] used by [swf.ts]; the two anonymous [Error(...)] of
    [parseTags] get names of their own. *)
Inductive Error : Type :=
| Truncated                 (* a read goes past the end of the buffer *)
| NegativeLength            (* a skip by a negative tag length *)
| INVALID_SHAPE_COUNT       (* CountOverflow, shapes *)
| TooManyMovieClips         (* CountOverflow, movie clips *)
| INVALID_TEXTFIELD_COUNT   (* CountOverflow, text fields *)
| TooManyModifiers          (* CountOverflow, modifiers *)
| INVALID_EXTERNAL_TEXTURE  (* MissingExternalTexture *)
| NotAFunction              (* TypeError: calling an undefined table entry *)
| UndefinedBank             (* TypeError: indexing a bank that is not there *)
| RecordFailure             (* an exception raised inside a record handler *)
| RangeError                (* the image library refuses a width or height of 0 *)
| FileNotFound              (* fs.readFileSync on a missing path *)
| OutOfFuel.                (* the model's loop bound was reached *)

Inductive result (A : Type) : Type :=
| Ok (a : A)
| Err (e : Error).
Arguments Ok {A} a.
Arguments Err {A} e.

Global Instance result_ret : MRet result := fun A a => Ok a.

Global Instance result_bind : MBind result := fun A B f m =>
  match m with
  | Ok a => f a
  | Err e => Err e
  end.

(** ** Bytes *)

Definition Z_of_byte (b : byte) : Z := Z.of_N (Byte.to_N b).

Definition byte_of_Z (z : Z) : byte :=
  match Byte.of_N (Z.to_N (z mod 256)) with
  | Some b => b
  | None => x00
  end.

(** ** The byte buffer ([ScBuffer]) *)

(** Modelled from the spec: the class [ScBuffer] of [lib/buffer.ts], which is
    missing from the sources; its operations follow section 4.2 of the
    specification.  The buffer is the list of bytes from the read cursor to
    the end: a read removes bytes at the front, a write appends at the
    tail. *)
Abbreviation ScBuffer := (list byte) (only parsing).

(** Modelled from the spec: the little-endian bytes of a scalar of [n] bytes
    (section 4.2); the value is reduced modulo the width. *)
Definition le_bytes (n : nat) (v : Z) : list byte :=
  map (fun i => byte_of_Z (v / 256 ^ Z.of_nat i)) (seq 0 n).

(** Modelled from the spec: the value of little-endian bytes (section 4.2). *)
Fixpoint le_value (bs : list byte) : Z :=
  match bs with
  | [] => 0
  | b :: bs' => Z_of_byte b + 256 * le_value bs'
  end.

(** Modelled from the spec: [ScBuffer.writeUInt8] (section 4.2). *)
Definition writeUInt8 (v : Z) (buf : ScBuffer) : ScBuffer := buf ++ le_bytes 1 v.

(** Modelled from the spec: [ScBuffer.writeUInt16] (section 4.2). *)
Definition writeUInt16 (v : Z) (buf : ScBuffer) : ScBuffer := buf ++ le_bytes 2 v.

(** Modelled from the spec: [ScBuffer.writeInt32] (section 4.2), in two's
    complement. *)
Definition writeInt32 (v : Z) (buf : ScBuffer) : ScBuffer := buf ++ le_bytes 4 v.

(** Modelled from the spec: a read of [n] bytes, which fails with [Truncated]
    when it would pass the end of the buffer (section 4.2). *)
Definition readBytes (n : nat) (buf : ScBuffer) : result (list byte * ScBuffer) :=
  if (length buf <? n)%nat then Err Truncated else Ok (take n buf, drop n buf).

(** Modelled from the spec: [ScBuffer.readUInt8] (section 4.2). *)
Definition readUInt8 (buf : ScBuffer) : result (Z * ScBuffer) :=
  '(bs, buf') ← readBytes 1 buf; Ok (le_value bs, buf').

(** Modelled from the spec: [ScBuffer.readUInt16] (section 4.2). *)
Definition readUInt16 (buf : ScBuffer) : result (Z * ScBuffer) :=
  '(bs, buf') ← readBytes 2 buf; Ok (le_value bs, buf').

(** Modelled from the spec: [ScBuffer.readInt32] (section 4.2). *)
Definition readInt32 (buf : ScBuffer) : result (Z * ScBuffer) :=
  '(bs, buf') ← readBytes 4 buf;
  let u := le_value bs in
  Ok (if u <? 2 ^ 31 then u else u - 2 ^ 32, buf').

(** Modelled from the spec: [ScBuffer.writeASCII] (section 4.2): one length
    byte, then the characters; the empty string is written as the single
    byte [0xFF]. *)
Definition writeASCII (s : string) (buf : ScBuffer) : ScBuffer :=
  match s with
  | EmptyString => buf ++ [xff]
  | _ => buf ++ byte_of_Z (Z.of_nat (String.length s)) :: list_byte_of_string s
  end.

(** Modelled from the spec: [ScBuffer.readASCII] (section 4.2): a length
    byte [0xFF] denotes the empty string. *)
Definition readASCII (buf : ScBuffer) : result (string * ScBuffer) :=
  '(n, buf1) ← readUInt8 buf;
  if n =? 255 then Ok (EmptyString, buf1)
  else '(bs, buf2) ← readBytes (Z.to_nat n) buf1;
       Ok (string_of_list_byte bs, buf2).

(** Modelled from the spec: [ScBuffer.fill] (section 4.2) appends [n] zero
    bytes. *)
Definition fill (n : nat) (buf : ScBuffer) : ScBuffer := buf ++ replicate n x00.

(** Modelled from the spec: [ScBuffer.skip] (section 4.2) advances the read
    cursor; a negative length is [NegativeLength] (section 7), a length
    beyond the end [Truncated]. *)
Definition skip (n : Z) (buf : ScBuffer) : result ScBuffer :=
  if n <? 0 then Err NegativeLength
  else '(_, buf') ← readBytes (Z.to_nat n) buf; Ok buf'.

(** Modelled from the spec: [ScBuffer.saveTag] (section 4.2): [u8 id],
    [i32 length], then the payload.  A call without payload is
    [saveTag id []]. *)
Definition saveTag (tag : Z) (payload : ScBuffer) (buf : ScBuffer) : ScBuffer :=
  writeInt32 (Z.of_nat (length payload)) (writeUInt8 tag buf) ++ payload.

(** ** Texture tables ([lib/texture/index.ts]) *)

Inductive FILTERS : Type := GL_LINEAR | GL_NEAREST | GL_LINEAR_MIPMAP_NEAREST.

Inductive PixelFormat : Type :=
| GL_RGBA8 | GL_RGBA4 | GL_RGB5_A1 | GL_RGB565
| GL_LUMINANCE8_ALPHA8 | GL_LUMINANCE8.

Inductive ImageKind : Type := RGBA | RGB | GREYA | GREY.

Global Instance FILTERS_eq_dec : EqDecision FILTERS.
Proof. solve_decision. Defined.
Global Instance PixelFormat_eq_dec : EqDecision PixelFormat.
Proof. solve_decision. Defined.
Global Instance ImageKind_eq_dec : EqDecision ImageKind.
Proof. solve_decision. Defined.
Global Instance byte_eq_dec : EqDecision byte := Byte.byte_eq_dec.

Definition CHANNEL_FORMATS (k : ImageKind) : list PixelFormat :=
  match k with
  | RGBA => [GL_RGBA8; GL_RGBA4; GL_RGB5_A1]
  | RGB => [GL_RGB565]
  | GREYA => [GL_LUMINANCE8_ALPHA8]
  | GREY => [GL_LUMINANCE8]
  end.

Definition PIXEL_CHANNELS : list ImageKind :=
  [RGBA; RGBA; RGBA; RGBA; RGB; RGBA; GREYA; RGBA; RGBA; RGBA; GREY].

Definition PIXEL_FORMATS : list PixelFormat :=
  [GL_RGBA8; GL_RGBA8; GL_RGBA4; GL_RGB5_A1; GL_RGB565; GL_RGBA8;
   GL_LUMINANCE8_ALPHA8; GL_RGBA8; GL_RGBA8; GL_RGBA4; GL_LUMINANCE8].

(** [table[i]] of JavaScript: [undefined] (here [None]) outside the table,
    also for a negative index. *)
Definition js_index {A : Type} (l : list A) (i : Z) : option A :=
  if i <? 0 then None else l !! Z.to_nat i.

(** [table.indexOf(x)]: the first position of [x], or [-1]. *)
Fixpoint indexOf_from {A : Type} `{EqDecision A} (x : A) (l : list A) (i : Z) : Z :=
  match l with
  | [] => -1
  | y :: l' => if decide (y = x) then i else indexOf_from x l' (i + 1)
  end.

(** The [_pixelFormat] field holds a format name, or [undefined] after a
    load with a pixel type index outside the table. *)
Definition PIXEL_FORMATS_indexOf (f : option PixelFormat) : Z :=
  match f with
  | Some f => indexOf_from f PIXEL_FORMATS 0
  | None => -1
  end.

(** [CHANNEL_FORMATS[kind].includes(f)] *)
Definition includes (l : list PixelFormat) (f : option PixelFormat) : bool :=
  match f with
  | Some f => bool_decide (f ∈ l)
  | None => false
  end.

(** ** The pixel buffer ([Image] of image-js) *)

(** A pixel: an array of 8-bit channel values. *)
Abbreviation Pixel := (list byte) (only parsing).

(** Modelled from the spec: the image library is an external collaborator
    (section 6: [new], [get], [set], [resize], [clone], [channels],
    [has_alpha]).  An image is its width, height, kind and its pixels in
    row-major order. *)
Record Image : Type := mkImage {
  width : nat;
  height : nat;
  kind : ImageKind;
  data : list Pixel
}.

(** [image.components], [image.alpha] and [image.channels] of the four kinds
    that [PIXEL_CHANNELS] names. *)
Definition components (k : ImageKind) : nat :=
  match k with RGBA | RGB => 3 | GREYA | GREY => 1 end.

Definition alpha (k : ImageKind) : bool :=
  match k with RGBA | GREYA => true | RGB | GREY => false end.

Definition channels (k : ImageKind) : nat :=
  (components k + (if alpha k then 1 else 0))%nat.

(** The pixel that a new image holds at every coordinate: the colour
    channels are 0 and the alpha channel, when there is one, is 255. *)
Definition new_pixel (k : ImageKind) : Pixel :=
  replicate (components k) x00 ++ (if alpha k then [xff] else []).

(** The image that [new Image(width, height, { kind })] returns. *)
Definition blank_Image (w h : nat) (k : ImageKind) : Image :=
  mkImage w h k (replicate (w * h) (new_pixel k)).

(** Modelled from the spec: [new Image(width, height, { kind })] (section 6,
    [new(w, h, channel_kind)]), with the behaviour of the image library where
    the specification is silent: a width or a height of 0 is refused with a
    [RangeError]. *)
Definition new_Image (w h : nat) (k : ImageKind) : result Image :=
  if ((w =? 0) || (h =? 0))%nat then Err RangeError else Ok (blank_Image w h k).

(** Modelled from the spec: [image.getPixelXY(x, y)] of the image library. *)
Definition getPixelXY (img : Image) (x y : nat) : Pixel :=
  default [] (data img !! (y * width img + x)%nat).

(** Modelled from the spec: [image.setPixelXY(x, y, pixel)] of the image
    library. *)
Definition setPixelXY (img : Image) (x y : nat) (p : Pixel) : Image :=
  mkImage (width img) (height img) (kind img)
          (<[(y * width img + x)%nat := p]> (data img)).

(** [image.resize({ factor })]: factor 1 keeps the image; the down-scaling by
    0.5 is the library's and is left abstract. *)
Class ImageResize : Type := resizeHalf : Image -> Image.

(** ** The pixel codec *)

(** [Math.round(a / b)] for non-negative integers. *)
Definition round_div (a b : Z) : Z := (2 * a + b) / (2 * b).

(** [pixel[i]] as a number. *)
Definition channel (p : Pixel) (i : nat) : Z := Z_of_byte (nth i p x00).

(** Modelled from the spec: the scaling of a channel to a bit depth on write,
    [round(v * max / 255)], and back on read, [round(v * 255 / max)]
    (section 4.3). *)
Definition scale_down (v max : Z) : Z := round_div (v * max) 255.
Definition scale_up (v max : Z) : Z := round_div (v * 255) max.

(** Modelled from the spec: [PIXEL_WRITE_FUNCTIONS] of [pixel_write.ts], which
    is missing from the sources; the packings are those of the table of
    section 4.3. *)
Definition writePixel (f : PixelFormat) (buf : ScBuffer) (p : Pixel) : ScBuffer :=
  match f with
  | GL_RGBA8 =>
      writeUInt8 (channel p 3) (writeUInt8 (channel p 2)
        (writeUInt8 (channel p 1) (writeUInt8 (channel p 0) buf)))
  | GL_RGBA4 =>
      writeUInt16 (Z.lor (Z.lor (Z.lor
          (Z.shiftl (scale_down (channel p 0) 15) 12)
          (Z.shiftl (scale_down (channel p 1) 15) 8))
          (Z.shiftl (scale_down (channel p 2) 15) 4))
          (scale_down (channel p 3) 15)) buf
  | GL_RGB5_A1 =>
      writeUInt16 (Z.lor (Z.lor (Z.lor
          (Z.shiftl (scale_down (channel p 0) 31) 11)
          (Z.shiftl (scale_down (channel p 1) 31) 6))
          (Z.shiftl (scale_down (channel p 2) 31) 1))
          (scale_down (channel p 3) 1)) buf
  | GL_RGB565 =>
      writeUInt16 (Z.lor (Z.lor
          (Z.shiftl (scale_down (channel p 0) 31) 11)
          (Z.shiftl (scale_down (channel p 1) 63) 5))
          (scale_down (channel p 2) 31)) buf
  | GL_LUMINANCE8_ALPHA8 =>
      writeUInt8 (channel p 1) (writeUInt8 (channel p 0) buf)
  | GL_LUMINANCE8 =>
      writeUInt8 (channel p 0) buf
  end.

(** The [width] bits of [v] from bit [shift] on. *)
Definition bits (v : Z) (shift width : Z) : Z :=
  Z.land (Z.shiftr v shift) (2 ^ width - 1).

(** Modelled from the spec: [PIXEL_READ_FUNCTIONS] of [pixel_read.ts], which
    is missing from the sources; the packings are those of the table of
    section 4.3. *)
Definition readPixel (f : PixelFormat) (buf : ScBuffer) : result (Pixel * ScBuffer) :=
  match f with
  | GL_RGBA8 =>
      '(r, b1) ← readUInt8 buf; '(g, b2) ← readUInt8 b1;
      '(b, b3) ← readUInt8 b2; '(a, b4) ← readUInt8 b3;
      Ok ([byte_of_Z r; byte_of_Z g; byte_of_Z b; byte_of_Z a], b4)
  | GL_RGBA4 =>
      '(v, b1) ← readUInt16 buf;
      Ok ([byte_of_Z (scale_up (bits v 12 4) 15); byte_of_Z (scale_up (bits v 8 4) 15);
           byte_of_Z (scale_up (bits v 4 4) 15); byte_of_Z (scale_up (bits v 0 4) 15)], b1)
  | GL_RGB5_A1 =>
      '(v, b1) ← readUInt16 buf;
      Ok ([byte_of_Z (scale_up (bits v 11 5) 31); byte_of_Z (scale_up (bits v 6 5) 31);
           byte_of_Z (scale_up (bits v 1 5) 31); byte_of_Z (scale_up (bits v 0 1) 1)], b1)
  | GL_RGB565 =>
      '(v, b1) ← readUInt16 buf;
      Ok ([byte_of_Z (scale_up (bits v 11 5) 31); byte_of_Z (scale_up (bits v 5 6) 63);
           byte_of_Z (scale_up (bits v 0 5) 31)], b1)
  | GL_LUMINANCE8_ALPHA8 =>
      '(l, b1) ← readUInt8 buf; '(a, b2) ← readUInt8 b1;
      Ok ([byte_of_Z l; byte_of_Z a], b2)
  | GL_LUMINANCE8 =>
      '(l, b1) ← readUInt8 buf;
      Ok ([byte_of_Z l], b1)
  end.

(** [PIXEL_READ_FUNCTIONS[this.pixelFormat]]: calling the entry of an
    undefined format is a [TypeError]. *)
Definition PIXEL_READ_FUNCTIONS (f : option PixelFormat) (buf : ScBuffer)
  : result (Pixel * ScBuffer) :=
  match f with
  | Some f => readPixel f buf
  | None => Err NotAFunction
  end.

(** ** Class [Texture] *)

Record Texture : Type := mkTexture {
  _pixelFormat : option PixelFormat;
  magFilter : FILTERS;
  minFilter : FILTERS;
  linear : bool;
  downscaling : bool;
  image : Image
}.

(** [new Texture()]: the field initialisers; [new Image()] is the library's
    default one-pixel RGBA image. *)
Definition new_Texture : Texture :=
  mkTexture (Some GL_RGBA8) GL_LINEAR GL_NEAREST true true (blank_Image 1 1 RGBA).

(** [[...].includes(tag)] on tag ids. *)
Definition tag_in (tags : list Z) (tag : Z) : bool := bool_decide (tag ∈ tags).

(** *** The two pixel traversals *)

Definition blockSize : nat := 32.

(** A loop [for (i = 0; n > i; i++) { if (stop i) break; body i }] over the
    given indices, as the sequence of what its bodies produce. *)
Fixpoint for_break {A : Type} (stop : nat -> bool) (body : nat -> list A)
    (indices : list nat) : list A :=
  match indices with
  | [] => []
  | i :: rest => if stop i then [] else body i ++ for_break stop body rest
  end.

(** The coordinates [(xPixel, yPixel)] in the order in which the four nested
    block loops reach their innermost statement.  [Texture.load] and
    [Texture.save] contain the same four loops. *)
Definition block_walk (w h : nat) : list (nat * nat) :=
  let xBlocks := (w / blockSize)%nat in
  let yBlocks := (h / blockSize)%nat in
  flat_map (fun yBlock =>
    flat_map (fun xBlock =>
      for_break (fun y => (h <=? yBlock * blockSize + y)%nat)
        (fun y =>
           let yPixel := (yBlock * blockSize + y)%nat in
           for_break (fun x => (w <=? xBlock * blockSize + x)%nat)
             (fun x =>
                let xPixel := (xBlock * blockSize + x)%nat in
                [(xPixel, yPixel)])
             (seq 0 blockSize))
        (seq 0 blockSize))
      (seq 0 (xBlocks + 1)))
    (seq 0 (yBlocks + 1)).

(** The coordinates of [for (y < height) for (x < width)]. *)
Definition linear_walk (w h : nat) : list (nat * nat) :=
  flat_map (fun y => map (fun x => (x, y)) (seq 0 w)) (seq 0 h).

(** *** [Texture.load] *)

(** The fields set from the tag id and the pixel type index, with the new
    image (every field of the texture is overwritten). *)
Definition load_fields (tag pixelTypeIndex : Z) (img : Image) : Texture :=
  let '(mag, min) :=
    if tag_in [16; 19; 29] tag then (GL_LINEAR, GL_LINEAR_MIPMAP_NEAREST)
    else if tag =? 34 then (GL_LINEAR, GL_LINEAR)
    else (GL_LINEAR, GL_NEAREST) in
  {| _pixelFormat := js_index PIXEL_FORMATS pixelTypeIndex;
     magFilter := mag;
     minFilter := min;
     linear := negb (tag_in [27; 28; 29] tag);
     downscaling := tag_in [1; 16; 28; 29] tag;
     image := img |}.

(** The pixel loops of [load]: one [readPixel] per visited coordinate. *)
Fixpoint readPixels (rd : ScBuffer -> result (Pixel * ScBuffer))
    (coords : list (nat * nat)) (img : Image) (buf : ScBuffer)
  : result (Image * ScBuffer) :=
  match coords with
  | [] => Ok (img, buf)
  | (x, y) :: coords' =>
      '(p, buf') ← rd buf;
      readPixels rd coords' (setPixelXY img x y p) buf'
  end.

(** [this.load(tag, swf, hasData)] on the header values and, with [hasData],
    the pixels: the texture read and the buffer left. *)
Definition load_texture (tag : Z) (hasData : bool) (buf : ScBuffer)
  : result (Texture * ScBuffer) :=
  '(pixelTypeIndex, buf1) ← readUInt8 buf;
  '(w, buf2) ← readUInt16 buf1;
  '(h, buf3) ← readUInt16 buf2;
  let channelsMode := js_index PIXEL_CHANNELS pixelTypeIndex in
  img ← new_Image (Z.to_nat w) (Z.to_nat h) (default RGBA channelsMode);
  let this := load_fields tag pixelTypeIndex img in
  if hasData then
    let readPixel := PIXEL_READ_FUNCTIONS (_pixelFormat this) in
    let walk := if linear this then linear_walk else block_walk in
    '(img, buf4) ← readPixels readPixel (walk (Z.to_nat w) (Z.to_nat h)) (image this) buf3;
    Ok (mkTexture (_pixelFormat this) (magFilter this) (minFilter this)
                  (linear this) (downscaling this) img, buf4)
  else Ok (this, buf3).

(** [Texture.load] as a method: [slot] is the index of [this] in
    [swf.textures], or [None] for a texture that is not in the array (the
    [new Texture()] of [parseTags]).  With [hasData] such a texture is pushed
    onto [swf.textures]; without, it is dropped after the call. *)
Definition Texture_load (tag : Z) (slot : option nat) (textures : list Texture)
    (buf : ScBuffer) (hasData : bool) : result (list Texture * ScBuffer) :=
  '(this, buf') ← load_texture tag hasData buf;
  match slot with
  | Some i => Ok (<[i := this]> textures, buf')
  | None => Ok (if hasData then textures ++ [this] else textures, buf')
  end.

(** *** [Texture.save] *)

(** [(image.components === 3 ? 'RGB' : 'GREY') + (image.alpha ? 'A' : '')] *)
Definition textureKind (img : Image) : ImageKind :=
  match (components (kind img) =? 3)%nat, alpha (kind img) with
  | true, true => RGBA
  | true, false => RGB
  | false, true => GREYA
  | false, false => GREY
  end.

(** [CHANNEL_FORMATS[kind][0]] *)
Definition first_format (k : ImageKind) : PixelFormat :=
  match k with
  | RGBA => GL_RGBA8
  | RGB => GL_RGB565
  | GREYA => GL_LUMINANCE8_ALPHA8
  | GREY => GL_LUMINANCE8
  end.

(** The value of [this._pixelFormat] after the check at the head of [save]:
    kept when the table entry at its index belongs to the image's kind (it is
    a format then), replaced by the kind's first format otherwise. *)
Definition corrected_format (t : Texture) : PixelFormat :=
  let pixelTypeIndex := PIXEL_FORMATS_indexOf (_pixelFormat t) in
  if includes (CHANNEL_FORMATS (textureKind (image t))) (js_index PIXEL_FORMATS pixelTypeIndex)
  then default (first_format (textureKind (image t))) (_pixelFormat t)
  else first_format (textureKind (image t)).

(** The tag id chosen when pixel data is written. *)
Definition save_tag (t : Texture) : Z :=
  match magFilter t, minFilter t with
  | GL_LINEAR, GL_NEAREST =>
      if negb (linear t) then (if downscaling t then 28 else 27)
      else if negb (downscaling t) then 24
      else 1
  | GL_LINEAR, GL_LINEAR_MIPMAP_NEAREST =>
      if negb (linear t) && negb (downscaling t) then 29
      else (if downscaling t then 16 else 19)
  | GL_NEAREST, GL_NEAREST => 34
  | _, _ => 1
  end.

(** The block branch of [save]: [image] receives, at the row-major position
    [pixelIndex], the pixel of [originalImage] at the [pixelIndex]-th
    coordinate of the block walk. *)
Definition blockArrange (image : Image) : Image :=
  let originalImage := image in
  fst (fold_left
         (fun '(image, pixelIndex) '(xPixel, yPixel) =>
            (setPixelXY image (pixelIndex mod width image)%nat
                        (pixelIndex / width image)%nat
                        (getPixelXY originalImage xPixel yPixel),
             S pixelIndex))
         (block_walk (width image) (height image))
         (image, 0%nat)).

(** [if (image.alpha && pix[pix.length - 1] === 0) pix = zeros] *)
Definition zeroAlpha (img : Image) (pix : Pixel) : Pixel :=
  if alpha (kind img) && bool_decide (last pix = Some x00)
  then replicate (channels (kind img)) x00
  else pix.

(** The final write loop of [save]. *)
Definition writePixels (f : PixelFormat) (img : Image) (tagBuffer : ScBuffer) : ScBuffer :=
  fold_left
    (fun tagBuffer '(x, y) => writePixel f tagBuffer (zeroAlpha img (getPixelXY img x y)))
    (linear_walk (width img) (height img))
    tagBuffer.

(** [this.save(swf, hasData, isLowres)]: the texture after the call (its
    pixel format may have been replaced) and [swf.buffer] with the tag
    appended.  The progress callback has no effect on either. *)
Definition Texture_save `{ImageResize} (this : Texture) (buffer : ScBuffer)
    (hasData isLowres : bool) : Texture * ScBuffer :=
  let pixelTypeIndex := PIXEL_FORMATS_indexOf (_pixelFormat this) in
  let format := corrected_format this in
  let image0 := if isLowres then resizeHalf (image this) else image this in
  let tagBuffer :=
    writeUInt16 (Z.of_nat (height image0))
      (writeUInt16 (Z.of_nat (width image0))
         (writeUInt8 pixelTypeIndex [])) in
  let tag := if hasData then save_tag this else 1 in
  let tagBuffer :=
    if hasData then
      let image1 := if negb (linear this) then blockArrange image0 else image0 in
      writePixels format image1 tagBuffer
    else tagBuffer in
  (mkTexture (Some format) (magFilter this) (minFilter this)
             (linear this) (downscaling this) (image this),
   saveTag tag tagBuffer buffer).

(** ** Collaborators of [SupercellSWF] *)

(** Modelled from the spec: the enumeration [COMPRESSION] of [lib/buffer.ts]
    (section 3). *)
Inductive COMPRESSION : Type := NONE | LZMA | LZHAM | ZSTD.

(** The whole-file envelope, [buffer.toCompressed(method, true)] and
    [ScBuffer.fromCompressed(bytes, true)].  The compressors are external;
    section 4.1 gives their contract, which theorems take as a hypothesis. *)
Class Envelope : Type := {
  toCompressed : COMPRESSION -> ScBuffer -> list byte;
  fromCompressed : list byte -> COMPRESSION * ScBuffer
}.

(** Modelled from the spec: the record classes [Shape], [MovieClip],
    [TextField] and [MovieClipModifier] are missing from the sources and
    their layouts are outside the specification, which treats them as opaque
    byte runs (section 1).  A record is kept as such a run. *)
Inductive Resource : Type :=
| Shape (body : list byte)
| MovieClip (body : list byte)
| TextField (body : list byte)
| MovieClipModifier (body : list byte).

(** Modelled from the spec: the entries of a transform bank (classes
    [Matrix] and [Color], missing from the sources), kept as opaque byte runs
    like the other records. *)
Record Matrix : Type := mkMatrix { matrix_body : list byte }.
Record Color : Type := mkColor { color_body : list byte }.

(** Modelled from the spec: the class [TransformBank] of [lib/bank.ts], which
    is missing from the sources: two ordered sequences (section 3) and the
    name that the bank-begin tag carries (section 4.6, header item 5 and emit
    order item 10). *)
Record TransformBank : Type := mkTransformBank {
  matrices : list Matrix;
  colors : list Color;
  bankName : string
}.

(** Modelled from the spec: [new TransformBank()], a bank with no entries and
    no name. *)
Definition new_TransformBank : TransformBank := mkTransformBank [] [] "".

(** Modelled from the spec: the class [Exports] of [lib/exports.ts], which is
    missing from the sources: the export names with their resource ids, in
    file order (sections 3 and 4.6). *)
Abbreviation Exports := (list (Z * string)) (only parsing).

(** The file system seen by [fs.readFileSync], [fs.writeFileSync] and
    [fs.existsSync]. *)
Abbreviation FileSystem := (gmap string (list byte)) (only parsing).

Definition existsSync (fs : FileSystem) (path : string) : bool :=
  bool_decide (is_Some (fs !! path)).

(** ** Class [SupercellSWF] ([lib/swf.ts]) *)

(** The field [resources] is a JavaScript object used as a dictionary: its
    properties are kept in the order of their creation, under keys that are
    integers; no key occurs twice in an object. *)
Record SupercellSWF : Type := mkSWF {
  compression : COMPRESSION;
  hasExternalTexture : bool;
  useUncommonTexture : bool;
  useLowresTexture : bool;
  exports : Exports;
  textures : list Texture;
  highresPostfix : string;
  lowresPostfix : string;
  banks : list TransformBank;
  resources : list (Z * Resource);
  buffer : ScBuffer
}.

(** The private counters of the class; the record handlers, which receive
    the instance, cannot reach them. *)
Record Counts : Type := mkCounts {
  _shapeCount : Z;
  _movieClipsCount : Z;
  _textFieldsCount : Z;
  _modifiersCount : Z
}.

(** [new SupercellSWF()] *)
Definition new_SupercellSWF : SupercellSWF :=
  mkSWF NONE false false false [] [] "_highres" "_lowres" [] [] [].

Definition new_Counts : Counts := mkCounts 0 0 0 0.

Definition set_buffer (b : ScBuffer) (s : SupercellSWF) : SupercellSWF :=
  mkSWF (compression s) (hasExternalTexture s) (useUncommonTexture s)
        (useLowresTexture s) (exports s) (textures s) (highresPostfix s)
        (lowresPostfix s) (banks s) (resources s) b.

Definition set_textures (ts : list Texture) (s : SupercellSWF) : SupercellSWF :=
  mkSWF (compression s) (hasExternalTexture s) (useUncommonTexture s)
        (useLowresTexture s) (exports s) ts (highresPostfix s)
        (lowresPostfix s) (banks s) (resources s) (buffer s).

Definition set_compression (c : COMPRESSION) (s : SupercellSWF) : SupercellSWF :=
  mkSWF c (hasExternalTexture s) (useUncommonTexture s)
        (useLowresTexture s) (exports s) (textures s) (highresPostfix s)
        (lowresPostfix s) (banks s) (resources s) (buffer s).

Definition set_hasExternalTexture (v : bool) (s : SupercellSWF) : SupercellSWF :=
  mkSWF (compression s) v (useUncommonTexture s)
        (useLowresTexture s) (exports s) (textures s) (highresPostfix s)
        (lowresPostfix s) (banks s) (resources s) (buffer s).

Definition set_useUncommonTexture (v : bool) (s : SupercellSWF) : SupercellSWF :=
  mkSWF (compression s) (hasExternalTexture s) v
        (useLowresTexture s) (exports s) (textures s) (highresPostfix s)
        (lowresPostfix s) (banks s) (resources s) (buffer s).

Definition set_useLowresTexture (v : bool) (s : SupercellSWF) : SupercellSWF :=
  mkSWF (compression s) (hasExternalTexture s) (useUncommonTexture s)
        v (exports s) (textures s) (highresPostfix s)
        (lowresPostfix s) (banks s) (resources s) (buffer s).

Definition set_postfixes (hi lo : string) (s : SupercellSWF) : SupercellSWF :=
  mkSWF (compression s) (hasExternalTexture s) (useUncommonTexture s)
        (useLowresTexture s) (exports s) (textures s) hi lo
        (banks s) (resources s) (buffer s).

Definition set_banks (bs : list TransformBank) (s : SupercellSWF) : SupercellSWF :=
  mkSWF (compression s) (hasExternalTexture s) (useUncommonTexture s)
        (useLowresTexture s) (exports s) (textures s) (highresPostfix s)
        (lowresPostfix s) bs (resources s) (buffer s).

Definition set_exports (e : Exports) (s : SupercellSWF) : SupercellSWF :=
  mkSWF (compression s) (hasExternalTexture s) (useUncommonTexture s)
        (useLowresTexture s) e (textures s) (highresPostfix s)
        (lowresPostfix s) (banks s) (resources s) (buffer s).

Definition set_resources (r : list (Z * Resource)) (s : SupercellSWF) : SupercellSWF :=
  mkSWF (compression s) (hasExternalTexture s) (useUncommonTexture s)
        (useLowresTexture s) (exports s) (textures s) (highresPostfix s)
        (lowresPostfix s) (banks s) r (buffer s).

(** The handlers of the opaque records.  A loader receives the tag id and the
    instance, reads from its buffer and stores what it read; [None] is an
    exception raised inside it.  A saver appends to the instance's buffer. *)
Class RecordHandlers : Type := {
  Shape_load : Z -> SupercellSWF -> option SupercellSWF;
  MovieClip_load : Z -> SupercellSWF -> option SupercellSWF;
  TextField_load : Z -> SupercellSWF -> option SupercellSWF;
  MovieClipModifier_load : Z -> SupercellSWF -> option SupercellSWF;
  (* [this.banks[b].matrices[m].load(tag, this)] on existing slots *)
  Matrix_load : nat -> nat -> Z -> SupercellSWF -> option SupercellSWF;
  Color_load : nat -> nat -> Z -> SupercellSWF -> option SupercellSWF;
  (* [this.resources[id].save(id, this)] *)
  Resource_save : Z -> Resource -> SupercellSWF -> SupercellSWF;
  Matrix_save : Matrix -> SupercellSWF -> SupercellSWF;
  Color_save : Color -> SupercellSWF -> SupercellSWF
}.

(** Modelled from the spec: [TransformBank.load] of [lib/bank.ts], which is
    missing from the sources, reads the two counts and, in the bank-begin tag
    form only, the bank name (section 4.6, header item 5), allocates that
    many slots and appends the bank to [swf.banks]; [parseTags] indexes
    [this.banks] afterwards.  [asTag] tells the form: the call of [loadAsset]
    reads the header, the call of [parseTags] reads the payload of tag 42. *)
Definition TransformBank_load (swf : SupercellSWF) (asTag : bool) : result SupercellSWF :=
  '(matrixCount, b1) ← readUInt16 (buffer swf);
  '(colorCount, b2) ← readUInt16 b1;
  '(name, b3) ← (if asTag then readASCII b2 else Ok (EmptyString, b2));
  let bank := mkTransformBank (replicate (Z.to_nat matrixCount) (mkMatrix []))
                              (replicate (Z.to_nat colorCount) (mkColor [])) name in
  Ok (set_buffer b3 (set_banks (banks swf ++ [bank]) swf)).

(** Modelled from the spec: [TransformBank.save] of [lib/bank.ts]:
    [bank.save(swf)] writes the two counts into the header,
    [bank.save(swf, true)] frames the two counts and the bank name as tag 42
    (section 4.6, emit order item 10). *)
Definition TransformBank_save (bank : TransformBank) (swf : SupercellSWF)
    (asTag : bool) : SupercellSWF :=
  let counts := writeUInt16 (Z.of_nat (length (colors bank)))
                  (writeUInt16 (Z.of_nat (length (matrices bank))) []) in
  if asTag then set_buffer (saveTag 42 (writeASCII (bankName bank) counts) (buffer swf)) swf
  else set_buffer (buffer swf ++ counts) swf.

(** [n] consecutive reads with [rd]. *)
Fixpoint readMany {A : Type} (rd : ScBuffer -> result (A * ScBuffer)) (n : nat)
    (buf : ScBuffer) : result (list A * ScBuffer) :=
  match n with
  | O => Ok ([], buf)
  | S n' =>
      '(a, buf1) ← rd buf;
      '(l, buf2) ← readMany rd n' buf1;
      Ok (a :: l, buf2)
  end.

(** Modelled from the spec: [exports.load] of [lib/exports.ts], which is
    missing from the sources, reads the exports table (section 4.6, header
    item 7): [u16 count], then the ids, then the names. *)
Definition Exports_load (swf : SupercellSWF) : result SupercellSWF :=
  '(count, b1) ← readUInt16 (buffer swf);
  '(ids, b2) ← readMany readUInt16 (Z.to_nat count) b1;
  '(names, b3) ← readMany readASCII (Z.to_nat count) b2;
  Ok (set_buffer b3 (set_exports (exports swf ++ zip ids names) swf)).

(** Modelled from the spec: [exports.save] of [lib/exports.ts] writes the
    same table. *)
Definition Exports_save (swf : SupercellSWF) : SupercellSWF :=
  let e := exports swf in
  let b1 := writeUInt16 (Z.of_nat (length e)) (buffer swf) in
  let b2 := fold_left (fun b '(id, _) => writeUInt16 id b) e b1 in
  let b3 := fold_left (fun b '(_, name) => writeASCII name b) e b2 in
  set_buffer b3 swf.

(** *** [parseTags] *)

(** The local variables of [parseTags]. *)
Record Locals : Type := mkLocals {
  hasTextureData : bool;
  shapesLoaded : Z;
  movieclipsLoaded : Z;
  textfieldsLoaded : Z;
  modifiersLoaded : Z;
  banksLoaded : nat;
  matricesLoaded : nat;
  colorsLoaded : nat;
  texturesLoaded : nat
}.

Definition new_Locals : Locals := mkLocals true 0 0 0 0 0 0 0 0.

(** The instance with its private counters and the locals of the running
    [parseTags]. *)
Record ParseState : Type := mkParse {
  this : SupercellSWF;
  priv : Counts;
  loc : Locals
}.

Definition TEXTURE_TAGS : list Z := [1; 16; 19; 24; 27; 28; 29; 34].
Definition SHAPE_TAGS : list Z := [2; 18].
Definition MOVIECLIP_TAGS : list Z := [3; 10; 12; 14; 35].
Definition TEXTFIELD_TAGS : list Z := [7; 15; 20; 21; 25; 33; 43; 44].
Definition MATRIX_TAGS : list Z := [8; 36].
Definition MODIFIER_TAGS : list Z := [38; 39; 40].

(** The outcome of a record handler inside [parseTags]. *)
Definition handled (r : option SupercellSWF) : result SupercellSWF :=
  match r with
  | Some swf => Ok swf
  | None => Err RecordFailure
  end.

(** One turn of the [while (read)] loop: the new value of [read] and the
    state after the [switch]. *)
Definition parseTag `{RecordHandlers} (st : ParseState) : result (bool * ParseState) :=
  '(tag, b1) ← readUInt8 (buffer (this st));
  '(tagLength, b2) ← readInt32 b1;
  let swf := set_buffer b2 (this st) in
  let c := priv st in
  let l := loc st in
  if tag =? 0 then
    Ok (false, mkParse swf c l)
  else if tag_in TEXTURE_TAGS tag then
    let slot := if (texturesLoaded l <? length (textures swf))%nat
                then Some (texturesLoaded l) else None in
    '(ts, b3) ← Texture_load tag slot (textures swf) b2 (hasTextureData l);
    Ok (true, mkParse (set_buffer b3 (set_textures ts swf)) c
          (mkLocals (hasTextureData l) (shapesLoaded l) (movieclipsLoaded l)
             (textfieldsLoaded l) (modifiersLoaded l) (banksLoaded l)
             (matricesLoaded l) (colorsLoaded l) (S (texturesLoaded l))))
  else if tag =? 23 then
    Ok (true, mkParse (set_useLowresTexture true swf) c l)
  else if tag =? 26 then
    Ok (true, mkParse (set_hasExternalTexture true swf) c
          (mkLocals false (shapesLoaded l) (movieclipsLoaded l)
             (textfieldsLoaded l) (modifiersLoaded l) (banksLoaded l)
             (matricesLoaded l) (colorsLoaded l) (texturesLoaded l)))
  else if tag =? 30 then
    Ok (true, mkParse (set_useUncommonTexture true swf) c l)
  else if tag =? 32 then
    '(highres, b3) ← readASCII b2;
    '(lowres, b4) ← readASCII b3;
    let swf := set_buffer b4 swf in
    if negb (String.eqb highres "") && negb (String.eqb lowres "")
    then Ok (true, mkParse (set_postfixes highres lowres swf) c l)
    else Ok (true, mkParse swf c l)
  else if tag_in SHAPE_TAGS tag then
    if shapesLoaded l >=? _shapeCount c then Err INVALID_SHAPE_COUNT
    else
      swf' ← handled (Shape_load tag swf);
      Ok (true, mkParse swf' c
            (mkLocals (hasTextureData l) (shapesLoaded l + 1) (movieclipsLoaded l)
               (textfieldsLoaded l) (modifiersLoaded l) (banksLoaded l)
               (matricesLoaded l) (colorsLoaded l) (texturesLoaded l)))
  else if tag_in MOVIECLIP_TAGS tag then
    if movieclipsLoaded l >=? _movieClipsCount c then Err TooManyMovieClips
    else
      swf' ← handled (MovieClip_load tag swf);
      Ok (true, mkParse swf' c
            (mkLocals (hasTextureData l) (shapesLoaded l) (movieclipsLoaded l + 1)
               (textfieldsLoaded l) (modifiersLoaded l) (banksLoaded l)
               (matricesLoaded l) (colorsLoaded l) (texturesLoaded l)))
  else if tag_in TEXTFIELD_TAGS tag then
    if textfieldsLoaded l >=? _textFieldsCount c then Err INVALID_TEXTFIELD_COUNT
    else
      swf' ← handled (TextField_load tag swf);
      Ok (true, mkParse swf' c
            (mkLocals (hasTextureData l) (shapesLoaded l) (movieclipsLoaded l)
               (textfieldsLoaded l + 1) (modifiersLoaded l) (banksLoaded l)
               (matricesLoaded l) (colorsLoaded l) (texturesLoaded l)))
  else if tag_in MATRIX_TAGS tag then
    match banks swf !! banksLoaded l with
    | None => Err UndefinedBank
    | Some bank =>
        match matrices bank !! matricesLoaded l with
        | None => Err UndefinedBank
        | Some _ =>
            swf' ← handled (Matrix_load (banksLoaded l) (matricesLoaded l) tag swf);
            Ok (true, mkParse swf' c
                  (mkLocals (hasTextureData l) (shapesLoaded l) (movieclipsLoaded l)
                     (textfieldsLoaded l) (modifiersLoaded l) (banksLoaded l)
                     (S (matricesLoaded l)) (colorsLoaded l) (texturesLoaded l)))
        end
    end
  else if tag =? 9 then
    match banks swf !! banksLoaded l with
    | None => Err UndefinedBank
    | Some bank =>
        match colors bank !! colorsLoaded l with
        | None => Err UndefinedBank
        | Some _ =>
            swf' ← handled (Color_load (banksLoaded l) (colorsLoaded l) tag swf);
            Ok (true, mkParse swf' c
                  (mkLocals (hasTextureData l) (shapesLoaded l) (movieclipsLoaded l)
                     (textfieldsLoaded l) (modifiersLoaded l) (banksLoaded l)
                     (matricesLoaded l) (S (colorsLoaded l)) (texturesLoaded l)))
        end
    end
  else if tag =? 37 then
    '(n, b3) ← readUInt16 b2;
    Ok (true, mkParse (set_buffer b3 swf)
          (mkCounts (_shapeCount c) (_movieClipsCount c) (_textFieldsCount c) n) l)
  else if tag_in MODIFIER_TAGS tag then
    if modifiersLoaded l >=? _modifiersCount c then Err TooManyModifiers
    else
      swf' ← handled (MovieClipModifier_load tag swf);
      Ok (true, mkParse swf' c
            (mkLocals (hasTextureData l) (shapesLoaded l) (movieclipsLoaded l)
               (textfieldsLoaded l) (modifiersLoaded l + 1) (banksLoaded l)
               (matricesLoaded l) (colorsLoaded l) (texturesLoaded l)))
  else if tag =? 42 then
    swf' ← TransformBank_load swf true;
    Ok (true, mkParse swf' c
          (mkLocals (hasTextureData l) (shapesLoaded l) (movieclipsLoaded l)
             (textfieldsLoaded l) (modifiersLoaded l) (S (banksLoaded l))
             0 0 (texturesLoaded l)))
  else
    b3 ← skip tagLength b2;
    Ok (true, mkParse (set_buffer b3 swf) c l).

(** The [while (read)] loop, bounded by [fuel] turns. *)
Fixpoint parseTags_loop `{RecordHandlers} (fuel : nat) (st : ParseState)
  : result ParseState :=
  match fuel with
  | O => Err OutOfFuel
  | S fuel' =>
      parseTag st ≫= fun '(read, st') =>
        if read : bool then parseTags_loop fuel' st' else Ok st'
  end.

(** [this.parseTags()].  Every turn consumes the five bytes of a tag header,
    so a handler that does not lengthen the buffer leaves the bound out of
    reach. *)
Definition parseTags `{RecordHandlers} (swf : SupercellSWF) (c : Counts)
  : result (SupercellSWF * Counts) :=
  st ← parseTags_loop (S (length (buffer swf))) (mkParse swf c new_Locals);
  Ok (this st, priv st).

(** *** Loading *)

(** [path.split('.')] *)
Fixpoint split_dot (s : string) : list string :=
  match s with
  | EmptyString => [EmptyString]
  | String a s' =>
      if Ascii.eqb a "."%char then EmptyString :: split_dot s'
      else match split_dot s' with
           | piece :: pieces => String a piece :: pieces
           | [] => [String a EmptyString]
           end
  end.

(** [path.split('.').slice(0, -1).join('.')] *)
Definition basePath (path : string) : string :=
  String.concat "." (removelast (split_dot path)).

(** [this.loadAsset(path)] *)
Definition loadAsset `{Envelope} `{RecordHandlers} (path : string) (fs : FileSystem)
    (swf : SupercellSWF) (c : Counts) : result (SupercellSWF * Counts) :=
  match fs !! path with
  | None => Err FileNotFound
  | Some bytes =>
      let '(method, plain) := fromCompressed bytes in
      let swf := set_compression method (set_buffer plain swf) in
      '(shapeCount, b1) ← readUInt16 (buffer swf);
      '(movieClipsCount, b2) ← readUInt16 b1;
      '(textureCount, b3) ← readUInt16 b2;
      let swf := set_textures (replicate (Z.to_nat textureCount) new_Texture) swf in
      '(textFieldsCount, b4) ← readUInt16 b3;
      swf ← TransformBank_load (set_buffer b4 swf) false;
      b5 ← skip 5 (buffer swf);
      swf ← Exports_load (set_buffer b5 swf);
      parseTags swf (mkCounts shapeCount movieClipsCount textFieldsCount (_modifiersCount c))
  end.

(** [this.loadExternalTexture(path)] *)
Definition loadExternalTexture `{Envelope} `{RecordHandlers} (path : string)
    (fs : FileSystem) (swf : SupercellSWF) (c : Counts)
  : result (SupercellSWF * Counts) :=
  match fs !! path with
  | None => Err FileNotFound
  | Some bytes =>
      '(swf', c') ← parseTags (set_buffer (snd (fromCompressed bytes)) swf) c;
      Ok (set_buffer [] swf', c')
  end.

(** The choice of [texturePath] in [load]; [None] is [undefined]. *)
Definition texturePath (fs : FileSystem) (swf : SupercellSWF) (path : string)
  : option string :=
  let commonPath := (basePath path ++ "_tex.sc")%string in
  let lowresPath := (basePath path ++ lowresPostfix swf ++ "_tex.sc")%string in
  let highresPath := (basePath path ++ highresPostfix swf ++ "_tex.sc")%string in
  if useUncommonTexture swf then
    if existsSync fs highresPath then Some highresPath
    else if existsSync fs lowresPath then Some lowresPath
    else None
  else if existsSync fs commonPath then Some commonPath
  else None.

(** [this.load(path)] *)
Definition load `{Envelope} `{RecordHandlers} (path : string) (fs : FileSystem)
    (swf : SupercellSWF) (c : Counts) : result (SupercellSWF * Counts) :=
  '(swf, c) ← loadAsset path fs swf c;
  if hasExternalTexture swf then
    match texturePath fs swf path with
    | None => Err INVALID_EXTERNAL_TEXTURE
    | Some p => loadExternalTexture p fs swf c
    end
  else Ok (swf, c).

(** *** Saving *)

Definition entry_le (a b : Z * Resource) : Prop := a.1 ≤ b.1.

Global Instance entry_le_dec : RelDecision entry_le.
Proof. intros a b. unfold entry_le. apply _. Defined.

(** The keys that JavaScript treats as array indices: the integers from 0
    to 2^32 - 2. *)
Definition is_index (key : Z) : bool := (0 <=? key) && (key <? 2 ^ 32 - 1).

(** [Object.entries(this.resources)]: the properties whose keys are array
    indices come first, in ascending order of key, and the other properties
    follow in the order of their creation. *)
Definition Object_entries (o : list (Z * Resource)) : list (Z * Resource) :=
  merge_sort entry_le (filter (fun e => is_index e.1 = true) o)
  ++ filter (fun e => is_index e.1 = false) o.

(** [o[id]]: the property under the key, [undefined] (here [None]) when
    there is none. *)
Definition Object_get (o : list (Z * Resource)) (id : Z) : option Resource :=
  snd <$> List.find (fun e => bool_decide (e.1 = id)) o.

(** [o[id] = r]: the value of an existing property is replaced where it
    is, a new property is created after the others. *)
Fixpoint Object_set (o : list (Z * Resource)) (id : Z) (r : Resource)
  : list (Z * Resource) :=
  match o with
  | [] => [(id, r)]
  | e :: o' => if bool_decide (e.1 = id) then (id, r) :: o' else e :: Object_set o' id r
  end.

(** The [instanceof] tests of [saveAsset]. *)
Definition isMovieClipModifier (r : Resource) : bool :=
  match r with MovieClipModifier _ => true | _ => false end.
Definition isShape (r : Resource) : bool :=
  match r with Shape _ => true | _ => false end.
Definition isTextField (r : Resource) : bool :=
  match r with TextField _ => true | _ => false end.
Definition isMovieClip (r : Resource) : bool :=
  match r with MovieClip _ => true | _ => false end.

(** The ids pushed for one class by the [instanceof] chain. *)
Definition idsOf (is_kind : Resource -> bool) (o : list (Z * Resource)) : list Z :=
  map fst (filter (fun e => is_kind e.2 = true) (Object_entries o)).

(** [this.resources[id].save(id, this)]; the entry is there as long as no
    saver removes it, and the instance is left as it is otherwise. *)
Definition saveResource `{RecordHandlers} (swf : SupercellSWF) (id : Z) : SupercellSWF :=
  match Object_get (resources swf) id with
  | Some r => Resource_save id r swf
  | None => swf
  end.

(** The header: four counts, the primary bank, five reserved bytes, the
    exports. *)
Definition saveHeader (shapeIds movieClipIds textFieldIds : list Z)
    (swf : SupercellSWF) : SupercellSWF :=
  let b := writeUInt16 (Z.of_nat (length textFieldIds))
             (writeUInt16 (Z.of_nat (length (textures swf)))
                (writeUInt16 (Z.of_nat (length movieClipIds))
                   (writeUInt16 (Z.of_nat (length shapeIds)) []))) in
  let swf := set_buffer b swf in
  let bank := match banks swf with
              | bank0 :: _ => bank0
              | [] => new_TransformBank
              end in
  let swf := TransformBank_save bank swf false in
  let swf := set_buffer (fill 5 (buffer swf)) swf in
  Exports_save swf.

(** The postfix tag. *)
Definition savePostfix (swf : SupercellSWF) : SupercellSWF :=
  if useUncommonTexture swf
     && negb (String.eqb (highresPostfix swf) "_highres")
     && negb (String.eqb (lowresPostfix swf) "_lowres")
  then
    let postfixTag := 32 in
    let postfixBuffer := writeASCII (lowresPostfix swf)
                           (writeASCII (highresPostfix swf) []) in
    set_buffer (saveTag postfixTag postfixBuffer (buffer swf)) swf
  else swf.

(** The three marker tags. *)
Definition saveMarkers (swf : SupercellSWF) : SupercellSWF :=
  let swf := if useLowresTexture swf
             then set_buffer (saveTag 23 [] (buffer swf)) swf else swf in
  let swf := if useUncommonTexture swf
             then set_buffer (saveTag 30 [] (buffer swf)) swf else swf in
  if hasExternalTexture swf
  then set_buffer (saveTag 26 [] (buffer swf)) swf else swf.

(** [for (const texture of this.textures) texture.save(this, hasData, isLowres)]:
    the textures after the calls and the buffer. *)
Fixpoint saveTextureList `{ImageResize} (ts : list Texture) (buf : ScBuffer)
    (hasData isLowres : bool) : list Texture * ScBuffer :=
  match ts with
  | [] => ([], buf)
  | t :: ts' =>
      let '(t', buf') := Texture_save t buf hasData isLowres in
      let '(ts'', buf'') := saveTextureList ts' buf' hasData isLowres in
      (t' :: ts'', buf'')
  end.

Definition saveTextures `{ImageResize} (hasData isLowres : bool) (swf : SupercellSWF)
  : SupercellSWF :=
  let '(ts, buf) := saveTextureList (textures swf) (buffer swf) hasData isLowres in
  set_buffer buf (set_textures ts swf).

(** Tag 37 and the modifiers. *)
Definition saveModifiers `{RecordHandlers} (movieClipModifierIds : list Z)
    (swf : SupercellSWF) : SupercellSWF :=
  let swf :=
    if (0 <? length movieClipModifierIds)%nat then
      let lengthTag := writeUInt16 (Z.of_nat (length movieClipModifierIds)) [] in
      set_buffer (saveTag 37 lengthTag (buffer swf)) swf
    else swf in
  fold_left saveResource movieClipModifierIds swf.

(** The banks: tag 42 for every bank but the first, then its matrices and
    colors. *)
Definition saveBank `{RecordHandlers} (swf : SupercellSWF) (indexed : nat * TransformBank)
  : SupercellSWF :=
  let '(bankIndex, bank) := indexed in
  let swf := if (0 <? bankIndex)%nat then TransformBank_save bank swf true else swf in
  let swf := fold_left (fun s m => Matrix_save m s) (matrices bank) swf in
  fold_left (fun s c => Color_save c s) (colors bank) swf.

Definition saveBanks `{RecordHandlers} (swf : SupercellSWF) : SupercellSWF :=
  fold_left saveBank (imap (fun i b => (i, b)) (banks swf)) swf.

(** The buffer of [saveAsset] before compression, with the instance. *)
Definition saveAsset_buffer `{ImageResize} `{RecordHandlers} (swf : SupercellSWF)
  : SupercellSWF :=
  let movieClipModifierIds := idsOf isMovieClipModifier (resources swf) in
  let shapeIds := idsOf isShape (resources swf) in
  let textFieldIds := idsOf isTextField (resources swf) in
  let movieClipIds := idsOf isMovieClip (resources swf) in
  let swf := saveHeader shapeIds movieClipIds textFieldIds swf in
  let swf := savePostfix swf in
  let swf := saveMarkers swf in
  let swf := saveTextures (negb (hasExternalTexture swf)) false swf in
  let swf := saveModifiers movieClipModifierIds swf in
  let swf := fold_left saveResource shapeIds swf in
  let swf := fold_left saveResource textFieldIds swf in
  let swf := saveBanks swf in
  let swf := fold_left saveResource movieClipIds swf in
  set_buffer (saveTag 0 [] (buffer swf)) swf.

(** [this.saveAsset(path)]: the instance, its buffer cleared, and the file
    system with the file written. *)
Definition saveAsset `{Envelope} `{ImageResize} `{RecordHandlers} (path : string)
    (swf : SupercellSWF) (fs : FileSystem) : SupercellSWF * FileSystem :=
  let swf := saveAsset_buffer swf in
  (set_buffer [] swf, <[path := toCompressed (compression swf) (buffer swf)]> fs).

(** [this.saveExternalTexture(path, isLowres)] *)
Definition saveExternalTexture `{Envelope} `{ImageResize} (path : string)
    (isLowres : bool) (swf : SupercellSWF) (fs : FileSystem)
  : SupercellSWF * FileSystem :=
  let swf := saveTextures true isLowres (set_buffer [] swf) in
  let swf := set_buffer (saveTag 0 [] (buffer swf)) swf in
  (set_buffer [] swf, <[path := toCompressed (compression swf) (buffer swf)]> fs).

(** [this.save(path)] *)
Definition save `{Envelope} `{ImageResize} `{RecordHandlers} (path : string)
    (swf : SupercellSWF) (fs : FileSystem) : SupercellSWF * FileSystem :=
  let '(swf, fs) := saveAsset path swf fs in
  if hasExternalTexture swf then
    if useUncommonTexture swf then
      let '(swf, fs) :=
        saveExternalTexture (basePath path ++ lowresPostfix swf ++ "_tex.sc")%string
                            true swf fs in
      saveExternalTexture (basePath path ++ highresPostfix swf ++ "_tex.sc")%string
                          false swf fs
    else saveExternalTexture (basePath path ++ "_tex.sc")%string false swf fs
  else (swf, fs).

(** * The specification's tables *)

(** The table of section 4.4 of the specification: tag id, mag filter, min
    filter, linear, downscaling; [None] stands for "(any)". *)
Definition TAG_TABLE : list (Z * FILTERS * FILTERS * option bool * option bool) :=
  [(1, GL_LINEAR, GL_NEAREST, Some true, Some true);
   (16, GL_LINEAR, GL_LINEAR_MIPMAP_NEAREST, Some true, Some true);
   (19, GL_LINEAR, GL_LINEAR_MIPMAP_NEAREST, Some true, Some false);
   (24, GL_LINEAR, GL_NEAREST, Some true, Some false);
   (27, GL_LINEAR, GL_NEAREST, Some false, Some false);
   (28, GL_LINEAR, GL_NEAREST, Some false, Some true);
   (29, GL_LINEAR, GL_LINEAR_MIPMAP_NEAREST, Some false, Some true);
   (34, GL_NEAREST, GL_NEAREST, None, None)].

Definition cell_matches (cell : option bool) (v : bool) : bool :=
  match cell with
  | Some b => bool_decide (b = v)
  | None => true
  end.

Definition row_matches (t : Texture)
    (row : Z * FILTERS * FILTERS * option bool * option bool) : bool :=
  let '(_, mag, min, lin, down) := row in
  bool_decide (mag = magFilter t) && bool_decide (min = minFilter t)
  && cell_matches lin (linear t) && cell_matches down (downscaling t).

(** The tag the specification asks the writer for: the minimal id among the
    matching rows, and 1 when no row matches. *)
Definition table_tag (t : Texture) : Z :=
  match map (fun row => row.1.1.1.1) (filter (fun row => row_matches t row = true) TAG_TABLE) with
  | [] => 1
  | id :: ids => foldr Z.min id ids
  end.

(** The filters the table gives for a tag id. *)
Definition table_filters (tag : Z) : option (FILTERS * FILTERS) :=
  match filter (fun row => row.1.1.1.1 = tag) TAG_TABLE with
  | (_, mag, min, _, _) :: _ => Some (mag, min)
  | [] => None
  end.


(** The bytes per pixel of each packing (section 4.3). *)
Definition bytes_per_pixel (f : PixelFormat) : nat :=
  match f with
  | GL_RGBA8 => 4
  | GL_RGBA4 | GL_RGB5_A1 | GL_RGB565 | GL_LUMINANCE8_ALPHA8 => 2
  | GL_LUMINANCE8 => 1
  end.

(** A pixel survives the writer when reading back what [save] writes for it
    (after the zero-alpha rule, in the packing [f]) yields the pixel. *)
Definition pixel_survives (f : PixelFormat) (img : Image) (p : Pixel) : bool :=
  match readPixel f (writePixel f [] (zeroAlpha img p)) with
  | Ok (q, []) => bool_decide (q = p)
  | _ => false
  end.

(** An image whose pixel array has one entry per coordinate. *)
Definition Image_wf (img : Image) : Prop :=
  length (data img) = (width img * height img)%nat.


(** The position of a coordinate in the row-major pixel array. *)
Definition pixel_index (w : nat) (c : nat * nat) : nat := (c.2 * w + c.1)%nat.


(** * The specification's wording of two decisions *)

(** Section 4.6, emit order, item 2: the postfix tag is due when
    [use_uncommon_texture] is set and at least one postfix differs from its
    default. *)
Definition spec_postfix_due (swf : SupercellSWF) : bool :=
  useUncommonTexture swf
  && (negb (String.eqb (highresPostfix swf) "_highres")
      || negb (String.eqb (lowresPostfix swf) "_lowres")).

(** Section 4.6, external texture files: the highres file if present, else
    the lowres file, else the common file. *)
Definition spec_texturePath (fs : FileSystem) (swf : SupercellSWF) (path : string)
  : option string :=
  let commonPath := (basePath path ++ "_tex.sc")%string in
  let lowresPath := (basePath path ++ lowresPostfix swf ++ "_tex.sc")%string in
  let highresPath := (basePath path ++ highresPostfix swf ++ "_tex.sc")%string in
  if existsSync fs highresPath then Some highresPath
  else if existsSync fs lowresPath then Some lowresPath
  else if existsSync fs commonPath then Some commonPath
  else None.

(** * Documents that come back from a save and a load *)

(** Filters and layout that [Texture.save] and [Texture.load] map to each
    other: rows 1, 24, 27, 28 of the table and, for the linear layout, rows
    16 and 19. *)
Definition filters_roundtrip (t : Texture) : Prop :=
  magFilter t = GL_LINEAR
  /\ (minFilter t = GL_NEAREST
      \/ (minFilter t = GL_LINEAR_MIPMAP_NEAREST /\ linear t = true)).

(** A texture whose dimensions are positive and fit the header fields, whose
    pixel format belongs to the kind of its image, and whose pixels all
    survive the writer. *)
Definition texture_roundtrips (t : Texture) : Prop :=
  filters_roundtrip t
  /\ Image_wf (image t)
  /\ 0 < Z.of_nat (width (image t)) < 65536
  /\ 0 < Z.of_nat (height (image t)) < 65536
  /\ exists f, _pixelFormat t = Some f
       /\ f ∈ CHANNEL_FORMATS (kind (image t))
       /\ Forall (fun p => pixel_survives f (image t) p = true) (data (image t)).

(** Postfixes that are the defaults, or that are both written (and read
    back) as the postfix tag. *)
Definition postfixes_roundtrip (swf : SupercellSWF) : Prop :=
  (highresPostfix swf = "_highres"%string /\ lowresPostfix swf = "_lowres"%string)
  \/ (useUncommonTexture swf = true
      /\ highresPostfix swf <> "_highres"%string
      /\ lowresPostfix swf <> "_lowres"%string
      /\ highresPostfix swf <> ""%string
      /\ lowresPostfix swf <> ""%string
      /\ (String.length (highresPostfix swf) < 255)%nat
      /\ (String.length (lowresPostfix swf) < 255)%nat).


(** The payload of the tag of a texture saved with pixel data, and the
    records of a list of textures. *)
Definition texture_payload (t : Texture) : list byte :=
  writeUInt16 (Z.of_nat (height (image t)))
    (writeUInt16 (Z.of_nat (width (image t)))
       (writeUInt8 (PIXEL_FORMATS_indexOf (_pixelFormat t)) []))
  ++ flat_map (fun c => writePixel (corrected_format t) []
                          (zeroAlpha (image t) (getPixelXY (image t) c.1 c.2)))
       ((if linear t then linear_walk else block_walk)
          (width (image t)) (height (image t))).

Definition texture_records (ts : list Texture) : list byte :=
  flat_map (fun t => saveTag (save_tag t) (texture_payload t) []) ts.

(** The bytes of the file of a document of textures only: the header, then
    the tag stream. *)
Definition header_bytes (textureCount : nat) : list byte :=
  writeUInt16 0 (writeUInt16 (Z.of_nat textureCount) (writeUInt16 0 (writeUInt16 0 [])))
  ++ writeUInt16 0 (writeUInt16 0 [])
  ++ replicate 5 x00
  ++ writeUInt16 0 [].

Definition postfix_bytes (swf : SupercellSWF) : list byte :=
  if useUncommonTexture swf
     && negb (String.eqb (highresPostfix swf) "_highres")
     && negb (String.eqb (lowresPostfix swf) "_lowres")
  then saveTag 32 (writeASCII (lowresPostfix swf) (writeASCII (highresPostfix swf) [])) []
  else [].

Definition marker_bytes (swf : SupercellSWF) : list byte :=
  (if useLowresTexture swf then saveTag 23 [] [] else [])
  ++ (if useUncommonTexture swf then saveTag 30 [] [] else [])
  ++ (if hasExternalTexture swf then saveTag 26 [] [] else []).


(** * Runs of the tag loop *)

(** The tag id of the header at the cursor, when a whole header is there. *)
Definition peek_tag (buf : ScBuffer) : option Z :=
  match readUInt8 buf with
  | Ok (tag, b1) =>
      match readInt32 b1 with
      | Ok _ => Some tag
      | Err _ => None
      end
  | Err _ => None
  end.

(** [turns st ids st']: started in [st], the loop of [parseTags] takes one
    turn per element of [ids], reading these tag ids in this order, every
    turn ending without exception and with [read] still true, and is then in
    [st']. *)
Inductive turns `{RecordHandlers} : ParseState -> list Z -> ParseState -> Prop :=
| turns_nil (st : ParseState) : turns st [] st
| turns_cons (st st1 st2 : ParseState) (tag : Z) (ids : list Z) :
    peek_tag (buffer (this st)) = Some tag ->
    parseTag st = Ok (true, st1) ->
    turns st1 ids st2 ->
    turns st (tag :: ids) st2.

(** The number of shape tags among the tag ids read. *)
Definition shape_tags (ids : list Z) : nat :=
  length (filter (fun tag => tag ∈ SHAPE_TAGS) ids).

(** * Stand-ins for the external collaborators

    Used to run the model on sample files; the theorems hold for every
    collaborator. *)

Definition method_byte (m : COMPRESSION) : byte :=
  match m with NONE => x00 | LZMA => x01 | LZHAM => x02 | ZSTD => x03 end.

Definition byte_method (b : byte) : COMPRESSION :=
  if decide (b = x01) then LZMA
  else if decide (b = x02) then LZHAM
  else if decide (b = x03) then ZSTD
  else NONE.

(** An envelope that stores the bytes behind a method byte. *)
Definition stored_envelope : Envelope := {|
  toCompressed m plain := method_byte m :: plain;
  fromCompressed bytes :=
    match bytes with
    | b :: plain => (byte_method b, plain)
    | [] => (NONE, [])
    end
|}.

(** Halving by keeping every second pixel of every second row. *)
Definition nearest_half : ImageResize := fun img =>
  let w := (width img / 2)%nat in
  let h := (height img / 2)%nat in
  mkImage w h (kind img)
    (map (fun c => getPixelXY img (2 * c.1) (2 * c.2)) (linear_walk w h)).

(** Record handlers for records with an empty payload: a loader reads
    nothing, a saver writes nothing. *)
Definition empty_records : RecordHandlers := {|
  Shape_load _ swf := Some swf;
  MovieClip_load _ swf := Some swf;
  TextField_load _ swf := Some swf;
  MovieClipModifier_load _ swf := Some swf;
  Matrix_load _ _ _ swf := Some swf;
  Color_load _ _ _ swf := Some swf;
  Resource_save _ _ swf := swf;
  Matrix_save _ swf := swf;
  Color_save _ swf := swf
|}.

(** * Sample values *)

(** A block-layout sample: 33 by 2 pixels, so that the walk has a full block
    column and a cut one. *)
Definition sample_image : Image :=
  mkImage 33 2 RGBA
    (map (fun i => [byte_of_Z (Z.of_nat i); x10; x20; xff]) (seq 0 66)).

(** A stream of two empty shape records, in an instance that declares one. *)
Definition two_shapes_state : ParseState :=
  mkParse (set_buffer [x02; x00; x00; x00; x00; x12; x00; x00; x00; x00] new_SupercellSWF)
          (mkCounts 1 0 0 0) new_Locals.

(** A tag 1 record with one RGBA8 pixel, in an instance without texture
    slots. *)
Definition extra_texture_state : ParseState :=
  mkParse (set_buffer [x01; x09; x00; x00; x00; x00; x01; x00; x01; x00;
                       x0a; x0b; x0c; x0d; x00; x00; x00; x00; x00]
                      new_SupercellSWF)
          new_Counts new_Locals.

(** One RGBA8 texture of one opaque pixel. *)
Definition one_pixel_texture : Texture :=
  mkTexture (Some GL_RGBA8) GL_LINEAR GL_NEAREST true true
            (mkImage 1 1 RGBA [[x0a; x0b; x0c; xff]]).


(** A document with external textures and uncommon texture files. *)
Definition external_document : SupercellSWF :=
  mkSWF NONE true true false [] [one_pixel_texture] "_highres" "_lowres"
        [new_TransformBank] [] [].

(** The main file of [external_document], alone and with texture files. *)
Definition main_file_only : FileSystem :=
  (@saveAsset stored_envelope nearest_half empty_records
     "foo.sc" external_document ∅).2.

Definition with_common_texture_file : FileSystem :=
  (@saveExternalTexture stored_envelope nearest_half
     "foo_tex.sc" false external_document main_file_only).2.

Definition with_both_texture_files : FileSystem :=
  (@save stored_envelope nearest_half empty_records
     "foo.sc" external_document ∅).2.


(** A document with a block-layout RGBA texture and a linear grey-alpha
    texture, both marker flags and renamed postfixes. *)
Definition sample_document : SupercellSWF :=
  mkSWF LZMA false true true []
        [mkTexture (Some GL_RGBA8) GL_LINEAR GL_NEAREST false false sample_image;
         mkTexture (Some GL_LUMINANCE8_ALPHA8) GL_LINEAR GL_LINEAR_MIPMAP_NEAREST true true
                   (mkImage 2 1 GREYA [[x10; xff]; [x00; x00]])]
        "_hd" "_sd" [new_TransformBank] [] [].

(** * The accessors and the copies *)

(** The operations of the image library that the [channels] setter calls:
    [image.add(255, { channels: [c] })], [image.rgba8()] and
    [image.combineChannels(average, { keepAlpha })].  They are external and
    left abstract. *)
Class ImageConvert : Type := {
  Image_add255 : nat -> Image -> Image;
  Image_rgba8 : Image -> Image;
  Image_combineChannels : bool -> Image -> Image
}.

(** [format.toLocaleUpperCase()], which depends on the locale of the host. *)
Class Locale : Type := toLocaleUpperCase : string -> string.

(** The strings of [CHANNEL_FORMATS] and [PIXEL_FORMATS]. *)
Definition format_name (f : PixelFormat) : string :=
  match f with
  | GL_RGBA8 => "GL_RGBA8"
  | GL_RGBA4 => "GL_RGBA4"
  | GL_RGB5_A1 => "GL_RGB5_A1"
  | GL_RGB565 => "GL_RGB565"
  | GL_LUMINANCE8_ALPHA8 => "GL_LUMINANCE8_ALPHA8"
  | GL_LUMINANCE8 => "GL_LUMINANCE8"
  end.

(** [CHANNEL_FORMATS[kind].includes(format)] on a string. *)
Definition includes_name (k : ImageKind) (format : string) : bool :=
  bool_decide (format ∈ map format_name (CHANNEL_FORMATS k)).

(** The format that a string names, if any. *)
Definition named_format (format : string) : option PixelFormat :=
  List.find (fun f => String.eqb (format_name f) format)
            [GL_RGBA8; GL_RGBA4; GL_RGB5_A1; GL_RGB565; GL_LUMINANCE8_ALPHA8; GL_LUMINANCE8].

Definition set_image (img : Image) (t : Texture) : Texture :=
  mkTexture (_pixelFormat t) (magFilter t) (minFilter t) (linear t) (downscaling t) img.

(** [get channels()] *)
Definition Texture_channels (t : Texture) : nat := channels (kind (image t)).

(** [set channels(count)]: four conversions in a row, each tested on the
    image that the one before has left. *)
Definition set_channels `{ImageConvert} (count : nat) (this : Texture) : Texture :=
  if (count =? Texture_channels this)%nat then this
  else
    let this :=
      if (Texture_channels this - 1 =? count)%nat
         && (negb (Texture_channels this =? 3)%nat && negb (Texture_channels this =? 1)%nat)
      then set_image (Image_add255 (Texture_channels this - 1) (image this)) this
      else this in
    let this :=
      if (Texture_channels this + 1 =? count)%nat
         && ((Texture_channels this =? 1)%nat || (Texture_channels this =? 3)%nat)
      then set_image (Image_rgba8 (image this)) this
      else this in
    let this :=
      if ((Texture_channels this =? 3)%nat || (Texture_channels this =? 4)%nat)
         && ((count =? 1)%nat || (count =? 2)%nat)
      then set_image (Image_combineChannels (negb (count =? 1)%nat) (image this)) this
      else this in
    if ((Texture_channels this =? 1)%nat || (Texture_channels this =? 2)%nat)
       && ((count =? 3)%nat || (count =? 4)%nat)
    then set_image (Image_rgba8 (image this)) this
    else this.

(** [set pixelFormat(format)] *)
Definition set_pixelFormat `{ImageConvert} `{Locale} (format : string) (this : Texture)
  : Texture :=
  let format := toLocaleUpperCase format in
  if bool_decide (format_name <$> _pixelFormat this = Some format) then this
  else
    let assign count :=
      let this := set_channels count this in
      mkTexture (named_format format) (magFilter this) (minFilter this) (linear this)
                (downscaling this) (image this) in
    if includes_name RGBA format then assign 4%nat
    else if includes_name RGB format then assign 3%nat
    else if includes_name GREYA format then assign 2%nat
    else if includes_name GREY format then assign 1%nat
    else this.

(** [this.clone()]: [new Texture(options)] assigns the options in the order
    of the literal, the pixel format through its setter, on the texture of
    the field initialisers; [None] is the [TypeError] of
    [undefined.toLocaleUpperCase()].  [this.image.clone()] is the image, as
    a value. *)
Definition Texture_clone `{ImageConvert} `{Locale} (this : Texture) : option Texture :=
  match _pixelFormat this with
  | None => None
  | Some f =>
      let copy := set_pixelFormat (format_name f) new_Texture in
      Some (mkTexture (_pixelFormat copy) (magFilter this) (minFilter this) (linear this)
                      (downscaling this) (image this))
  end.

(** The [clone] methods of the record classes, of [TransformBank] and of
    [Exports]; their code is in other files and they are left abstract. *)
Class RecordClone : Type := {
  Resource_clone : Resource -> Resource;
  TransformBank_clone : TransformBank -> TransformBank;
  Exports_clone : Exports -> Exports
}.

(** The loop at the head of [SupercellSWF.clone()]: the clone of every
    resource is stored in a new object, in the order of [Object.keys]. *)
Definition clonedResources `{RecordClone} (o : list (Z * Resource))
  : list (Z * Resource) :=
  fold_left (fun cloned e => Object_set cloned e.1 (Resource_clone e.2))
            (Object_entries o) [].

(** [SupercellSWF.clone()]: [new SupercellSWF(options)] with the nine options
    of the literal; the other fields keep their initial values. *)
Definition SupercellSWF_clone `{ImageConvert} `{Locale} `{RecordClone}
    (this : SupercellSWF) : option SupercellSWF :=
  let clonedResources := clonedResources (resources this) in
  textures' ← mapM Texture_clone (textures this);
  Some (mkSWF (compression this) (hasExternalTexture this) (useUncommonTexture this)
              (useLowresTexture new_SupercellSWF) (Exports_clone (exports this)) textures'
              (highresPostfix this) (lowresPostfix this)
              (map TransformBank_clone (banks this)) clonedResources
              (buffer new_SupercellSWF)).

(** Stand-ins: conversions that only relabel the image, the locale that
    leaves every string, clones that copy. *)
Definition relabel_convert : ImageConvert := {|
  Image_add255 _ img := img;
  Image_rgba8 img := mkImage (width img) (height img) RGBA (data img);
  Image_combineChannels keepAlpha img :=
    mkImage (width img) (height img) (if keepAlpha then GREYA else GREY) (data img)
|}.

Definition plain_locale : Locale := fun s => s.

Definition copy_clone : RecordClone := {|
  Resource_clone r := r;
  TransformBank_clone b := b;
  Exports_clone e := e
|}.

(** * The JSON forms *)

(** A number: [NaN], an infinity, an integer, or a number strictly between
    the integers [floor] and [floor + 1].  The comparisons that [fromJSON]
    makes are with integers and depend on no more. *)
Inductive JSNumber : Type :=
| JS_NaN
| JS_Infinity (negative : bool)
| JS_integer (z : Z)
| JS_fraction (floor : Z).

(** A value of a JSON object, as far as [fromJSON] looks at it: [typeof],
    truthiness and strict comparison with [0].  Objects and arrays are one
    case. *)
Inductive JSValue : Type :=
| JS_undefined
| JS_null
| JS_boolean (b : bool)
| JS_number (n : JSNumber)
| JS_string (s : string)
| JS_object.

(** [if (v)] *)
Definition truthy (v : JSValue) : bool :=
  match v with
  | JS_undefined | JS_null => false
  | JS_boolean b => b
  | JS_number JS_NaN => false
  | JS_number (JS_integer z) => negb (z =? 0)
  | JS_number _ => true
  | JS_string s => negb (String.eqb s "")
  | JS_object => true
  end.

(** [typeof v === 'number'] *)
Definition is_number (v : JSValue) : bool :=
  match v with JS_number _ => true | _ => false end.

(** [v !== 0] *)
Definition not_zero (v : JSValue) : bool :=
  match v with JS_number (JS_integer z) => negb (z =? 0) | _ => true end.

(** [n >= k] and [n <= k] for an integer [k]. *)
Definition js_ge (n : JSNumber) (k : Z) : bool :=
  match n with
  | JS_NaN => false
  | JS_Infinity negative => negb negative
  | JS_integer z => k <=? z
  | JS_fraction floor => k <=? floor
  end.

Definition js_le (n : JSNumber) (k : Z) : bool :=
  match n with
  | JS_NaN => false
  | JS_Infinity negative => negative
  | JS_integer z => z <=? k
  | JS_fraction floor => floor <? k
  end.

(** [table[n]]: an element for an integer inside the table, [undefined]
    (here [None]) for every other number. *)
Definition js_at {A : Type} (l : list A) (n : JSNumber) : option A :=
  match n with
  | JS_integer z => js_index l z
  | _ => None
  end.

(** [data.key]: the value of the property, [undefined] when the object has
    none of that name. *)
Definition property (data : gmap string JSValue) (key : string) : JSValue :=
  default JS_undefined (data !! key).

(** [s.toUpperCase()] *)
Class UpperCase : Type := toUpperCase : string -> string.

(** The first block of [Texture.fromJSON], which assigns the pixel format
    through its setter; [None] is the [TypeError] that the setter raises on
    [undefined]. *)
Definition Texture_fromJSON_pixelFormat `{ImageConvert} `{Locale} `{UpperCase}
    (data : gmap string JSValue) (this : Texture) : option Texture :=
  let pixelFormat := property data "pixelFormat" in
  if truthy pixelFormat then
    match pixelFormat with
    | JS_number n =>
        if js_ge n 0 && js_le n (Z.of_nat (length PIXEL_FORMATS)) then
          match js_at PIXEL_FORMATS n with
          | Some f => Some (set_pixelFormat (format_name f) this)
          | None => None
          end
        else Some this
    | JS_string s =>
        if bool_decide (toUpperCase s ∈ map format_name PIXEL_FORMATS)
        then Some (set_pixelFormat s this)
        else Some this
    | _ => Some this
    end
  else Some this.

(** The two blocks of [Texture.fromJSON] that assign [this.linear] and
    [this.downscaling] (the second arm tests [data.maxRects]), as one
    function of the field read and of [data.maxRects]. *)
Definition fromJSON_layout_flag (field maxRects : JSValue) : bool :=
  let this_field := true in
  if truthy field then
    match field with
    | JS_boolean b => b
    | _ => if is_number maxRects then not_zero field else this_field
    end
  else this_field.

Definition Texture_fromJSON_layout (data : gmap string JSValue) : bool * bool :=
  (fromJSON_layout_flag (property data "linear") (property data "maxRects"),
   fromJSON_layout_flag (property data "downscaling") (property data "maxRects")).

(** A block of [SupercellSWF.fromJSON] that assigns a flag: the default
    [false], replaced by a boolean or by the test of a number. *)
Definition fromJSON_flag (field : JSValue) : bool :=
  let this_field := false in
  if truthy field then
    match field with
    | JS_boolean b => b
    | JS_number _ => not_zero field
    | _ => this_field
    end
  else this_field.

(** A block of [SupercellSWF.fromJSON] that assigns a postfix: only a
    non-empty string replaces the value of the instance. *)
Definition fromJSON_postfix (field : JSValue) (current : string) : string :=
  match field with
  | JS_string s => if truthy field then s else current
  | _ => current
  end.

(** The blocks of [SupercellSWF.fromJSON] that assign the three flags and
    the two postfixes, in the order of the source; the other fields of the
    instance are assigned by the blocks before and after them. *)
Definition SupercellSWF_fromJSON_flags (data : gmap string JSValue)
    (this : SupercellSWF) : SupercellSWF :=
  let this := set_hasExternalTexture (fromJSON_flag (property data "hasExternalTexture")) this in
  let this := set_useLowresTexture (fromJSON_flag (property data "hasLowresTexture")) this in
  let this := set_useUncommonTexture (fromJSON_flag (property data "useUncommonTexture")) this in
  set_postfixes
    (fromJSON_postfix (property data "highresPostfix") (highresPostfix this))
    (fromJSON_postfix (property data "lowresPostfix") (lowresPostfix this))
    this.

(** Modelled from the spec: the names of the members of [COMPRESSION], whose
    enumeration is in [lib/buffer.ts], missing from the sources. *)
Definition COMPRESSION_name (c : COMPRESSION) : string :=
  match c with NONE => "NONE" | LZMA => "LZMA" | LZHAM => "LZHAM" | ZSTD => "ZSTD" end.

(** The object that [SupercellSWF.toJSON] returns; the nested objects are
    filled by the loop over the resources, which adds no property to the
    object itself. *)
Definition SupercellSWF_toJSON (this : SupercellSWF) (includeBanks : bool)
  : gmap string JSValue :=
  let json : gmap string JSValue :=
    list_to_map
      [("compression", JS_string (COMPRESSION_name (compression this)));
       ("hasExternalTexture", JS_boolean (hasExternalTexture this));
       ("useLowresTexture", JS_boolean (useLowresTexture this));
       ("useUncommonTexture", JS_boolean (useUncommonTexture this));
       ("highresPostfix", JS_string (highresPostfix this));
       ("lowresPostfix", JS_string (lowresPostfix this));
       ("textures", JS_object);
       ("modifiers", JS_object);
       ("shapes", JS_object);
       ("textFields", JS_object);
       ("movieClips", JS_object)]%string in
  if includeBanks then <["banks"%string := JS_object]> json else json.

(** An object with a number under the key [pixelFormat]. *)
Definition pixelFormat_number (n : JSNumber) : gmap string JSValue :=
  {[ "pixelFormat"%string := JS_number n ]}.

(** The upper case of ASCII letters. *)
Definition ascii_upper : UpperCase :=
  fix upper (s : string) : string :=
    match s with
    | EmptyString => EmptyString
    | String a s' =>
        let n := nat_of_ascii a in
        String (if (97 <=? n)%nat && (n <=? 122)%nat then ascii_of_nat (n - 32) else a)
               (upper s')
    end.

(** * Predicates and sample values of the further properties *)

(** The tag ids that have a [case] of their own in the [switch] of
    [parseTags], in the order of the cases. *)
Definition CASE_TAGS : list Z :=
  [0] ++ TEXTURE_TAGS ++ [23; 26; 30; 32] ++ SHAPE_TAGS ++ MOVIECLIP_TAGS
  ++ TEXTFIELD_TAGS ++ MATRIX_TAGS ++ [9; 37] ++ MODIFIER_TAGS ++ [42].

(** The number of tags of a class among the tag ids read. *)
Definition class_tags (class : list Z) (ids : list Z) : nat :=
  length (filter (fun tag => tag ∈ class) ids).

(** Record loaders that only read: the buffer they leave is not longer than
    the one they received. *)
Definition loaders_consume `{RecordHandlers} : Prop :=
  forall (tag : Z) (swf swf' : SupercellSWF),
    (Shape_load tag swf = Some swf'
     \/ MovieClip_load tag swf = Some swf'
     \/ TextField_load tag swf = Some swf'
     \/ MovieClipModifier_load tag swf = Some swf'
     \/ (exists b m, Matrix_load b m tag swf = Some swf')
     \/ (exists b m, Color_load b m tag swf = Some swf')) ->
    (length (buffer swf') <= length (buffer swf))%nat.

(** The exceptions a turn of the tag loop can raise. *)
Definition PARSE_ERRORS : list Error :=
  [Truncated; NegativeLength; INVALID_SHAPE_COUNT; TooManyMovieClips;
   INVALID_TEXTFIELD_COUNT; TooManyModifiers; NotAFunction; UndefinedBank;
   RecordFailure; RangeError].

(** A stream of two empty movie clip records, in an instance that declares
    one. *)
Definition two_movieclips_state : ParseState :=
  mkParse (set_buffer [x03; x00; x00; x00; x00; x0c; x00; x00; x00; x00] new_SupercellSWF)
          (mkCounts 0 1 0 0) new_Locals.

(** A modifier record in a fresh instance, with no tag 37 before it. *)
Definition modifier_first_state : ParseState :=
  mkParse (set_buffer [x26; x00; x00; x00; x00; x00; x00; x00; x00; x00] new_SupercellSWF)
          new_Counts new_Locals.

(** A string without a dot. *)
Fixpoint dot_free (s : string) : bool :=
  match s with
  | EmptyString => true
  | String a s' => negb (Ascii.eqb a "."%char) && dot_free s'
  end.

(** The header of the record of a texture: pixel type index, width and
    height. *)
Definition texture_header (t : Texture) : list byte :=
  writeUInt16 (Z.of_nat (height (image t)))
    (writeUInt16 (Z.of_nat (width (image t)))
       (writeUInt8 (PIXEL_FORMATS_indexOf (_pixelFormat t)) [])).

(** The records of a list of textures saved without pixel data. *)
Definition header_records (ts : list Texture) : list byte :=
  flat_map (fun t => saveTag 1 (texture_header t) []) ts.

(** What [Texture.load] makes of such a record: the fields of tag 1 and a
    new image. *)
Definition texture_stub (t : Texture) : Texture :=
  let pixelTypeIndex := PIXEL_FORMATS_indexOf (_pixelFormat t) in
  load_fields 1 pixelTypeIndex
    (blank_Image (width (image t)) (height (image t))
                 (default RGBA (js_index PIXEL_CHANNELS pixelTypeIndex))).

(** A document of textures only, stored in texture files of their own. *)
Definition external_roundtrips (swf : SupercellSWF) : Prop :=
  hasExternalTexture swf = true
  /\ resources swf = []
  /\ exports swf = []
  /\ banks swf = [new_TransformBank]
  /\ Z.of_nat (length (textures swf)) < 65536
  /\ Forall texture_roundtrips (textures swf)
  /\ postfixes_roundtrip swf.

(** [sample_document] with its textures stored in texture files. *)
Definition external_sample_document : SupercellSWF :=
  set_hasExternalTexture true sample_document.

(** The texture that the low-resolution file holds for a texture: the same
    fields, the image resized by one half. *)
Definition halved `{ImageResize} (t : Texture) : Texture :=
  mkTexture (_pixelFormat t) (magFilter t) (minFilter t) (linear t) (downscaling t)
            (resizeHalf (image t)).

(** A document with texture files of its own names for the high resolution
    only. *)
Definition renamed_highres_document : SupercellSWF :=
  mkSWF NONE true true false []
        [mkTexture (Some GL_RGBA8) GL_LINEAR GL_NEAREST true true
           (mkImage 2 2 RGBA [[x01; x02; x03; xff]; [x04; x05; x06; xff];
                              [x07; x08; x09; xff]; [x0a; x0b; x0c; xff]])]
        "_hd" "_lowres" [new_TransformBank] [] [].

(** Record savers that only append to the buffer of the instance. *)
Definition savers_append `{RecordHandlers} : Prop :=
  (forall id r swf, exists bytes,
      Resource_save id r swf = set_buffer (buffer swf ++ bytes) swf)
  /\ (forall m swf, exists bytes,
         Matrix_save m swf = set_buffer (buffer swf ++ bytes) swf)
  /\ (forall c swf, exists bytes,
         Color_save c swf = set_buffer (buffer swf ++ bytes) swf).

(** A texture as [Texture.save] leaves it: the pixel format is the one the
    check at the head of [save] settles on. *)
Definition saved_texture (t : Texture) : Texture :=
  mkTexture (Some (corrected_format t)) (magFilter t) (minFilter t) (linear t)
            (downscaling t) (image t).

(** The files that [save] writes for a document. *)
Definition saved_files (path : string) (swf : SupercellSWF) : list string :=
  path ::
  (if hasExternalTexture swf then
     if useUncommonTexture swf then
       [(basePath path ++ lowresPostfix swf ++ "_tex.sc")%string;
        (basePath path ++ highresPostfix swf ++ "_tex.sc")%string]
     else [(basePath path ++ "_tex.sc")%string]
   else []).

(** The tag id under which a texture read from tag [tag] is saved again. *)
Definition resaved_tag (tag : Z) : Z :=
  if tag =? 29 then 16 else if tag =? 34 then 1 else tag.

(** A shape and three movie clips, created under the ids 7, -1, 3 and 12 in
    this order. *)
Definition sample_resources : list (Z * Resource) :=
  [(7, Shape []); (-1, MovieClip []); (3, MovieClip []); (12, MovieClip [])].

(** A tag record and the texture that [Texture.load] makes of it: the tag id
    is a texture tag, and the load reads exactly the payload of the record,
    whatever follows it. *)
Definition texture_record_loads (hasData : bool) (rec : Z * list byte) (t : Texture)
  : Prop :=
  rec.1 ∈ TEXTURE_TAGS
  /\ forall rest, load_texture rec.1 hasData (rec.2 ++ rest) = Ok (t, rest).

(** The tag stream made of a list of records, each a tag id and a payload. *)
Definition tag_records (recs : list (Z * list byte)) : list byte :=
  flat_map (fun r => saveTag r.1 r.2 []) recs.

(** A texture of two grey pixels, and three textures with their records,
    with and without pixel data. *)
Definition grey_texture : Texture :=
  mkTexture (Some GL_LUMINANCE8_ALPHA8) GL_LINEAR GL_LINEAR_MIPMAP_NEAREST true true
            (mkImage 2 1 GREYA [[x10; xff]; [x00; x00]]).

Definition three_textures : list Texture :=
  [one_pixel_texture; grey_texture; one_pixel_texture].

Definition three_texture_records : list (Z * list byte) :=
  map (fun t => (save_tag t, texture_payload t)) three_textures.

Definition three_header_records : list (Z * list byte) :=
  map (fun t => (1, texture_header t)) three_textures.



Definition nearest_block_texture : Texture :=
  mkTexture (Some GL_RGBA8) GL_NEAREST GL_NEAREST false true sample_image.

Definition empty_block_texture : Texture :=
  mkTexture (Some GL_RGBA8) GL_LINEAR GL_NEAREST false true (mkImage 0 0 RGBA []).

Definition misformatted_block_texture : Texture :=
  mkTexture (Some GL_LUMINANCE8) GL_LINEAR GL_NEAREST false true
            (mkImage 1 1 RGBA [[x01; x02; x03; xff]]).

Definition transparent_block_texture : Texture :=
  mkTexture (Some GL_RGBA8) GL_LINEAR GL_NEAREST false true
            (mkImage 1 1 RGBA [[x01; x02; x03; x00]]).

(** * Properties *)

(** ** Bytes and scalars *)

Lemma Z_of_byte_range (b : byte) : 0 <= Z_of_byte b < 256.
Proof.
  unfold Z_of_byte. pose proof (Byte.to_N_bounded b). lia.
Qed.

Lemma byte_of_Z_of_byte (b : byte) : byte_of_Z (Z_of_byte b) = b.
Proof.
  unfold byte_of_Z. pose proof (Z_of_byte_range b) as Hr.
  rewrite Z.mod_small by exact Hr.
  unfold Z_of_byte. rewrite N2Z.id, Byte.of_to_N. reflexivity.
Qed.

Lemma Z_of_byte_of_Z (z : Z) : Z_of_byte (byte_of_Z z) = z mod 256.
Proof.
  unfold byte_of_Z, Z_of_byte.
  pose proof (Z.mod_pos_bound z 256 ltac:(lia)) as Hm.
  destruct (Byte.of_N (Z.to_N (z mod 256))) as [b|] eqn:E.
  - apply Byte.to_of_N in E. rewrite E. lia.
  - apply Byte.of_N_None_iff in E. lia.
Qed.

Lemma Z_of_byte_of_Z_small (z : Z) : 0 <= z < 256 -> Z_of_byte (byte_of_Z z) = z.
Proof. intros Hz. rewrite Z_of_byte_of_Z. apply Z.mod_small, Hz. Qed.

Lemma Z_of_byte_x00 (b : byte) : Z_of_byte b = 0 <-> b = x00.
Proof.
  split.
  - intros Hb. rewrite <- (byte_of_Z_of_byte b), Hb. reflexivity.
  - intros ->. reflexivity.
Qed.

Lemma length_le_bytes (n : nat) (v : Z) : length (le_bytes n v) = n.
Proof. unfold le_bytes. rewrite length_map, length_seq. reflexivity. Qed.

Lemma le_value_bytes_1 (v : Z) : le_value (le_bytes 1 v) = v mod 256.
Proof.
  unfold le_bytes. simpl. rewrite Z_of_byte_of_Z, Z.div_1_r. lia.
Qed.

Lemma le_value_bytes_2 (v : Z) : le_value (le_bytes 2 v) = v mod 65536.
Proof.
  unfold le_bytes. simpl. rewrite !Z_of_byte_of_Z, Z.div_1_r.
  change (256 ^ Z.of_nat 1) with 256.
  rewrite Z.add_0_r.
  change 65536 with (256 * 256).
  rewrite (Z.rem_mul_r v 256 256) by lia. lia.
Qed.

Lemma le_value_bytes_4 (v : Z) : le_value (le_bytes 4 v) = v mod 2 ^ 32.
Proof.
  unfold le_bytes. simpl. rewrite !Z_of_byte_of_Z, Z.div_1_r, Z.add_0_r.
  change (256 ^ Z.of_nat 1) with 256. change (256 ^ Z.of_nat 2) with (256 * 256).
  change (256 ^ Z.of_nat 3) with (256 * (256 * 256)).
  rewrite <- !Z.div_div by lia.
  change (2 ^ 32) with (256 * (256 * (256 * 256))).
  rewrite (Z.rem_mul_r v 256 (256 * (256 * 256))) by lia.
  rewrite (Z.rem_mul_r (v / 256) 256 (256 * 256)) by lia.
  rewrite (Z.rem_mul_r (v / 256 / 256) 256 256) by lia.
  lia.
Qed.

Lemma readBytes_app (bs rest : list byte) :
  readBytes (length bs) (bs ++ rest) = Ok (bs, rest).
Proof.
  unfold readBytes.
  destruct (Nat.ltb_spec (length (bs ++ rest)) (length bs)) as [Hlt|_].
  - rewrite length_app in Hlt. lia.
  - rewrite take_app_length, drop_app_length. reflexivity.
Qed.

Lemma readBytes_app_n (n : nat) (bs rest : list byte) :
  length bs = n -> readBytes n (bs ++ rest) = Ok (bs, rest).
Proof. intros <-. apply readBytes_app. Qed.

Lemma readBytes_length (n : nat) (buf bs rest : list byte) :
  readBytes n buf = Ok (bs, rest) -> buf = bs ++ rest /\ length bs = n.
Proof.
  unfold readBytes.
  destruct (Nat.ltb_spec (length buf) n) as [|Hle]; [discriminate|].
  intros [= <- <-]. split.
  - symmetry. apply take_drop.
  - rewrite length_take. lia.
Qed.

Lemma readUInt8_write (v : Z) (rest : ScBuffer) :
  readUInt8 (writeUInt8 v [] ++ rest) = Ok (v mod 256, rest).
Proof.
  unfold readUInt8, writeUInt8. rewrite app_nil_l.
  rewrite (readBytes_app_n 1) by apply length_le_bytes.
  cbn [mbind result_bind]. rewrite le_value_bytes_1. reflexivity.
Qed.

Lemma readUInt16_write (v : Z) (rest : ScBuffer) :
  readUInt16 (writeUInt16 v [] ++ rest) = Ok (v mod 65536, rest).
Proof.
  unfold readUInt16, writeUInt16. rewrite app_nil_l.
  rewrite (readBytes_app_n 2) by apply length_le_bytes.
  cbn [mbind result_bind]. rewrite le_value_bytes_2. reflexivity.
Qed.

Lemma readInt32_write (v : Z) (rest : ScBuffer) :
  0 <= v < 2 ^ 31 -> readInt32 (writeInt32 v [] ++ rest) = Ok (v, rest).
Proof.
  intros Hv. unfold readInt32, writeInt32. rewrite app_nil_l.
  rewrite (readBytes_app_n 4) by apply length_le_bytes.
  cbn [mbind result_bind]. rewrite le_value_bytes_4.
  rewrite Z.mod_small by lia.
  destruct (Z.ltb_spec v (2 ^ 31)); [reflexivity|lia].
Qed.

(** Writes append: what a write adds does not depend on the buffer. *)
Lemma writeUInt8_app (v : Z) (buf : ScBuffer) : writeUInt8 v buf = buf ++ writeUInt8 v [].
Proof. reflexivity. Qed.

Lemma writeUInt16_app (v : Z) (buf : ScBuffer) : writeUInt16 v buf = buf ++ writeUInt16 v [].
Proof. reflexivity. Qed.

Lemma writeInt32_app (v : Z) (buf : ScBuffer) : writeInt32 v buf = buf ++ writeInt32 v [].
Proof. reflexivity. Qed.

Lemma writeASCII_app (s : string) (buf : ScBuffer) : writeASCII s buf = buf ++ writeASCII s [].
Proof. destruct s; reflexivity. Qed.

Lemma saveTag_app (tag : Z) (payload buf : ScBuffer) :
  saveTag tag payload buf = buf ++ saveTag tag payload [].
Proof.
  unfold saveTag, writeInt32, writeUInt8. simpl. rewrite <- !app_assoc. reflexivity.
Qed.

Lemma writePixel_app (f : PixelFormat) (buf : ScBuffer) (p : Pixel) :
  writePixel f buf p = buf ++ writePixel f [] p.
Proof.
  destruct f; unfold writePixel, writeUInt8, writeUInt16; simpl;
    rewrite <- ?app_assoc; reflexivity.
Qed.

(** ** The tag id of a texture *)

Lemma saveTag_first_byte (tag : Z) (payload buf : ScBuffer) :
  saveTag tag payload buf !! length buf = Some (byte_of_Z tag).
Proof.
  rewrite saveTag_app, lookup_app_r by lia.
  rewrite Nat.sub_diag. unfold saveTag, writeInt32, writeUInt8, le_bytes. simpl.
  rewrite Z.div_1_r. reflexivity.
Qed.

Lemma Texture_save_buffer `{ImageResize} (this : Texture) (buffer : ScBuffer)
    (hasData isLowres : bool) :
  exists payload,
    (Texture_save this buffer hasData isLowres).2
    = saveTag (if hasData then save_tag this else 1) payload buffer.
Proof. unfold Texture_save. simpl. eexists. reflexivity. Qed.

(** The writer agrees with the table of section 4.4 on every texture that is
    not a block-layout texture with the filters of rows 16, 19 and 29. *)
Lemma save_tag_table (t : Texture) :
  (magFilter t = GL_LINEAR -> minFilter t = GL_LINEAR_MIPMAP_NEAREST -> linear t = true) ->
  save_tag t = table_tag t.
Proof.
  destruct t as [pf mag min lin down img]. simpl.
  intros Hrow.
  destruct mag, min, lin, down; try reflexivity;
    discriminate (Hrow eq_refl eq_refl).
Qed.

(** C2, at the input (LINEAR, LINEAR_MIPMAP_NEAREST, block layout,
    downscaling): the table of section 4.4 asks for tag 29, the writer
    chooses 16, and 16 is the tag byte that [Texture.save] appends. *)
Theorem Texture_save_row_29_written_as_16 `{ImageResize}
    (pf : option PixelFormat) (img : Image) (buffer : ScBuffer) (isLowres : bool) :
  let t := mkTexture pf GL_LINEAR GL_LINEAR_MIPMAP_NEAREST false true img in
  table_tag t = 29
  /\ save_tag t = 16
  /\ (Texture_save t buffer true isLowres).2 !! length buffer = Some x10.
Proof.
  intros t. split; [reflexivity|]. split; [reflexivity|].
  destruct (Texture_save_buffer t buffer true isLowres) as [payload ->].
  rewrite saveTag_first_byte. reflexivity.
Qed.

(** The fields set by [Texture.load] follow the table of section 4.4 for the
    seven tag ids below 34. *)
Lemma load_fields_table (tag idx : Z) (img : Image) :
  tag ∈ [1; 16; 19; 24; 27; 28; 29] ->
  let t := load_fields tag idx img in
  table_filters tag = Some (magFilter t, minFilter t) /\ table_tag t = tag.
Proof.
  intros Htag. repeat (apply elem_of_cons in Htag as [->|Htag]);
    [split; reflexivity ..|].
  apply elem_of_nil in Htag. destruct Htag.
Qed.

(** C3, at tag 34: the table of section 4.4 gives NEAREST / NEAREST, while
    [Texture.load] sets LINEAR / LINEAR, whatever the header values, and so
    does every successful load of a tag 34 record. *)
Theorem Texture_load_tag_34_filters :
  table_filters 34 = Some (GL_NEAREST, GL_NEAREST)
  /\ (forall (idx : Z) (img : Image),
        magFilter (load_fields 34 idx img) = GL_LINEAR
        /\ minFilter (load_fields 34 idx img) = GL_LINEAR)
  /\ (forall (hasData : bool) (buf : ScBuffer),
        match load_texture 34 hasData buf with
        | Ok (t, _) => magFilter t = GL_LINEAR /\ minFilter t = GL_LINEAR
        | Err _ => True
        end)
  /\ load_texture 34 true [x00; x01; x00; x01; x00; x0a; x0b; x0c; x0d]
     = Ok (mkTexture (Some GL_RGBA8) GL_LINEAR GL_LINEAR true false
             (mkImage 1 1 RGBA [[x0a; x0b; x0c; x0d]]), []).
Proof.
  split; [reflexivity|]. split; [intros; split; reflexivity|].
  split; [|reflexivity].
  intros hasData buf. unfold load_texture.
  destruct (readUInt8 buf) as [[idx b1]|]; [|exact I].
  cbn [mbind result_bind].
  destruct (readUInt16 b1) as [[w b2]|]; [|exact I].
  cbn [mbind result_bind].
  destruct (readUInt16 b2) as [[h b3]|]; [|exact I].
  cbn [mbind result_bind].
  cbn zeta. destruct (new_Image (Z.to_nat w) (Z.to_nat h)
                        (default RGBA (js_index PIXEL_CHANNELS idx))) as [img|]; [|exact I].
  cbn [mbind result_bind].
  destruct hasData; [|split; reflexivity].
  match goal with |- context [readPixels ?rd ?cs ?img ?b] =>
    destruct (readPixels rd cs img b) as [[img' b4]|] end;
    [|exact I].
  cbn [mbind result_bind]. split; reflexivity.
Qed.

(** C9: without pixel data the tag id is 1 for every texture: the record
    appended is tag 1 with the five header bytes as payload, whatever the
    filters and the layout. *)
Theorem Texture_save_without_data_tag_1 `{ImageResize}
    (this : Texture) (buffer : ScBuffer) (isLowres : bool) :
  let img := if isLowres then resizeHalf (image this) else image this in
  let out := (Texture_save this buffer false isLowres).2 in
  out = saveTag 1 (writeUInt16 (Z.of_nat (height img))
                     (writeUInt16 (Z.of_nat (width img))
                        (writeUInt8 (PIXEL_FORMATS_indexOf (_pixelFormat this)) [])))
                buffer
  /\ out !! length buffer = Some x01.
Proof.
  intros img out. assert (Hout : out = saveTag 1 (writeUInt16 (Z.of_nat (height img))
                     (writeUInt16 (Z.of_nat (width img))
                        (writeUInt8 (PIXEL_FORMATS_indexOf (_pixelFormat this)) [])))
                buffer) by reflexivity.
  split; [exact Hout|].
  rewrite Hout, saveTag_first_byte. reflexivity.
Qed.

(** ** The zero-alpha rule *)

Lemma writePixels_flat_map (f : PixelFormat) (img : Image) (buf : ScBuffer) :
  writePixels f img buf
  = buf ++ flat_map (fun c => writePixel f [] (zeroAlpha img (getPixelXY img c.1 c.2)))
             (linear_walk (width img) (height img)).
Proof.
  unfold writePixels. generalize (linear_walk (width img) (height img)) as cs.
  intros cs. revert buf. induction cs as [|[x y] cs IH]; intros buf; simpl.
  - rewrite app_nil_r. reflexivity.
  - rewrite IH, writePixel_app, <- app_assoc. reflexivity.
Qed.





(** ** The block walk *)

Lemma for_break_seq {A : Type} (limit base : nat) (body : nat -> list A) (n s : nat) :
  for_break (fun i => (limit <=? base + i)%nat) body (seq s n)
  = flat_map body (seq s (Nat.min n (limit - base - s))).
Proof.
  revert s. induction n as [|n IH]; intros s; [reflexivity|].
  cbn [seq for_break].
  destruct (Nat.leb_spec limit (base + s)) as [Hle|Hlt].
  - replace (limit - base - s)%nat with 0%nat by lia. reflexivity.
  - rewrite IH.
    replace (Nat.min (S n) (limit - base - s)) with (S (Nat.min n (limit - base - S s))) by lia.
    reflexivity.
Qed.

(** The block walk without the [break]s: the loops of a block run over the
    part of the block that lies inside the image. *)
Lemma block_walk_unfold (w h : nat) :
  block_walk w h
  = flat_map (fun yb =>
      flat_map (fun xb =>
        flat_map (fun y =>
          flat_map (fun x => [((xb * blockSize + x)%nat, (yb * blockSize + y)%nat)])
            (seq 0 (Nat.min blockSize (w - xb * blockSize))))
          (seq 0 (Nat.min blockSize (h - yb * blockSize))))
        (seq 0 (w / blockSize + 1)))
      (seq 0 (h / blockSize + 1)).
Proof.
  unfold block_walk.
  apply flat_map_ext; intros yb. apply flat_map_ext; intros xb.
  rewrite for_break_seq, Nat.sub_0_r.
  apply flat_map_ext; intros y.
  rewrite for_break_seq, Nat.sub_0_r. reflexivity.
Qed.

Lemma blockSize_pos : (0 < blockSize)%nat.
Proof. unfold blockSize. lia. Qed.

(** The walk reaches exactly the coordinates of the image: a block on the
    right or bottom edge is cut to the image, not padded. *)
Lemma block_walk_In (w h x y : nat) :
  In (x, y) (block_walk w h) <-> (x < w)%nat /\ (y < h)%nat.
Proof.
  rewrite block_walk_unfold. pose proof blockSize_pos as HB. split.
  - intros Hin.
    apply in_flat_map in Hin as (yb & _ & Hin).
    apply in_flat_map in Hin as (xb & _ & Hin).
    apply in_flat_map in Hin as (y' & Hy & Hin).
    apply in_flat_map in Hin as (x' & Hx & Hin).
    apply in_seq in Hy, Hx. destruct Hin as [[= <- <-]|[]]. lia.
  - intros [Hx Hy].
    pose proof (Nat.div_mod_eq x blockSize) as Ex.
    pose proof (Nat.div_mod_eq y blockSize) as Ey.
    pose proof (Nat.mod_upper_bound x blockSize ltac:(lia)) as Bx.
    pose proof (Nat.mod_upper_bound y blockSize ltac:(lia)) as By.
    pose proof (Nat.Div0.div_le_mono x w blockSize ltac:(lia)) as Dx.
    pose proof (Nat.Div0.div_le_mono y h blockSize ltac:(lia)) as Dy.
    apply in_flat_map. exists (y / blockSize)%nat. split; [apply in_seq; lia|].
    apply in_flat_map. exists (x / blockSize)%nat. split; [apply in_seq; lia|].
    apply in_flat_map. exists (y mod blockSize)%nat. split; [apply in_seq; lia|].
    apply in_flat_map. exists (x mod blockSize)%nat. split; [apply in_seq; lia|].
    left. f_equal; lia.
Qed.

Lemma list_sum_const (c n s : nat) : list_sum (map (fun _ => c) (seq s n)) = (n * c)%nat.
Proof.
  revert s. induction n as [|n IH]; intros s; simpl; [reflexivity|].
  rewrite IH. reflexivity.
Qed.

Lemma length_flat_map_const {A B : Type} (f : A -> list B) (c : nat) (l : list A) :
  (forall a, length (f a) = c) -> length (flat_map f l) = (length l * c)%nat.
Proof.
  intros Hf. induction l as [|a l IH]; simpl; [reflexivity|].
  rewrite length_app, Hf, IH. reflexivity.
Qed.

(** The widths of the blocks of a row add up to the width of the image. *)
Lemma block_widths_sum (n : nat) :
  list_sum (map (fun b => Nat.min blockSize (n - b * blockSize)) (seq 0 (n / blockSize + 1))) = n.
Proof.
  unfold blockSize.
  pose proof (Nat.Div0.mul_div_le n 32) as Hd.
  pose proof (Nat.div_mod_eq n 32) as He.
  pose proof (Nat.mod_upper_bound n 32 ltac:(lia)) as Hm.
  assert (Hfull : forall q, (q <= n / 32)%nat ->
            list_sum (map (fun b => Nat.min 32 (n - b * 32)) (seq 0 q)) = (q * 32)%nat).
  { induction q as [|q IH]; intros Hq; [reflexivity|].
    rewrite seq_S, map_app, list_sum_app, IH by lia. unfold list_sum; cbn [map fold_right Nat.add]. lia. }
  rewrite Nat.add_1_r, seq_S, map_app, list_sum_app, Hfull by lia.
  unfold list_sum; cbn [map fold_right Nat.add]. lia.
Qed.

Lemma length_flat_map_sum {A B : Type} (f : A -> list B) (l : list A) :
  length (flat_map f l) = list_sum (map (fun a => length (f a)) l).
Proof.
  induction l as [|a l IH]; simpl; [reflexivity|].
  rewrite length_app, IH. reflexivity.
Qed.

Lemma list_sum_scale (g : nat -> nat) (c : nat) (l : list nat) :
  list_sum (map (fun b => (g b * c)%nat) l) = (list_sum (map g l) * c)%nat.
Proof.
  induction l as [|a l IH]; simpl; [reflexivity|]. rewrite IH. lia.
Qed.

(** The walk has one coordinate per pixel. *)
Lemma length_block_walk (w h : nat) : length (block_walk w h) = (w * h)%nat.
Proof.
  rewrite block_walk_unfold, length_flat_map_sum.
  transitivity (list_sum (map (fun yb => (Nat.min blockSize (h - yb * blockSize) * w)%nat)
                            (seq 0 (h / blockSize + 1)))).
  - f_equal. apply map_ext. intros yb.
    rewrite length_flat_map_sum.
    transitivity (list_sum (map (fun xb => (Nat.min blockSize (w - xb * blockSize)
                                            * Nat.min blockSize (h - yb * blockSize))%nat)
                              (seq 0 (w / blockSize + 1)))).
    + f_equal. apply map_ext. intros xb.
      rewrite (length_flat_map_const _ (Nat.min blockSize (w - xb * blockSize))).
      * rewrite length_seq. lia.
      * intros y. rewrite (length_flat_map_const _ 1) by reflexivity.
        rewrite length_seq. lia.
    + rewrite list_sum_scale, block_widths_sum. lia.
  - rewrite list_sum_scale, block_widths_sum. lia.
Qed.

(** ** Pixels and coordinates *)

Lemma map_offset_seq (s a n : nat) :
  map (fun x => (s + x)%nat) (seq a n) = seq (s + a) n.
Proof.
  revert a. induction n as [|n IH]; intros a; [reflexivity|].
  cbn [seq map]. rewrite IH. f_equal. f_equal. lia.
Qed.

(** The row-major walk visits the pixel array from its first entry to its
    last. *)
Lemma linear_walk_indices (w h : nat) :
  map (pixel_index w) (linear_walk w h) = seq 0 (h * w).
Proof.
  unfold linear_walk. induction h as [|h IH]; [reflexivity|].
  rewrite seq_S, flat_map_app, map_app, IH. cbn [flat_map].
  rewrite app_nil_r, map_map. unfold pixel_index at 1. cbn [fst snd].
  replace (S h * w)%nat with (h * w + w)%nat by lia.
  rewrite seq_app. f_equal.
  rewrite Nat.add_0_l. rewrite map_offset_seq. f_equal. lia.
Qed.

Lemma getPixelXY_index (img : Image) (c : nat * nat) :
  getPixelXY img c.1 c.2 = default [] (data img !! pixel_index (width img) c).
Proof. reflexivity. Qed.

Lemma map_lookup_seq {A : Type} (d : A) (l : list A) :
  map (fun i => default d (l !! i)) (seq 0 (length l)) = l.
Proof.
  induction l as [|a l IH] using rev_ind; [reflexivity|].
  rewrite length_app. cbn [length]. rewrite Nat.add_1_r, seq_S, map_app.
  cbn [map]. rewrite Nat.add_0_l.
  rewrite lookup_app_r, Nat.sub_diag by lia. cbn.
  f_equal. rewrite <- IH at 2. apply map_ext_in. intros i Hi.
  apply in_seq in Hi. rewrite lookup_app_l by lia. reflexivity.
Qed.

(** Reading an image along the row-major walk gives its pixel array. *)
Lemma linear_walk_pixels (img : Image) :
  Image_wf img ->
  map (fun c => getPixelXY img c.1 c.2) (linear_walk (width img) (height img)) = data img.
Proof.
  intros Hwf. unfold Image_wf in Hwf.
  transitivity (map (fun i => default [] (data img !! i))
                    (map (pixel_index (width img)) (linear_walk (width img) (height img)))).
  - rewrite map_map. reflexivity.
  - rewrite linear_walk_indices.
    replace (height img * width img)%nat with (length (data img)) by lia.
    apply map_lookup_seq.
Qed.

Lemma setPixelXY_data (img : Image) (x y : nat) (p : Pixel) :
  data (setPixelXY img x y p) = <[pixel_index (width img) (x, y) := p]> (data img).
Proof. reflexivity. Qed.

(** The block branch of [save] fills the pixel array, from its first entry
    on, with the pixels met along the block walk. *)
Lemma arrange_fold (orig : Image) (w : nat) (cs : list (nat * nat)) (im : Image) (k : nat) :
  width im = w ->
  (cs = [] \/ 0 < w)%nat ->
  (k + length cs <= length (data im))%nat ->
  let r := fold_left
             (fun '(image, pixelIndex) '(xPixel, yPixel) =>
                (setPixelXY image (pixelIndex mod width image)%nat
                            (pixelIndex / width image)%nat
                            (getPixelXY orig xPixel yPixel),
                 S pixelIndex))
             cs (im, k) in
  data r.1 = take k (data im) ++ map (fun c => getPixelXY orig c.1 c.2) cs
             ++ drop (k + length cs) (data im)
  /\ width r.1 = w /\ height r.1 = height im /\ kind r.1 = kind im.
Proof.
  revert im k. induction cs as [|[x y] cs IH]; intros im k Hw Hpos Hlen; cbn zeta.
  - cbn. rewrite Nat.add_0_r, take_drop. auto.
  - destruct Hpos as [|Hpos]; [discriminate|].
    cbn [fold_left]. cbn [length] in Hlen.
    specialize (IH (setPixelXY im (k mod width im) (k / width im) (getPixelXY orig x y)) (S k)).
    cbn zeta in IH.
    destruct IH as (Hd & Hw' & Hh & Hk).
    + exact Hw.
    + right. exact Hpos.
    + rewrite setPixelXY_data, length_insert. lia.
    + rewrite Hd, Hw', Hh, Hk. split; [|auto].
      rewrite setPixelXY_data. unfold pixel_index. cbn [fst snd].
      rewrite Hw.
      replace (k / w * w + k mod w)%nat with k
        by (pose proof (Nat.div_mod_eq k w); lia).
      cbn [map length fst snd].
      rewrite (take_S_r _ _ (getPixelXY orig x y))
        by (apply list_lookup_insert_eq; lia).
      rewrite take_insert_ge by lia.
      rewrite drop_insert_lt by lia.
      rewrite <- app_assoc. cbn [app].
      replace (S k + length cs)%nat with (k + S (length cs))%nat by lia.
      reflexivity.
Qed.

Lemma blockArrange_data (img : Image) :
  Image_wf img ->
  data (blockArrange img)
  = map (fun c => getPixelXY img c.1 c.2) (block_walk (width img) (height img))
  /\ width (blockArrange img) = width img
  /\ height (blockArrange img) = height img
  /\ kind (blockArrange img) = kind img.
Proof.
  intros Hwf. unfold Image_wf in Hwf. unfold blockArrange.
  pose proof (arrange_fold img (width img) (block_walk (width img) (height img)) img 0 eq_refl)
    as Hfold.
  cbn zeta in Hfold. rewrite length_block_walk in Hfold.
  destruct Hfold as (Hd & Hrest).
  - destruct (width img) as [|w] eqn:Ew; [left|right; lia].
    apply length_zero_iff_nil. rewrite length_block_walk. reflexivity.
  - lia.
  - split; [|exact Hrest].
    rewrite Hd. cbn [take app]. rewrite Nat.add_0_l, drop_ge by lia.
    apply app_nil_r.
Qed.

(** ** Reading back what was written *)

Lemma readBytes_more (n : nat) (buf bs buf' rest : list byte) :
  readBytes n buf = Ok (bs, buf') -> readBytes n (buf ++ rest) = Ok (bs, buf' ++ rest).
Proof.
  unfold readBytes.
  destruct (Nat.ltb_spec (length buf) n) as [|Hle]; [discriminate|].
  intros [= <- <-].
  destruct (Nat.ltb_spec (length (buf ++ rest)) n) as [Hlt|_].
  - rewrite length_app in Hlt. lia.
  - rewrite take_app_le, drop_app_le by lia. reflexivity.
Qed.

Lemma readUInt8_more (buf buf' rest : list byte) (v : Z) :
  readUInt8 buf = Ok (v, buf') -> readUInt8 (buf ++ rest) = Ok (v, buf' ++ rest).
Proof.
  unfold readUInt8. destruct (readBytes 1 buf) as [[bs b]|] eqn:E; [|discriminate].
  rewrite (readBytes_more _ _ _ _ rest E). cbn [mbind result_bind].
  intros [= <- <-]. reflexivity.
Qed.

Lemma readUInt16_more (buf buf' rest : list byte) (v : Z) :
  readUInt16 buf = Ok (v, buf') -> readUInt16 (buf ++ rest) = Ok (v, buf' ++ rest).
Proof.
  unfold readUInt16. destruct (readBytes 2 buf) as [[bs b]|] eqn:E; [|discriminate].
  rewrite (readBytes_more _ _ _ _ rest E). cbn [mbind result_bind].
  intros [= <- <-]. reflexivity.
Qed.

Ltac read_more rd lem rest :=
  match goal with
  | |- context [rd ?b] =>
      let E := fresh "E" in
      destruct (rd b) as [[? ?]|] eqn:E; [|discriminate];
      rewrite (lem _ _ rest _ E); cbn [mbind result_bind]
  end.

Lemma readPixel_more (f : PixelFormat) (buf buf' rest : list byte) (p : Pixel) :
  readPixel f buf = Ok (p, buf') -> readPixel f (buf ++ rest) = Ok (p, buf' ++ rest).
Proof.
  destruct f; unfold readPixel;
    repeat (first [read_more readUInt8 readUInt8_more rest
                  |read_more readUInt16 readUInt16_more rest]);
    intros [= <- <-]; reflexivity.
Qed.

Lemma pixel_survives_read (f : PixelFormat) (img : Image) (p : Pixel) (rest : list byte) :
  pixel_survives f img p = true ->
  readPixel f (writePixel f [] (zeroAlpha img p) ++ rest) = Ok (p, rest).
Proof.
  unfold pixel_survives.
  destruct (readPixel f (writePixel f [] (zeroAlpha img p))) as [[q [|b bs]]|] eqn:E;
    try discriminate.
  intros Hq. apply bool_decide_eq_true in Hq. subst q.
  apply (readPixel_more _ _ _ rest) in E. exact E.
Qed.

Lemma zeroAlpha_kind (a b : Image) (p : Pixel) :
  kind a = kind b -> zeroAlpha a p = zeroAlpha b p.
Proof. unfold zeroAlpha. intros ->. reflexivity. Qed.

Lemma pixel_survives_kind (f : PixelFormat) (a b : Image) (p : Pixel) :
  kind a = kind b -> pixel_survives f a p = pixel_survives f b p.
Proof. unfold pixel_survives. intros E. rewrite (zeroAlpha_kind a b p E). reflexivity. Qed.

(** The pixel loops of [load], run on what the write loop of [save] produced
    for the same sequence of coordinates, store every pixel where it came
    from. *)
Lemma readPixels_written (f : PixelFormat) (a orig : Image) (cs : list (nat * nat))
    (im : Image) (rest : list byte) :
  Forall (fun c => pixel_survives f a (getPixelXY orig c.1 c.2) = true) cs ->
  readPixels (readPixel f) cs im
    (flat_map (fun c => writePixel f [] (zeroAlpha a (getPixelXY orig c.1 c.2))) cs ++ rest)
  = Ok (fold_left (fun im c => setPixelXY im c.1 c.2 (getPixelXY orig c.1 c.2)) cs im, rest).
Proof.
  intros Hs. revert im. induction Hs as [|[x y] cs Hc Hs IH]; intros im; [reflexivity|].
  cbn [flat_map readPixels fold_left]. rewrite <- app_assoc.
  rewrite (pixel_survives_read _ _ _ _ Hc). cbn [mbind result_bind fst snd].
  apply IH.
Qed.

(** Storing, for every coordinate of a walk, the pixel of [orig] at that
    coordinate: the entries the walk reaches hold the pixels of [orig]. *)
Lemma restore_fold (orig : Image) (cs : list (nat * nat)) (im : Image) :
  width im = width orig ->
  length (data im) = length (data orig) ->
  Forall (fun c => (pixel_index (width orig) c < length (data orig))%nat) cs ->
  let r := fold_left (fun im c => setPixelXY im c.1 c.2 (getPixelXY orig c.1 c.2)) cs im in
  width r = width im /\ height r = height im /\ kind r = kind im
  /\ length (data r) = length (data im)
  /\ forall i,
       (In i (map (pixel_index (width orig)) cs) -> data r !! i = data orig !! i)
       /\ (~ In i (map (pixel_index (width orig)) cs) -> data r !! i = data im !! i).
Proof.
  intros Hw Hl Hcs. revert im Hw Hl.
  induction Hcs as [|c cs Hc Hcs IH]; intros im Hw Hl; cbn zeta.
  - cbn. repeat split; auto. intros [].
  - cbn [fold_left map].
    specialize (IH (setPixelXY im c.1 c.2 (getPixelXY orig c.1 c.2))).
    cbn zeta in IH.
    destruct IH as (Hw' & Hh' & Hk' & Hl' & Hi).
    + exact Hw.
    + rewrite setPixelXY_data, length_insert. exact Hl.
    + rewrite Hw', Hh', Hk', Hl'. rewrite setPixelXY_data, length_insert.
      repeat split; auto.
      * intros Hin.
        destruct (in_dec Nat.eq_dec i (map (pixel_index (width orig)) cs)) as [Hin'|Hnin].
        { apply (Hi i), Hin'. }
        destruct Hin as [<-|Hin]; [|contradiction].
        destruct (Hi (pixel_index (width orig) c)) as [_ Hb]. rewrite (Hb Hnin).
        rewrite setPixelXY_data, Hw.
        replace (c.1, c.2) with c by (destruct c; reflexivity).
        rewrite list_lookup_insert_eq by lia.
        rewrite (getPixelXY_index orig c).
        destruct (data orig !! pixel_index (width orig) c) as [p|] eqn:E; [reflexivity|].
        apply lookup_ge_None in E. lia.
      * intros Hnin.
        destruct (Hi i) as [_ Hb]. rewrite Hb.
        2:{ intros Hin. apply Hnin. right. exact Hin. }
        rewrite setPixelXY_data, Hw.
        replace (c.1, c.2) with c by (destruct c; reflexivity).
        apply list_lookup_insert_ne. intros E. apply Hnin. left. exact E.
Qed.

Lemma pixel_index_bound (w h : nat) (c : nat * nat) :
  (c.1 < w)%nat -> (c.2 < h)%nat -> (pixel_index w c < w * h)%nat.
Proof. unfold pixel_index. intros Hx Hy. nia. Qed.

Lemma pixel_index_covered (w h i : nat) (cs : list (nat * nat)) :
  (forall x y, (x < w)%nat -> (y < h)%nat -> In (x, y) cs) ->
  (i < w * h)%nat -> In i (map (pixel_index w) cs).
Proof.
  intros Hcov Hi.
  assert (Hw : (0 < w)%nat) by nia.
  apply in_map_iff. exists ((i mod w)%nat, (i / w)%nat). split.
  - unfold pixel_index. cbn [fst snd]. pose proof (Nat.div_mod_eq i w). lia.
  - apply Hcov.
    + apply Nat.mod_upper_bound. lia.
    + apply Nat.Div0.div_lt_upper_bound. lia.
Qed.

(** Storing the pixels of [orig] along a walk that stays inside the image
    and reaches every coordinate rebuilds [orig] from the empty image. *)
Lemma restore_all (orig : Image) (cs : list (nat * nat)) :
  Image_wf orig ->
  (forall c, In c cs -> (c.1 < width orig)%nat /\ (c.2 < height orig)%nat) ->
  (forall x y, (x < width orig)%nat -> (y < height orig)%nat -> In (x, y) cs) ->
  fold_left (fun im c => setPixelXY im c.1 c.2 (getPixelXY orig c.1 c.2)) cs
    (blank_Image (width orig) (height orig) (kind orig))
  = orig.
Proof.
  intros Hwf Hin Hcov. unfold Image_wf in Hwf.
  assert (Hidx : Forall (fun c => (pixel_index (width orig) c < length (data orig))%nat) cs).
  { apply Forall_forall. intros c Hc%list_elem_of_In. rewrite Hwf.
    destruct (Hin c Hc). apply pixel_index_bound; assumption. }
  pose proof (restore_fold orig cs (blank_Image (width orig) (height orig) (kind orig))) as Hr.
  cbn zeta in Hr.
  destruct Hr as (Hw' & Hh' & Hk' & Hl' & Hi); [reflexivity| |exact Hidx|].
  { cbn. rewrite length_replicate. lia. }
  match goal with |- ?r = _ => destruct r as [w' h' k' d'] eqn:Er end.
  cbn in Hw', Hh', Hk', Hl', Hi. subst w' h' k'.
  destruct orig as [w h k d]. cbn in *. f_equal.
  apply list_eq. intros i.
  destruct (Nat.lt_ge_cases i (w * h)) as [Hlt|Hge].
  - apply (Hi i). apply (pixel_index_covered w h); assumption.
  - rewrite !lookup_ge_None_2; [reflexivity|lia|].
    rewrite Hl', length_replicate. lia.
Qed.

(** A walk that stays inside the image and reaches every coordinate: the
    pixels written along it and read back along it rebuild the image. *)
Lemma readPixels_roundtrip (f : PixelFormat) (orig a : Image) (cs : list (nat * nat))
    (rest : list byte) :
  Image_wf orig ->
  kind a = kind orig ->
  Forall (fun p => pixel_survives f orig p = true) (data orig) ->
  (forall c, In c cs -> (c.1 < width orig)%nat /\ (c.2 < height orig)%nat) ->
  (forall x y, (x < width orig)%nat -> (y < height orig)%nat -> In (x, y) cs) ->
  readPixels (readPixel f) cs (blank_Image (width orig) (height orig) (kind orig))
    (flat_map (fun c => writePixel f [] (zeroAlpha a (getPixelXY orig c.1 c.2))) cs ++ rest)
  = Ok (orig, rest).
Proof.
  intros Hwf Hk Hs Hin Hcov.
  rewrite readPixels_written.
  - rewrite (restore_all orig cs Hwf Hin Hcov). reflexivity.
  - apply Forall_forall. intros c Hc%list_elem_of_In.
    rewrite (pixel_survives_kind f a orig _ Hk).
    rewrite Forall_forall in Hs. apply Hs.
    destruct (Hin c Hc) as [Hx Hy].
    pose proof (pixel_index_bound _ _ c Hx Hy) as Hb.
    rewrite getPixelXY_index.
    destruct (data orig !! pixel_index (width orig) c) as [p|] eqn:E.
    + apply list_elem_of_lookup_2 in E. exact E.
    + apply lookup_ge_None in E. unfold Image_wf in Hwf. lia.
Qed.

(** The pixel loops of [load] store the [k]-th pixel read at the [k]-th
    coordinate of the walk. *)
Lemma readPixels_in_order (rd : list byte -> result (list byte * list byte))
    (cs : list (nat * nat)) (img : Image) (buf rest : list byte) (ps : list (list byte)) :
  readMany rd (length cs) buf = Ok (ps, rest) ->
  readPixels rd cs img buf
  = Ok (fold_left (fun im cp => setPixelXY im cp.1.1 cp.1.2 cp.2) (zip cs ps) img, rest).
Proof.
  revert img buf ps. induction cs as [|[x y] cs IH]; intros img buf ps.
  - cbn. intros [= <- <-]. reflexivity.
  - cbn [length readMany readPixels].
    destruct (rd buf) as [[p buf1]|]; [|discriminate]. cbn [mbind result_bind].
    destruct (readMany rd (length cs) buf1) as [[ps' buf2]|] eqn:E; [|discriminate].
    cbn [mbind result_bind]. intros [= <- <-].
    rewrite (IH _ _ _ E). reflexivity.
Qed.

Lemma fold_left_zip_map {A B S : Type} (F : S -> A * B -> S) (g : A -> B) (l : list A)
    (s : S) :
  fold_left F (zip l (map g l)) s = fold_left (fun s a => F s (a, g a)) l s.
Proof.
  revert s. induction l as [|a l IH]; intros s; [reflexivity|]. cbn. apply IH.
Qed.

Lemma flat_map_map {A B C : Type} (g : A -> B) (F : B -> list C) (l : list A) :
  flat_map F (map g l) = flat_map (fun a => F (g a)) l.
Proof.
  induction l as [|a l IH]; [reflexivity|]. cbn [map flat_map]. rewrite IH. reflexivity.
Qed.

Lemma blockArrange_wf (img : Image) : Image_wf img -> Image_wf (blockArrange img).
Proof.
  intros Hwf. destruct (blockArrange_data img Hwf) as (Hd & Hw & Hh & _).
  unfold Image_wf. rewrite Hd, Hw, Hh, length_map. apply length_block_walk.
Qed.

(** What the write loop produces for a block-layout image: the packed pixels
    of the image in the order of the block walk. *)
Lemma writePixels_blockArrange (f : PixelFormat) (img : Image) (buf : list byte) :
  Image_wf img ->
  writePixels f (blockArrange img) buf
  = buf ++ flat_map (fun c => writePixel f [] (zeroAlpha img (getPixelXY img c.1 c.2)))
             (block_walk (width img) (height img)).
Proof.
  intros Hwf. rewrite writePixels_flat_map. f_equal.
  destruct (blockArrange_data img Hwf) as (Hd & Hw & Hh & Hk).
  rewrite <- (flat_map_map (fun c => getPixelXY (blockArrange img) c.1 c.2)
                (fun p => writePixel f [] (zeroAlpha (blockArrange img) p))).
  rewrite (linear_walk_pixels _ (blockArrange_wf img Hwf)), Hd, flat_map_map.
  apply flat_map_ext. intros c. rewrite (zeroAlpha_kind _ img _ Hk). reflexivity.
Qed.

(** What the write loop produces for a linear image. *)
Lemma writePixels_linear (f : PixelFormat) (img : Image) (buf : list byte) :
  writePixels f img buf
  = buf ++ flat_map (fun c => writePixel f [] (zeroAlpha img (getPixelXY img c.1 c.2)))
             (linear_walk (width img) (height img)).
Proof. apply writePixels_flat_map. Qed.

Lemma linear_walk_In (w h x y : nat) :
  In (x, y) (linear_walk w h) <-> (x < w)%nat /\ (y < h)%nat.
Proof.
  unfold linear_walk. rewrite in_flat_map. split.
  - intros (y' & Hy & Hin). apply in_map_iff in Hin as (x' & [= <- <-] & Hx).
    apply in_seq in Hy, Hx. lia.
  - intros [Hx Hy]. exists y. split; [apply in_seq; lia|].
    apply in_map_iff. exists x. split; [reflexivity|apply in_seq; lia].
Qed.

Lemma NoDup_linear_walk (w h : nat) : NoDup (linear_walk w h).
Proof.
  apply (NoDup_fmap_1 (pixel_index w)).
  change (NoDup (map (pixel_index w) (linear_walk w h))).
  rewrite linear_walk_indices. apply NoDup_ListNoDup, List.seq_NoDup.
Qed.

Lemma length_linear_walk (w h : nat) : length (linear_walk w h) = (w * h)%nat.
Proof.
  rewrite <- (length_map (pixel_index w)), linear_walk_indices, length_seq. lia.
Qed.

(** The block walk visits no coordinate twice. *)
Lemma NoDup_block_walk (w h : nat) : NoDup (block_walk w h).
Proof.
  apply NoDup_ListNoDup.
  eapply List.NoDup_incl_NoDup.
  - apply NoDup_ListNoDup, (NoDup_linear_walk w h).
  - rewrite length_block_walk, length_linear_walk. lia.
  - intros [x y] Hin. apply linear_walk_In in Hin. apply block_walk_In. exact Hin.
Qed.

(** For a block-layout pixel matrix of any size, the walk of [save] and the
    walk of [load] are the same sequence of coordinates; storing the [k]-th
    pixel of the rearranged matrix at the [k]-th coordinate rebuilds the
    pixel at every coordinate, and so does reading the payload bytes back
    when the pixels survive the packing. *)
Lemma block_walk_rebuilds_image (img : Image) :
  Image_wf img ->
  let w := width img in
  let h := height img in
  let walk := block_walk w h in
  walk = flat_map (fun yb =>
           flat_map (fun xb =>
             flat_map (fun y =>
               flat_map (fun x => [((xb * blockSize + x)%nat, (yb * blockSize + y)%nat)])
                 (seq 0 (Nat.min blockSize (w - xb * blockSize))))
               (seq 0 (Nat.min blockSize (h - yb * blockSize))))
             (seq 0 (w / blockSize + 1)))
           (seq 0 (h / blockSize + 1))
  /\ length walk = (w * h)%nat
  /\ NoDup walk
  /\ (forall x y, In (x, y) walk <-> (x < w)%nat /\ (y < h)%nat)
  /\ (forall k c, walk !! k = Some c ->
        data (blockArrange img) !! k = Some (getPixelXY img c.1 c.2))
  /\ fold_left (fun im cp => setPixelXY im cp.1.1 cp.1.2 cp.2)
       (zip walk (data (blockArrange img))) (blank_Image w h (kind img))
     = img
  /\ (forall (f : PixelFormat) (rest : list byte),
        Forall (fun p => pixel_survives f img p = true) (data img) ->
        writePixels f (blockArrange img) []
        = flat_map (fun c => writePixel f [] (zeroAlpha img (getPixelXY img c.1 c.2))) walk
        /\ readPixels (readPixel f) walk (blank_Image w h (kind img))
             (writePixels f (blockArrange img) [] ++ rest)
           = Ok (img, rest)).
Proof.
  intros Hwf w h walk.
  assert (Hin : forall c, In c walk -> (c.1 < w)%nat /\ (c.2 < h)%nat).
  { intros [x y] Hc. apply block_walk_In in Hc. exact Hc. }
  assert (Hcov : forall x y, (x < w)%nat -> (y < h)%nat -> In (x, y) walk).
  { intros x y Hx Hy. apply block_walk_In. auto. }
  destruct (blockArrange_data img Hwf) as (Hd & _).
  split; [apply block_walk_unfold|].
  split; [apply length_block_walk|].
  split; [apply NoDup_block_walk|].
  split; [intros x y; apply block_walk_In|].
  split; [|split].
  - intros k c Hk. rewrite Hd, list_lookup_fmap. fold w h walk. rewrite Hk. reflexivity.
  - rewrite Hd. fold w h walk.
    rewrite (fold_left_zip_map (fun im cp => setPixelXY im cp.1.1 cp.1.2 cp.2)
               (fun c => getPixelXY img c.1 c.2)).
    apply (restore_all img walk Hwf Hin Hcov).
  - intros f rest Hs.
    rewrite (writePixels_blockArrange f img [] Hwf). cbn [app].
    split; [reflexivity|].
    apply readPixels_roundtrip; auto.
Qed.

(** ** The tag loop *)

Lemma peek_tag_header (buf : list byte) (tag : Z) :
  peek_tag buf = Some tag ->
  exists b1 len,
    readUInt8 buf = Ok (tag, b1) /\ readInt32 b1 = Ok (len, drop 5 buf).
Proof.
  unfold peek_tag.
  destruct (readUInt8 buf) as [[t b1]|] eqn:E8; [|discriminate].
  destruct (readInt32 b1) as [[len b2]|] eqn:E32; [|discriminate].
  intros [= ->]. exists b1, len. split; [reflexivity|].
  rewrite E32. f_equal. f_equal.
  unfold readUInt8 in E8. destruct (readBytes 1 buf) as [[bs1 r1]|] eqn:R1; [|discriminate].
  cbn in E8. injection E8 as _ ->.
  unfold readInt32 in E32. destruct (readBytes 4 b1) as [[bs4 r4]|] eqn:R4; [|discriminate].
  cbn in E32. injection E32 as _ ->.
  apply readBytes_length in R1 as [-> L1], R4 as [-> L4].
  rewrite app_assoc, drop_app_length'; [reflexivity|].
  rewrite length_app. lia.
Qed.

Lemma parseTag_peek `{RecordHandlers} (st : ParseState) (r : bool * ParseState) :
  parseTag st = Ok r -> exists tag, peek_tag (buffer (this st)) = Some tag.
Proof.
  unfold parseTag, peek_tag.
  destruct (readUInt8 (buffer (this st))) as [[tag b1]|]; [|discriminate].
  cbn [mbind result_bind].
  destruct (readInt32 b1) as [[len b2]|]; [|discriminate].
  intros _. exists tag. reflexivity.
Qed.

(** Decide the tests of the [switch] on a tag id that is a numeral. *)
Ltac decide_tests :=
  repeat match goal with
         | |- context [if ?c then _ else _] =>
             let v := eval vm_compute in c in
             match v with
             | true => change c with true
             | false => change c with false
             end; cbv iota
         end.

(** A turn on a shape tag: the count check first, then [Shape.load]. *)
Lemma parseTag_shape `{RecordHandlers} (st : ParseState) (tag : Z) :
  peek_tag (buffer (this st)) = Some tag ->
  tag ∈ SHAPE_TAGS ->
  parseTag st
  = if shapesLoaded (loc st) >=? _shapeCount (priv st) then Err INVALID_SHAPE_COUNT
    else
      match Shape_load tag (set_buffer (drop 5 (buffer (this st))) (this st)) with
      | Some swf' =>
          Ok (true, mkParse swf' (priv st)
                (mkLocals (hasTextureData (loc st)) (shapesLoaded (loc st) + 1)
                   (movieclipsLoaded (loc st)) (textfieldsLoaded (loc st))
                   (modifiersLoaded (loc st)) (banksLoaded (loc st))
                   (matricesLoaded (loc st)) (colorsLoaded (loc st))
                   (texturesLoaded (loc st))))
      | None => Err RecordFailure
      end.
Proof.
  intros Hpeek Htag.
  destruct (peek_tag_header _ _ Hpeek) as (b1 & len & E8 & E32).
  unfold parseTag. rewrite E8. cbn [mbind result_bind]. rewrite E32.
  cbn [mbind result_bind].
  unfold SHAPE_TAGS in Htag.
  repeat (apply elem_of_cons in Htag as [->|Htag]);
    [| |apply elem_of_nil in Htag; destruct Htag];
    decide_tests;
    (destruct (shapesLoaded (loc st) >=? _shapeCount (priv st)); [reflexivity|]);
    (destruct (Shape_load _ _); reflexivity).
Qed.

Lemma texture_tag_not_shape (tag : Z) :
  tag_in TEXTURE_TAGS tag = true -> tag_in SHAPE_TAGS tag = false.
Proof.
  unfold tag_in. intros Hin%bool_decide_eq_true. unfold TEXTURE_TAGS in Hin.
  repeat (apply elem_of_cons in Hin as [->|Hin]); try reflexivity.
  apply elem_of_nil in Hin. destruct Hin.
Qed.

(** What a turn that ends without exception does to the shape counters: the
    declared count stays; the number of shapes loaded grows by one on a shape
    tag, which is only handled below the declared count, and stays on every
    other tag. *)
Lemma parseTag_shape_counters `{RecordHandlers} (st st1 : ParseState) (read : bool) (tag : Z) :
  peek_tag (buffer (this st)) = Some tag ->
  parseTag st = Ok (read, st1) ->
  _shapeCount (priv st1) = _shapeCount (priv st)
  /\ shapesLoaded (loc st1)
     = shapesLoaded (loc st) + (if tag_in SHAPE_TAGS tag then 1 else 0)
  /\ (tag_in SHAPE_TAGS tag = true -> shapesLoaded (loc st) < _shapeCount (priv st)).
Proof.
  intros Hpeek.
  destruct (peek_tag_header _ _ Hpeek) as (b1 & len & E8 & E32).
  unfold parseTag. rewrite E8. cbn [mbind result_bind]. rewrite E32.
  cbn [mbind result_bind].
  destruct (tag =? 0) eqn:T0.
  { apply Z.eqb_eq in T0. subst tag. change (tag_in SHAPE_TAGS _) with false.
    intros [= <- <-]. cbn. split; [reflexivity|]. split; [lia|discriminate]. }
  destruct (tag_in TEXTURE_TAGS tag) eqn:Ttex.
  { rewrite (texture_tag_not_shape _ Ttex).
    destruct (Texture_load _ _ _ _ _) as [[ts b3]|]; [|discriminate].
    cbn [mbind result_bind]. intros [= <- <-]. cbn. split; [reflexivity|].
    split; [lia|discriminate]. }
  destruct (tag =? 23) eqn:T23.
  { apply Z.eqb_eq in T23. subst tag. change (tag_in SHAPE_TAGS _) with false.
    intros [= <- <-]. cbn. split; [reflexivity|]. split; [lia|discriminate]. }
  destruct (tag =? 26) eqn:T26.
  { apply Z.eqb_eq in T26. subst tag. change (tag_in SHAPE_TAGS _) with false.
    intros [= <- <-]. cbn. split; [reflexivity|]. split; [lia|discriminate]. }
  destruct (tag =? 30) eqn:T30.
  { apply Z.eqb_eq in T30. subst tag. change (tag_in SHAPE_TAGS _) with false.
    intros [= <- <-]. cbn. split; [reflexivity|]. split; [lia|discriminate]. }
  destruct (tag =? 32) eqn:T32.
  { apply Z.eqb_eq in T32. subst tag. change (tag_in SHAPE_TAGS _) with false.
    destruct (readASCII _) as [[hi b3]|]; [|discriminate]. cbn [mbind result_bind].
    destruct (readASCII _) as [[lo b4]|]; [|discriminate]. cbn [mbind result_bind].
    destruct (_ && _); intros [= <- <-]; cbn; (split; [reflexivity|]);
      (split; [lia|discriminate]). }
  destruct (tag_in SHAPE_TAGS tag) eqn:Tshape.
  { destruct (Z.geb_spec (shapesLoaded (loc st)) (_shapeCount (priv st))) as [|Hlt];
      [discriminate|].
    destruct (Shape_load _ _); [|discriminate]. cbn [mbind result_bind handled].
    intros [= <- <-]. cbn. split; [reflexivity|]. split; [reflexivity|].
    intros _. exact Hlt. }
  assert (Hdone : forall r : result (bool * ParseState),
             (forall b s, r = Ok (b, s) ->
                 _shapeCount (priv s) = _shapeCount (priv st)
                 /\ shapesLoaded (loc s) = shapesLoaded (loc st)) ->
             r = Ok (read, st1) ->
             _shapeCount (priv st1) = _shapeCount (priv st)
             /\ shapesLoaded (loc st1) = shapesLoaded (loc st) + 0
             /\ (false = true -> shapesLoaded (loc st) < _shapeCount (priv st))).
  { intros r Hr E. destruct (Hr _ _ E) as [-> ->]. split; [reflexivity|].
    split; [lia|discriminate]. }
  apply Hdone. intros b s.
  repeat match goal with
         | |- context [if ?c then _ else _] => destruct c
         | |- context [match ?o with Some _ => _ | None => _ end] => destruct o
         | |- context [mbind _ ?m] =>
             let x := fresh in destruct m as [x|]; [try destruct x|];
             cbn [mbind result_bind]
         end;
    try discriminate; intros [= <- <-]; cbn; split; reflexivity.
Qed.

Lemma turns_loop `{RecordHandlers} (st st' : ParseState) (ids : list Z) (fuel : nat) :
  turns st ids st' ->
  parseTags_loop (length ids + fuel) st = parseTags_loop fuel st'.
Proof.
  induction 1 as [st|st st1 st2 tag ids Hpeek Hturn Hturns IH]; [reflexivity|].
  cbn [length Nat.add parseTags_loop]. rewrite Hturn. cbn [mbind result_bind].
  exact IH.
Qed.

Lemma shape_tags_cons (tag : Z) (ids : list Z) :
  Z.of_nat (shape_tags (tag :: ids))
  = (if tag_in SHAPE_TAGS tag then 1 else 0) + Z.of_nat (shape_tags ids).
Proof.
  unfold shape_tags, tag_in. rewrite filter_cons.
  destruct (decide (tag ∈ SHAPE_TAGS)) as [Hin|Hnin].
  - rewrite bool_decide_true by exact Hin. cbn [length]. lia.
  - rewrite bool_decide_false by exact Hnin. lia.
Qed.

(** Along a run, the number of shapes loaded is the number of shape tags
    read, and it does not pass the declared count. *)
Lemma turns_shape_counters `{RecordHandlers} (st st' : ParseState) (ids : list Z) :
  turns st ids st' ->
  _shapeCount (priv st') = _shapeCount (priv st)
  /\ shapesLoaded (loc st') = shapesLoaded (loc st) + Z.of_nat (shape_tags ids)
  /\ (shapesLoaded (loc st) <= _shapeCount (priv st) ->
      shapesLoaded (loc st') <= _shapeCount (priv st)).
Proof.
  induction 1 as [st|st st1 st2 tag ids Hpeek Hturn Hturns IH].
  - split; [reflexivity|]. split; [unfold shape_tags; cbn; lia|auto].
  - destruct (parseTag_shape_counters _ _ _ _ Hpeek Hturn) as (Hc & Hl & Hlt).
    destruct IH as (IHc & IHl & IHle).
    rewrite IHc, IHl, Hc, Hl, shape_tags_cons.
    split; [reflexivity|]. split; [lia|].
    intros Hle. rewrite Hc, Hl in IHle.
    destruct (tag_in SHAPE_TAGS tag); [specialize (Hlt eq_refl)|]; lia.
Qed.

(** C6: in an instance that declares [N] shapes, a run of the tag loop hands
    shape tags to [Shape.load] as long as fewer than [N] have been read, and
    the turn that reads shape tag number [N + 1] raises the count error,
    which is then the outcome of the loop. *)
Theorem shape_count_overflow `{RecordHandlers}
    (st0 st : ParseState) (ids : list Z) (tag : Z) :
  shapesLoaded (loc st0) = 0 ->
  0 <= _shapeCount (priv st0) ->
  turns st0 ids st ->
  peek_tag (buffer (this st)) = Some tag ->
  tag ∈ SHAPE_TAGS ->
  let N := _shapeCount (priv st0) in
  Z.of_nat (shape_tags ids) <= N
  /\ (Z.of_nat (shape_tags ids) < N ->
      parseTag st
      = match Shape_load tag (set_buffer (drop 5 (buffer (this st))) (this st)) with
        | Some swf' =>
            Ok (true, mkParse swf' (priv st)
                  (mkLocals (hasTextureData (loc st)) (Z.of_nat (shape_tags ids) + 1)
                     (movieclipsLoaded (loc st)) (textfieldsLoaded (loc st))
                     (modifiersLoaded (loc st)) (banksLoaded (loc st))
                     (matricesLoaded (loc st)) (colorsLoaded (loc st))
                     (texturesLoaded (loc st))))
        | None => Err RecordFailure
        end)
  /\ (Z.of_nat (shape_tags ids) = N ->
      parseTag st = Err INVALID_SHAPE_COUNT
      /\ forall fuel, (length ids < fuel)%nat ->
           parseTags_loop fuel st0 = Err INVALID_SHAPE_COUNT).
Proof.
  intros H0 HN Hturns Hpeek Htag N.
  destruct (turns_shape_counters _ _ _ Hturns) as (Hc & Hl & Hle).
  rewrite H0, Z.add_0_l in Hl. fold N in Hc, Hle.
  specialize (Hle ltac:(lia)). rewrite Hl in Hle.
  split; [exact Hle|].
  pose proof (parseTag_shape st tag Hpeek Htag) as Hstep.
  rewrite Hc, Hl in Hstep.
  split.
  - intros Hlt. rewrite Hstep.
    destruct (Z.geb_spec (Z.of_nat (shape_tags ids)) N); [lia|reflexivity].
  - intros Heq.
    assert (Hfail : parseTag st = Err INVALID_SHAPE_COUNT).
    { rewrite Hstep. destruct (Z.geb_spec (Z.of_nat (shape_tags ids)) N); [reflexivity|lia]. }
    split; [exact Hfail|].
    intros fuel Hfuel.
    replace fuel with (length ids + S (fuel - length ids - 1))%nat by lia.
    rewrite (turns_loop _ _ _ _ Hturns). cbn [parseTags_loop].
    rewrite Hfail. reflexivity.
Qed.

Lemma shape_count_overflow_witness :
  @turns empty_records two_shapes_state [2]
    (mkParse (set_buffer [x12; x00; x00; x00; x00] new_SupercellSWF)
             (mkCounts 1 0 0 0) (mkLocals true 1 0 0 0 0 0 0 0))
  /\ peek_tag [x12; x00; x00; x00; x00] = Some 18
  /\ @parseTag empty_records
       (mkParse (set_buffer [x12; x00; x00; x00; x00] new_SupercellSWF)
                (mkCounts 1 0 0 0) (mkLocals true 1 0 0 0 0 0 0 0))
     = Err INVALID_SHAPE_COUNT
  /\ @parseTags empty_records (this two_shapes_state) (priv two_shapes_state)
     = Err INVALID_SHAPE_COUNT.
Proof.
  pose (st1 := mkParse (set_buffer [x12; x00; x00; x00; x00] new_SupercellSWF)
                       (mkCounts 1 0 0 0) (mkLocals true 1 0 0 0 0 0 0 0)).
  assert (Hturns : @turns empty_records two_shapes_state [2] st1).
  { eapply turns_cons; [reflexivity|reflexivity|apply turns_nil]. }
  assert (Hpeek : peek_tag (buffer (this st1)) = Some 18) by reflexivity.
  assert (Htag : 18 ∈ SHAPE_TAGS) by (unfold SHAPE_TAGS; set_solver).
  destruct (@shape_count_overflow empty_records two_shapes_state st1 [2] 18 eq_refl
              ltac:(cbn; lia) Hturns Hpeek Htag) as (_ & _ & Hlast).
  destruct (Hlast eq_refl) as [Hfail Hloop].
  split; [exact Hturns|]. split; [exact Hpeek|]. split; [exact Hfail|].
  unfold parseTags. rewrite Hloop by (cbn; lia). reflexivity.
Defined.

(** ** Texture tags beyond the declared count *)

Lemma readBytes_error (n : nat) (buf : list byte) (e : Error) :
  readBytes n buf = Err e -> e = Truncated.
Proof. unfold readBytes. destruct (_ <? _)%nat; [intros [= <-]; reflexivity|discriminate]. Qed.

Lemma readUInt8_error (buf : list byte) (e : Error) :
  readUInt8 buf = Err e -> e = Truncated.
Proof.
  unfold readUInt8. destruct (readBytes 1 buf) as [[bs b]|e'] eqn:E; [discriminate|].
  intros [= <-]. exact (readBytes_error _ _ _ E).
Qed.

Lemma readUInt16_error (buf : list byte) (e : Error) :
  readUInt16 buf = Err e -> e = Truncated.
Proof.
  unfold readUInt16. destruct (readBytes 2 buf) as [[bs b]|e'] eqn:E; [discriminate|].
  intros [= <-]. exact (readBytes_error _ _ _ E).
Qed.

Ltac read_error rd lem :=
  match goal with
  | |- context [rd ?b] =>
      let E := fresh "E" in
      destruct (rd b) as [[? ?]|?] eqn:E;
      [cbn [mbind result_bind]|intros [= <-]; exact (lem _ _ E)]
  end.

Lemma readPixel_error (f : PixelFormat) (buf : list byte) (e : Error) :
  readPixel f buf = Err e -> e = Truncated.
Proof.
  destruct f; unfold readPixel;
    repeat (first [read_error readUInt8 readUInt8_error
                  |read_error readUInt16 readUInt16_error]);
    discriminate.
Qed.

Lemma readPixels_error (f : option PixelFormat) (cs : list (nat * nat)) (img : Image)
    (buf : list byte) (e : Error) :
  readPixels (PIXEL_READ_FUNCTIONS f) cs img buf = Err e ->
  e = Truncated \/ e = NotAFunction.
Proof.
  revert img buf. induction cs as [|[x y] cs IH]; intros img buf; [discriminate|].
  cbn [readPixels].
  destruct (PIXEL_READ_FUNCTIONS f buf) as [[p b]|e'] eqn:E; cbn [mbind result_bind].
  - apply IH.
  - intros [= <-]. destruct f as [f|]; cbn in E.
    + left. exact (readPixel_error _ _ _ E).
    + right. congruence.
Qed.

Lemma new_Image_Ok (w h : nat) (k : ImageKind) :
  (0 < w)%nat -> (0 < h)%nat -> new_Image w h k = Ok (blank_Image w h k).
Proof.
  intros Hw Hh. unfold new_Image.
  destruct w; [lia|]. destruct h; [lia|]. reflexivity.
Qed.

Lemma new_Image_inv (w h : nat) (k : ImageKind) (img : Image) :
  new_Image w h k = Ok img -> (0 < w)%nat /\ (0 < h)%nat /\ img = blank_Image w h k.
Proof.
  unfold new_Image. destruct w; [discriminate|]. destruct h; [discriminate|].
  intros [= <-]. repeat split; lia.
Qed.

Lemma new_Image_error (w h : nat) (k : ImageKind) (e : Error) :
  new_Image w h k = Err e -> e = RangeError /\ (w = 0 \/ h = 0)%nat.
Proof.
  unfold new_Image. destruct w; [intros [= <-]; auto|].
  destruct h; [intros [= <-]; auto|discriminate].
Qed.

(** The two outcomes of the [new Image] of [Texture.load]. *)
Ltac new_Image_cases img E :=
  cbn zeta;
  match goal with
  | |- context [new_Image ?w ?h ?k] =>
      destruct (new_Image w h k) as [img|] eqn:E; cbn [mbind result_bind]
  end.

(** [Texture.load] raises nothing but a truncation, the refusal of an image
    without pixels or the call of a missing pixel reader. *)
Lemma load_texture_error (tag : Z) (hasData : bool) (buf : list byte) (e : Error) :
  load_texture tag hasData buf = Err e ->
  e = Truncated \/ e = NotAFunction \/ e = RangeError.
Proof.
  unfold load_texture.
  destruct (readUInt8 buf) as [[idx b1]|e1] eqn:E1; cbn [mbind result_bind];
    [|intros [= <-]; left; exact (readUInt8_error _ _ E1)].
  destruct (readUInt16 b1) as [[w b2]|e2] eqn:E2; cbn [mbind result_bind];
    [|intros [= <-]; left; exact (readUInt16_error _ _ E2)].
  destruct (readUInt16 b2) as [[h b3]|e3] eqn:E3; cbn [mbind result_bind];
    [|intros [= <-]; left; exact (readUInt16_error _ _ E3)].
  cbn zeta.
  destruct (new_Image (Z.to_nat w) (Z.to_nat h)
              (default RGBA (js_index PIXEL_CHANNELS idx))) as [img|e0] eqn:E0;
    cbn [mbind result_bind];
    [|intros [= <-]; right; right; exact (proj1 (new_Image_error _ _ _ _ E0))].
  destruct hasData; [|discriminate].
  match goal with |- context [readPixels ?rd ?cs ?img ?b] =>
    destruct (readPixels rd cs img b) as [[img' b4]|e4] eqn:E4 end;
    cbn [mbind result_bind]; [discriminate|].
  intros [= <-]. destruct (readPixels_error _ _ _ _ _ E4) as [->| ->]; auto.
Qed.

(** One turn on a texture tag when every declared texture slot has been
    used: the turn is [Texture.load] on a fresh texture, which is appended to
    [textures] when the tag carries pixel data and dropped otherwise; the
    only failures are those of reading the record itself. *)
Lemma parseTag_texture_unchecked `{RecordHandlers} (st : ParseState) (tag : Z) :
  peek_tag (buffer (this st)) = Some tag ->
  tag ∈ TEXTURE_TAGS ->
  (length (textures (this st)) <= texturesLoaded (loc st))%nat ->
  parseTag st
  = match load_texture tag (hasTextureData (loc st)) (drop 5 (buffer (this st))) with
    | Ok (t, rest) =>
        Ok (true,
            mkParse
              (set_buffer rest
                 (set_textures
                    (if hasTextureData (loc st) then textures (this st) ++ [t]
                     else textures (this st))
                    (this st)))
              (priv st)
              (mkLocals (hasTextureData (loc st)) (shapesLoaded (loc st))
                 (movieclipsLoaded (loc st)) (textfieldsLoaded (loc st))
                 (modifiersLoaded (loc st)) (banksLoaded (loc st))
                 (matricesLoaded (loc st)) (colorsLoaded (loc st))
                 (S (texturesLoaded (loc st)))))
    | Err e => Err e
    end
  /\ (forall e, parseTag st = Err e ->
              e = Truncated \/ e = NotAFunction \/ e = RangeError).
Proof.
  intros Hpeek Htag Hlen.
  destruct (peek_tag_header _ _ Hpeek) as (b1 & len & E8 & E32).
  assert (Hstep : parseTag st
    = match load_texture tag (hasTextureData (loc st)) (drop 5 (buffer (this st))) with
      | Ok (t, rest) =>
          Ok (true,
              mkParse
                (set_buffer rest
                   (set_textures
                      (if hasTextureData (loc st) then textures (this st) ++ [t]
                       else textures (this st))
                      (this st)))
                (priv st)
                (mkLocals (hasTextureData (loc st)) (shapesLoaded (loc st))
                   (movieclipsLoaded (loc st)) (textfieldsLoaded (loc st))
                   (modifiersLoaded (loc st)) (banksLoaded (loc st))
                   (matricesLoaded (loc st)) (colorsLoaded (loc st))
                   (S (texturesLoaded (loc st)))))
      | Err e => Err e
      end).
  { unfold parseTag. rewrite E8. cbn [mbind result_bind]. rewrite E32.
    cbn [mbind result_bind].
    assert (Htex : tag_in TEXTURE_TAGS tag = true) by (apply bool_decide_eq_true; exact Htag).
    assert (Hnz : (tag =? 0) = false).
    { apply Z.eqb_neq. intros ->. unfold TEXTURE_TAGS in Htag. set_solver. }
    rewrite Hnz, Htex.
    cbn [textures set_buffer].
    destruct (Nat.ltb_spec (texturesLoaded (loc st)) (length (textures (this st))));
      [lia|].
    unfold Texture_load.
    destruct (load_texture tag (hasTextureData (loc st)) (drop 5 (buffer (this st))))
      as [[t rest]|e]; reflexivity. }
  split; [exact Hstep|].
  intros e He. rewrite Hstep in He.
  destruct (load_texture tag (hasTextureData (loc st)) (drop 5 (buffer (this st))))
    as [[t rest]|e'] eqn:El; [discriminate|].
  injection He as <-. exact (load_texture_error _ _ _ _ El).
Qed.

Lemma parseTag_texture_unchecked_sample :
  peek_tag (buffer (this extra_texture_state)) = Some 1
  /\ (length (textures (this extra_texture_state))
      <= texturesLoaded (loc extra_texture_state))%nat
  /\ @parseTag empty_records extra_texture_state
     = Ok (true,
           mkParse
             (set_buffer [x00; x00; x00; x00; x00]
                (set_textures
                   [mkTexture (Some GL_RGBA8) GL_LINEAR GL_NEAREST true true
                      (mkImage 1 1 RGBA [[x0a; x0b; x0c; x0d]])]
                   new_SupercellSWF))
             new_Counts (mkLocals true 0 0 0 0 0 0 0 1)).
Proof.
  assert (Hpeek : peek_tag (buffer (this extra_texture_state)) = Some 1) by reflexivity.
  assert (Hlen : (length (textures (this extra_texture_state))
                  <= texturesLoaded (loc extra_texture_state))%nat) by (cbn; lia).
  assert (Htag : 1 ∈ TEXTURE_TAGS) by (unfold TEXTURE_TAGS; set_solver).
  split; [exact Hpeek|]. split; [exact Hlen|].
  rewrite (proj1 (@parseTag_texture_unchecked empty_records extra_texture_state 1
                    Hpeek Htag Hlen)).
  reflexivity.
Qed.

(** ** The postfix tag *)



(** ** The external texture file *)

(** C5 as stated fails: with [useUncommonTexture] set and only the common
    file present, the precedence of the specification selects the common
    file, but [load] selects none and raises. *)
Lemma texture_path_common_not_used :
  existsSync with_common_texture_file "foo_highres_tex.sc" = false
  /\ existsSync with_common_texture_file "foo_lowres_tex.sc" = false
  /\ existsSync with_common_texture_file "foo_tex.sc" = true
  /\ spec_texturePath with_common_texture_file external_document "foo.sc"
     = Some "foo_tex.sc"%string
  /\ texturePath with_common_texture_file external_document "foo.sc" = None
  /\ @load stored_envelope empty_records "foo.sc" with_common_texture_file
       new_SupercellSWF new_Counts
     = Err INVALID_EXTERNAL_TEXTURE.
Proof. repeat split; vm_compute; reflexivity. Qed.

(** C5, amended: after the main file is read with the external-texture
    marker, [load] takes, when [useUncommonTexture] is set, the highres file
    if it exists and else the lowres file if it exists; when it is not set,
    the common file if it exists; with no such file it raises
    [INVALID_EXTERNAL_TEXTURE]. *)
Theorem texture_path_precedence `{Envelope} `{RecordHandlers}
    (path : string) (fs : FileSystem) (swf swf1 : SupercellSWF) (c c1 : Counts) :
  loadAsset path fs swf c = Ok (swf1, c1) ->
  hasExternalTexture swf1 = true ->
  let commonPath := (basePath path ++ "_tex.sc")%string in
  let lowresPath := (basePath path ++ lowresPostfix swf1 ++ "_tex.sc")%string in
  let highresPath := (basePath path ++ highresPostfix swf1 ++ "_tex.sc")%string in
  load path fs swf c
  = if useUncommonTexture swf1 then
      if existsSync fs highresPath then loadExternalTexture highresPath fs swf1 c1
      else if existsSync fs lowresPath then loadExternalTexture lowresPath fs swf1 c1
      else Err INVALID_EXTERNAL_TEXTURE
    else
      if existsSync fs commonPath then loadExternalTexture commonPath fs swf1 c1
      else Err INVALID_EXTERNAL_TEXTURE.
Proof.
  intros Hload Hext commonPath lowresPath highresPath.
  unfold load. rewrite Hload. cbn [mbind result_bind]. rewrite Hext.
  unfold texturePath. fold commonPath lowresPath highresPath.
  destruct (useUncommonTexture swf1).
  - destruct (existsSync fs highresPath); [reflexivity|].
    destruct (existsSync fs lowresPath); reflexivity.
  - destruct (existsSync fs commonPath); reflexivity.
Qed.

Lemma texture_path_precedence_witness :
  @loadAsset stored_envelope empty_records "foo.sc" with_both_texture_files
    new_SupercellSWF new_Counts
  = Ok (mkSWF NONE true true false [] [new_Texture] "_highres" "_lowres"
          [new_TransformBank] [] [], new_Counts)
  /\ existsSync with_both_texture_files "foo_highres_tex.sc" = true
  /\ existsSync with_both_texture_files "foo_lowres_tex.sc" = true
  /\ @load stored_envelope empty_records "foo.sc" with_both_texture_files
       new_SupercellSWF new_Counts
     = @loadExternalTexture stored_envelope empty_records "foo_highres_tex.sc"
         with_both_texture_files
         (mkSWF NONE true true false [] [new_Texture] "_highres" "_lowres"
            [new_TransformBank] [] [])
         new_Counts.
Proof.
  assert (Hload : @loadAsset stored_envelope empty_records "foo.sc"
                    with_both_texture_files new_SupercellSWF new_Counts
                  = Ok (mkSWF NONE true true false [] [new_Texture] "_highres" "_lowres"
                          [new_TransformBank] [] [], new_Counts))
    by (vm_compute; reflexivity).
  split; [exact Hload|].
  split; [vm_compute; reflexivity|]. split; [vm_compute; reflexivity|].
  rewrite (@texture_path_precedence stored_envelope empty_records _ _ _ _ _ _
             Hload eq_refl).
  reflexivity.
Defined.

(** ** Pixels that survive the writer *)

Lemma byte_written_read (b : byte) (rest : list byte) :
  readUInt8 (writeUInt8 (Z_of_byte b) [] ++ rest) = Ok (Z_of_byte b, rest).
Proof.
  rewrite readUInt8_write, Z.mod_small by apply Z_of_byte_range. reflexivity.
Qed.

Lemma writeUInt8_nested (a b : Z) (buf : list byte) :
  writeUInt8 a (writeUInt8 b buf) = writeUInt8 b buf ++ writeUInt8 a [].
Proof. reflexivity. Qed.

(** In the three 8-bit packings a pixel with the channel count of its image
    survives as soon as the zero-alpha rule leaves it alone: the image has no
    alpha channel, the alpha is not zero, or the pixel is all zeros. *)
Lemma pixel_survives_8bit (f : PixelFormat) (img : Image) (p : Pixel) :
  f ∈ [GL_RGBA8; GL_LUMINANCE8_ALPHA8; GL_LUMINANCE8] ->
  f ∈ CHANNEL_FORMATS (kind img) ->
  length p = channels (kind img) ->
  zeroAlpha img p = p ->
  pixel_survives f img p = true.
Proof.
  intros H8 Hf Hlen Hzero. unfold pixel_survives. rewrite Hzero.
  assert (Hcases : (f = GL_RGBA8 /\ kind img = RGBA)
                   \/ (f = GL_LUMINANCE8_ALPHA8 /\ kind img = GREYA)
                   \/ (f = GL_LUMINANCE8 /\ kind img = GREY)).
  { destruct (kind img), f; cbn in Hf; auto;
      exfalso; first [ set_solver ]. }
  destruct Hcases as [[-> Hk]|[[-> Hk]|[-> Hk]]]; rewrite Hk in Hlen; cbn in Hlen.
  - destruct p as [|r [|g [|b [|a [|]]]]]; try discriminate.
    unfold writePixel, channel. cbn [nth].
    rewrite !writeUInt8_nested, <- !app_assoc.
    unfold readPixel.
    rewrite byte_written_read. cbn [mbind result_bind].
    rewrite byte_written_read. cbn [mbind result_bind].
    rewrite byte_written_read. cbn [mbind result_bind].
    rewrite <- (app_nil_r (writeUInt8 (Z_of_byte a) [])), byte_written_read.
    cbn [mbind result_bind]. rewrite !byte_of_Z_of_byte.
    apply bool_decide_eq_true. reflexivity.
  - destruct p as [|lum [|a [|]]]; try discriminate.
    unfold writePixel, channel. cbn [nth].
    rewrite !writeUInt8_nested.
    unfold readPixel.
    rewrite byte_written_read. cbn [mbind result_bind].
    rewrite <- (app_nil_r (writeUInt8 (Z_of_byte a) [])), byte_written_read.
    cbn [mbind result_bind]. rewrite !byte_of_Z_of_byte.
    apply bool_decide_eq_true. reflexivity.
  - destruct p as [|lum [|]]; try discriminate.
    unfold writePixel, channel. cbn [nth].
    unfold readPixel.
    rewrite <- (app_nil_r (writeUInt8 (Z_of_byte lum) [])), byte_written_read.
    cbn [mbind result_bind]. rewrite !byte_of_Z_of_byte.
    apply bool_decide_eq_true. reflexivity.
Qed.

(** ** Round trip of a texture *)

Lemma textureKind_kind (img : Image) : textureKind img = kind img.
Proof. unfold textureKind. destruct (kind img); reflexivity. Qed.

Lemma format_of_kind (k : ImageKind) (f : PixelFormat) :
  f ∈ CHANNEL_FORMATS k ->
  let idx := PIXEL_FORMATS_indexOf (Some f) in
  0 <= idx < 256
  /\ js_index PIXEL_FORMATS idx = Some f
  /\ js_index PIXEL_CHANNELS idx = Some k
  /\ includes (CHANNEL_FORMATS k) (js_index PIXEL_FORMATS idx) = true.
Proof.
  intros Hf.
  destruct k, f; cbn in Hf;
    try (exfalso;
         repeat (apply elem_of_cons in Hf as [Hf|Hf]; [discriminate|]);
         apply elem_of_nil in Hf; exact Hf);
    repeat split; first [reflexivity | vm_compute; discriminate].
Qed.

Lemma corrected_format_roundtrip (t : Texture) (f : PixelFormat) :
  _pixelFormat t = Some f ->
  f ∈ CHANNEL_FORMATS (kind (image t)) ->
  corrected_format t = f.
Proof.
  intros Hpf Hf. unfold corrected_format.
  rewrite textureKind_kind, Hpf.
  destruct (format_of_kind _ _ Hf) as (_ & _ & _ & ->). reflexivity.
Qed.

Lemma save_tag_roundtrip (t : Texture) :
  filters_roundtrip t ->
  save_tag t ∈ TEXTURE_TAGS
  /\ 0 < save_tag t < 256
  /\ forall idx img,
       let t' := load_fields (save_tag t) idx img in
       magFilter t' = magFilter t /\ minFilter t' = minFilter t
       /\ linear t' = linear t /\ downscaling t' = downscaling t.
Proof.
  destruct t as [pf mag min lin down img]. unfold filters_roundtrip. cbn.
  intros [-> [-> | [-> ->]]]; [destruct lin|]; destruct down;
    (split; [unfold TEXTURE_TAGS; cbn; set_solver|]);
    (split; [cbn; lia|]); intros; repeat split; reflexivity.
Qed.

(** What [Texture.save] does with a texture that round-trips: the texture
    stays as it is and its record is appended. *)
Lemma Texture_save_roundtrip `{ImageResize} (t : Texture) (buf : list byte) :
  texture_roundtrips t ->
  Texture_save t buf true false
  = (t, buf ++ saveTag (save_tag t) (texture_payload t) []).
Proof.
  intros (Hfil & Hwf & Hw & Hh & f & Hpf & Hf & Hs).
  unfold Texture_save. rewrite saveTag_app.
  rewrite (corrected_format_roundtrip t f Hpf Hf).
  f_equal.
  - destruct t; cbn in *. subst. reflexivity.
  - f_equal. f_equal. unfold texture_payload.
    rewrite (corrected_format_roundtrip t f Hpf Hf).
    destruct (linear t); cbn [negb].
    + apply writePixels_linear.
    + apply writePixels_blockArrange. exact Hwf.
Qed.

Lemma load_fields_format (tag idx : Z) (img : Image) :
  _pixelFormat (load_fields tag idx img) = js_index PIXEL_FORMATS idx
  /\ image (load_fields tag idx img) = img.
Proof.
  unfold load_fields. destruct (tag_in [16; 19; 29] tag); [split; reflexivity|].
  destruct (tag =? 34); split; reflexivity.
Qed.

(** [Texture.load] reads back what [Texture.save] wrote. *)
Lemma load_texture_roundtrip (t : Texture) (rest : list byte) :
  texture_roundtrips t ->
  load_texture (save_tag t) true (texture_payload t ++ rest) = Ok (t, rest).
Proof.
  intros (Hfil & Hwf & Hw & Hh & f & Hpf & Hf & Hs).
  destruct (format_of_kind _ _ Hf) as (Hidx & Hfmt & Hkind & _).
  destruct (save_tag_roundtrip t Hfil) as (_ & _ & Hfields).
  unfold load_texture, texture_payload.
  rewrite (corrected_format_roundtrip t f Hpf Hf), Hpf.
  rewrite writeUInt16_app, (writeUInt16_app _ (writeUInt8 _ _)), <- !app_assoc.
  rewrite readUInt8_write. cbn [mbind result_bind].
  rewrite readUInt16_write. cbn [mbind result_bind].
  rewrite readUInt16_write. cbn [mbind result_bind].
  rewrite !Z.mod_small by lia. rewrite !Nat2Z.id.
  cbn zeta. rewrite Hkind. cbn [default from_option id].
  rewrite new_Image_Ok by lia. cbn [mbind result_bind].
  set (img0 := blank_Image (width (image t)) (height (image t)) (kind (image t))).
  destruct (Hfields (PIXEL_FORMATS_indexOf (Some f)) img0)
    as (Hmag & Hmin & Hlin & Hdown).
  cbn zeta in Hmag, Hmin, Hlin, Hdown. rewrite Hmag, Hmin, Hlin, Hdown.
  assert (Hpf' : _pixelFormat (load_fields (save_tag t) (PIXEL_FORMATS_indexOf (Some f))
                                 img0) = Some f).
  { rewrite (proj1 (load_fields_format _ _ _)). exact Hfmt. }
  assert (Himg : image (load_fields (save_tag t) (PIXEL_FORMATS_indexOf (Some f)) img0)
                 = img0).
  { apply load_fields_format. }
  rewrite Hpf', Himg. cbn [PIXEL_READ_FUNCTIONS]. unfold img0.
  rewrite (readPixels_roundtrip f (image t) (image t)); auto.
  - cbn [mbind result_bind]. destruct t; cbn in *. subst. reflexivity.
  - intros [x y] Hin. destruct (linear t).
    + apply linear_walk_In in Hin. exact Hin.
    + apply block_walk_In in Hin. exact Hin.
  - intros x y Hx Hy. destruct (linear t).
    + apply linear_walk_In. auto.
    + apply block_walk_In. auto.
Qed.

(** ** Block-layout textures through [save] and [load] *)












(** C8 as stated fails: a block-layout texture with the filters NEAREST /
    NEAREST is written in block order under tag 34, which [Texture.load]
    reads row by row, so the pixel of (0, 1) arrives at (32, 0).  Under a
    block-layout tag the pixels do come back at their coordinates, but not
    from every texture: an image without pixels is refused on load, a pixel
    format that is not of the image's channel layout leaves a header and
    pixels that do not fit each other, and a transparent pixel comes back
    as zeros. *)
Lemma block_layout_not_always_restored :
  (linear nearest_block_texture = false
   /\ (@Texture_save nearest_half nearest_block_texture [] true false).2
      = saveTag 34 (texture_payload nearest_block_texture) []
   /\ exists t',
        load_texture 34 true (texture_payload nearest_block_texture) = Ok (t', [])
        /\ linear t' = true
        /\ getPixelXY (image nearest_block_texture) 32 0 = [x20; x10; x20; xff]
        /\ getPixelXY (image nearest_block_texture) 0 1 = [x21; x10; x20; xff]
        /\ getPixelXY (image t') 32 0 = [x21; x10; x20; xff])
  /\ ((@Texture_save nearest_half empty_block_texture [] true false).2
      = saveTag 28 (texture_payload empty_block_texture) []
      /\ load_texture 28 true (texture_payload empty_block_texture) = Err RangeError)
  /\ ((@Texture_save nearest_half misformatted_block_texture [] true false).2
      = saveTag 28 [x0a; x01; x00; x01; x00; x01; x02; x03; xff] []
      /\ load_texture 28 true [x0a; x01; x00; x01; x00; x01; x02; x03; xff]
         = Ok (mkTexture (Some GL_LUMINANCE8) GL_LINEAR GL_NEAREST false true
                 (mkImage 1 1 GREY [[x01]]),
               [x02; x03; xff]))
  /\ ((@Texture_save nearest_half transparent_block_texture [] true false).2
      = saveTag 28 (texture_payload transparent_block_texture) []
      /\ load_texture 28 true (texture_payload transparent_block_texture)
         = Ok (mkTexture (Some GL_RGBA8) GL_LINEAR GL_NEAREST false true
                 (mkImage 1 1 RGBA [[x00; x00; x00; x00]]),
               [])).
Proof.
  split; [|split; [|split]].
  - split; [reflexivity|]. split; [vm_compute; reflexivity|].
    eexists. split; [vm_compute; reflexivity|].
    repeat split; vm_compute; reflexivity.
  - split; vm_compute; reflexivity.
  - split; vm_compute; reflexivity.
  - split; vm_compute; reflexivity.
Qed.

(** ** Round trip of the tag stream *)

Lemma saveTextureList_roundtrip `{ImageResize} (ts : list Texture) (buf : list byte) :
  Forall texture_roundtrips ts ->
  saveTextureList ts buf true false = (ts, buf ++ texture_records ts).
Proof.
  intros Hts. revert buf. induction Hts as [|t ts Ht Hts IH]; intros buf.
  - cbn. rewrite app_nil_r. reflexivity.
  - cbn [saveTextureList]. rewrite (Texture_save_roundtrip t buf Ht), IH.
    unfold texture_records. cbn [flat_map]. rewrite <- app_assoc. reflexivity.
Qed.

(** The header of a tag record, read back. *)
Lemma read_tag_header (tag : Z) (payload rest : list byte) :
  0 <= tag < 256 ->
  exists len,
    readUInt8 (saveTag tag payload [] ++ rest)
    = Ok (tag, writeInt32 (Z.of_nat (length payload)) [] ++ payload ++ rest)
    /\ readInt32 (writeInt32 (Z.of_nat (length payload)) [] ++ payload ++ rest)
       = Ok (len, payload ++ rest).
Proof.
  intros Htag. unfold saveTag.
  rewrite writeInt32_app, <- !app_assoc. rewrite readUInt8_write, Z.mod_small by lia.
  unfold readInt32, writeInt32. rewrite app_nil_l.
  rewrite (readBytes_app_n 4) by apply length_le_bytes.
  cbn [mbind result_bind]. eexists. split; reflexivity.
Qed.

Lemma peek_saveTag (tag : Z) (payload rest : list byte) :
  0 <= tag < 256 -> peek_tag (saveTag tag payload [] ++ rest) = Some tag.
Proof.
  intros Htag. destruct (read_tag_header tag payload rest Htag) as (len & E8 & E32).
  unfold peek_tag. rewrite E8, E32. reflexivity.
Qed.

(** Open the header of the record at the cursor of a turn. *)
Ltac open_record tag payload rest :=
  let len := fresh "len" in
  let E8 := fresh "E8" in
  let E32 := fresh "E32" in
  destruct (read_tag_header tag payload rest ltac:(lia)) as (len & E8 & E32);
  unfold parseTag; cbn [this buffer set_buffer priv loc];
  rewrite E8; cbn [mbind result_bind]; rewrite E32; cbn [mbind result_bind].



Lemma turns_one `{RecordHandlers} (st st1 : ParseState) (tag : Z) :
  peek_tag (buffer (this st)) = Some tag ->
  parseTag st = Ok (true, st1) ->
  turns st [tag] st1.
Proof. intros Hpeek Hturn. eapply turns_cons; [exact Hpeek|exact Hturn|apply turns_nil]. Qed.

Lemma turns_app `{RecordHandlers} (st st1 st2 : ParseState) (ids1 ids2 : list Z) :
  turns st ids1 st1 -> turns st1 ids2 st2 -> turns st (ids1 ++ ids2) st2.
Proof.
  induction 1 as [st|st sta stb tag ids Hpeek Hturn Hturns IH]; intros H2; [exact H2|].
  cbn [app]. eapply turns_cons; [exact Hpeek|exact Hturn|]. apply IH, H2.
Qed.

(** More fuel does not change a result. *)
Lemma parseTags_loop_more `{RecordHandlers} (fuel fuel' : nat) (st r : ParseState) :
  parseTags_loop fuel st = Ok r -> (fuel <= fuel')%nat -> parseTags_loop fuel' st = Ok r.
Proof.
  revert fuel' st. induction fuel as [|fuel IH]; intros fuel' st; [discriminate|].
  intros Hrun Hle. destruct fuel' as [|fuel']; [lia|].
  cbn [parseTags_loop] in *.
  destruct (parseTag st) as [[read st1]|e]; [|discriminate].
  cbn [mbind result_bind] in *. destruct read; [|exact Hrun].
  apply (IH fuel' st1 Hrun). lia.
Qed.

(** A run that ends with a turn on the terminator is the outcome of the
    loop for every bound above its length. *)
Lemma turns_result `{RecordHandlers} (st st1 st2 : ParseState) (ids : list Z) (fuel : nat) :
  turns st ids st1 ->
  parseTag st1 = Ok (false, st2) ->
  (length ids < fuel)%nat ->
  parseTags_loop fuel st = Ok st2.
Proof.
  intros Hturns Hlast Hfuel.
  apply (parseTags_loop_more (length ids + 1)); [|lia].
  rewrite (turns_loop _ _ _ _ Hturns). cbn [parseTags_loop].
  rewrite Hlast. reflexivity.
Qed.

Lemma parseTag_terminator `{RecordHandlers} (swf : SupercellSWF) (c : Counts) (l : Locals)
    (rest : list byte) :
  parseTag (mkParse (set_buffer (saveTag 0 [] [] ++ rest) swf) c l)
  = Ok (false, mkParse (set_buffer rest swf) c l).
Proof. open_record 0 (@nil byte) rest. reflexivity. Qed.

Lemma parseTag_marker_23 `{RecordHandlers} (swf : SupercellSWF) (c : Counts) (l : Locals)
    (rest : list byte) :
  parseTag (mkParse (set_buffer (saveTag 23 [] [] ++ rest) swf) c l)
  = Ok (true, mkParse (set_useLowresTexture true (set_buffer rest swf)) c l).
Proof. open_record 23 (@nil byte) rest. reflexivity. Qed.

Lemma parseTag_marker_30 `{RecordHandlers} (swf : SupercellSWF) (c : Counts) (l : Locals)
    (rest : list byte) :
  parseTag (mkParse (set_buffer (saveTag 30 [] [] ++ rest) swf) c l)
  = Ok (true, mkParse (set_useUncommonTexture true (set_buffer rest swf)) c l).
Proof. open_record 30 (@nil byte) rest. reflexivity. Qed.

Lemma length_list_byte_of_string (s : string) :
  length (list_byte_of_string s) = String.length s.
Proof.
  unfold list_byte_of_string. rewrite length_map.
  induction s as [|a s IH]; [reflexivity|]. cbn. rewrite IH. reflexivity.
Qed.

Lemma readASCII_write (s : string) (rest : list byte) :
  s <> ""%string -> (String.length s < 255)%nat ->
  readASCII (writeASCII s [] ++ rest) = Ok (s, rest).
Proof.
  intros Hne Hlen. destruct s as [|a s]; [congruence|].
  unfold writeASCII, readASCII. rewrite app_nil_l.
  replace (byte_of_Z (Z.of_nat (String.length (String a s))) :: list_byte_of_string (String a s))
    with (writeUInt8 (Z.of_nat (String.length (String a s))) []
          ++ list_byte_of_string (String a s))
    by (unfold writeUInt8, le_bytes; cbn [map seq app]; rewrite Z.div_1_r; reflexivity).
  rewrite <- app_assoc, readUInt8_write. cbn [mbind result_bind].
  rewrite Z.mod_small by lia.
  destruct (Z.eqb_spec (Z.of_nat (String.length (String a s))) 255) as [E|_]; [lia|].
  rewrite Nat2Z.id, (readBytes_app_n _ _ _ (length_list_byte_of_string _)).
  cbn [mbind result_bind]. rewrite string_of_list_byte_of_string. reflexivity.
Qed.

Lemma parseTag_postfix `{RecordHandlers} (swf : SupercellSWF) (c : Counts) (l : Locals)
    (hi lo : string) (rest : list byte) :
  hi <> ""%string -> lo <> ""%string ->
  (String.length hi < 255)%nat -> (String.length lo < 255)%nat ->
  parseTag (mkParse (set_buffer (saveTag 32 (writeASCII lo (writeASCII hi [])) [] ++ rest)
                       swf) c l)
  = Ok (true, mkParse (set_postfixes hi lo (set_buffer rest swf)) c l).
Proof.
  intros Hhi Hlo Lhi Llo.
  open_record 32 (writeASCII lo (writeASCII hi [])) rest.
  rewrite (writeASCII_app lo), <- app_assoc.
  rewrite (readASCII_write hi _ Hhi Lhi). cbn [mbind result_bind].
  rewrite (readASCII_write lo _ Hlo Llo). cbn [mbind result_bind].
  destruct (String.eqb_spec hi "") as [|_]; [contradiction|].
  destruct (String.eqb_spec lo "") as [|_]; [contradiction|].
  reflexivity.
Qed.

Lemma length_saveTag (tag : Z) (payload : list byte) :
  length (saveTag tag payload []) = (5 + length payload)%nat.
Proof.
  unfold saveTag, writeInt32, writeUInt8.
  rewrite !length_app, !length_le_bytes. reflexivity.
Qed.

Lemma length_texture_records (ts : list Texture) :
  (length ts <= length (texture_records ts))%nat.
Proof.
  induction ts as [|t ts IH]; [cbn; lia|].
  unfold texture_records in *. cbn [flat_map length].
  rewrite length_app, length_saveTag. lia.
Qed.

(** ** Round trip of a document *)

Lemma idsOf_empty (is_kind : Resource -> bool) : idsOf is_kind [] = [].
Proof. reflexivity. Qed.

Lemma savePostfix_bytes (swf : SupercellSWF) :
  savePostfix swf = set_buffer (buffer swf ++ postfix_bytes swf) swf.
Proof.
  unfold savePostfix, postfix_bytes.
  destruct (_ && _).
  - rewrite saveTag_app. reflexivity.
  - rewrite app_nil_r. destruct swf; reflexivity.
Qed.

Lemma saveMarkers_bytes (swf : SupercellSWF) :
  saveMarkers swf = set_buffer (buffer swf ++ marker_bytes swf) swf.
Proof.
  unfold saveMarkers, marker_bytes.
  destruct swf as [comp ext unc low exps texs hi lo bks res buf]. cbn.
  destruct low, unc, ext; cbn; rewrite ?app_nil_r, <- ?app_assoc; reflexivity.
Qed.



Lemma turns_postfix `{RecordHandlers} (swf : SupercellSWF) (c : Counts) (l : Locals)
    (both : bool) (hi lo : string) (rest : list byte) :
  (both = true ->
   hi <> ""%string /\ lo <> ""%string
   /\ (String.length hi < 255)%nat /\ (String.length lo < 255)%nat) ->
  turns
    (mkParse (set_buffer ((if both then saveTag 32 (writeASCII lo (writeASCII hi [])) []
                           else []) ++ rest) swf) c l)
    (if both then [32] else [])
    (mkParse (set_buffer rest (if both then set_postfixes hi lo swf else swf)) c l).
Proof.
  intros Hboth. destruct both; [|apply turns_nil].
  destruct (Hboth eq_refl) as (Hhi & Hlo & Lhi & Llo).
  apply turns_one.
  - cbn [this buffer set_buffer]. apply peek_saveTag. lia.
  - rewrite (parseTag_postfix swf c l hi lo rest Hhi Hlo Lhi Llo). reflexivity.
Qed.

Lemma turns_marker_23 `{RecordHandlers} (swf : SupercellSWF) (c : Counts) (l : Locals)
    (flag : bool) (rest : list byte) :
  turns
    (mkParse (set_buffer ((if flag then saveTag 23 [] [] else []) ++ rest) swf) c l)
    (if flag then [23] else [])
    (mkParse (set_buffer rest (if flag then set_useLowresTexture true swf else swf)) c l).
Proof.
  destruct flag; [|apply turns_nil]. apply turns_one.
  - cbn [this buffer set_buffer]. apply peek_saveTag. lia.
  - rewrite parseTag_marker_23. reflexivity.
Qed.

Lemma turns_marker_30 `{RecordHandlers} (swf : SupercellSWF) (c : Counts) (l : Locals)
    (flag : bool) (rest : list byte) :
  turns
    (mkParse (set_buffer ((if flag then saveTag 30 [] [] else []) ++ rest) swf) c l)
    (if flag then [30] else [])
    (mkParse (set_buffer rest (if flag then set_useUncommonTexture true swf else swf)) c l).
Proof.
  destruct flag; [|apply turns_nil]. apply turns_one.
  - cbn [this buffer set_buffer]. apply peek_saveTag. lia.
  - rewrite parseTag_marker_30. reflexivity.
Qed.

Lemma writeUInt16_nested (a b : Z) (buf : list byte) :
  writeUInt16 a (writeUInt16 b buf) = writeUInt16 b buf ++ writeUInt16 a [].
Proof. reflexivity. Qed.

(** The header of a document of textures only, read back by [loadAsset]. *)
Lemma loadAsset_header `{Envelope} `{RecordHandlers} (path : string) (fs : FileSystem)
    (comp : COMPRESSION) (n : nat) (stream : list byte) :
  (forall m plain, fromCompressed (toCompressed m plain) = (m, plain)) ->
  Z.of_nat n < 65536 ->
  loadAsset path (<[path := toCompressed comp (header_bytes n ++ stream)]> fs)
    new_SupercellSWF new_Counts
  = parseTags
      (mkSWF comp false false false [] (replicate n new_Texture) "_highres" "_lowres"
             [new_TransformBank] [] stream)
      new_Counts.
Proof.
  intros Henv Hn. unfold loadAsset. rewrite lookup_insert_eq, Henv.
  cbn [buffer set_buffer set_compression set_textures new_SupercellSWF].
  unfold header_bytes.
  rewrite !writeUInt16_nested, <- !app_assoc.
  rewrite readUInt16_write. cbn [mbind result_bind].
  rewrite readUInt16_write. cbn [mbind result_bind].
  rewrite readUInt16_write. cbn [mbind result_bind].
  rewrite readUInt16_write. cbn [mbind result_bind].
  unfold TransformBank_load. cbn [buffer set_buffer].
  rewrite readUInt16_write. cbn [mbind result_bind].
  rewrite readUInt16_write. cbn [mbind result_bind].
  unfold skip. cbn [buffer set_buffer set_banks Z.ltb Z.compare].
  rewrite (readBytes_app_n 5) by reflexivity. cbn [mbind result_bind].
  unfold Exports_load. cbn [buffer set_buffer].
  rewrite readUInt16_write. cbn [mbind result_bind].
  rewrite !Z.mod_small by lia. rewrite Nat2Z.id.
  reflexivity.
Qed.



Lemma stored_envelope_inverse (m : COMPRESSION) (plain : list byte) :
  @fromCompressed stored_envelope (@toCompressed stored_envelope m plain) = (m, plain).
Proof. destruct m; reflexivity. Qed.


Ltac survives_all :=
  apply Forall_forall; intros p Hp; vm_compute in Hp;
  repeat (apply elem_of_cons in Hp as [->|Hp]; [reflexivity|]);
  apply elem_of_nil in Hp; destruct Hp.


(** ** Scenarios of section 8 of the specification *)

(** S1: the minimal empty document is written as 24 zero bytes: four counts,
    the two counts of the primary bank, five reserved bytes, the exports
    count and the terminator tag. *)
Example minimal_document_bytes :
  buffer (@saveAsset_buffer nearest_half empty_records new_SupercellSWF)
  = replicate 24 x00.
Proof. reflexivity. Qed.

(** S2 and S3: one 2 by 2 RGBA8 texture is written as a tag 1 record with a
    payload of 21 bytes, and the block layout orders the four pixels as the
    linear layout does. *)
Example small_texture_record :
  let img := mkImage 2 2 RGBA [[x01; x02; x03; xff]; [x04; x05; x06; xff];
                               [x07; x08; x09; xff]; [x0a; x0b; x0c; xff]] in
  let t := mkTexture (Some GL_RGBA8) GL_LINEAR GL_NEAREST true true img in
  let t' := mkTexture (Some GL_RGBA8) GL_LINEAR GL_NEAREST false true img in
  (@Texture_save nearest_half t [] true false).2
  = [x01; x15; x00; x00; x00;
     x00; x02; x00; x02; x00;
     x01; x02; x03; xff; x04; x05; x06; xff; x07; x08; x09; xff; x0a; x0b; x0c; xff]
  /\ drop 5 (@Texture_save nearest_half t' [] true false).2
     = drop 5 (@Texture_save nearest_half t [] true false).2.
Proof. split; reflexivity. Qed.

(** ** Textures that fit in one column of blocks *)

Lemma flat_map_nil_const {A B : Type} (l : list A) :
  flat_map (fun _ : A => @nil B) l = [].
Proof. induction l as [|a l IH]; [reflexivity|exact IH]. Qed.

Lemma flat_map_flat_map {A B C : Type} (f : A -> list B) (g : B -> list C) (l : list A) :
  flat_map g (flat_map f l) = flat_map (fun a => flat_map g (f a)) l.
Proof.
  induction l as [|a l IH]; [reflexivity|].
  cbn [flat_map]. rewrite flat_map_app, IH. reflexivity.
Qed.

Lemma flat_map_singleton_map {A B : Type} (f : A -> B) (l : list A) :
  flat_map (fun a => [f a]) l = map f l.
Proof. induction l as [|a l IH]; [reflexivity|]. cbn. rewrite IH. reflexivity. Qed.

(** The rows of the blocks, block after block, are the rows of the image. *)
Lemma blocks_seq (n : nat) :
  flat_map (fun b => map (fun i => (b * blockSize + i)%nat)
                       (seq 0 (Nat.min blockSize (n - b * blockSize))))
           (seq 0 (n / blockSize + 1))
  = seq 0 n.
Proof.
  unfold blockSize.
  pose proof (Nat.Div0.mul_div_le n 32) as Hd.
  pose proof (Nat.div_mod_eq n 32) as He.
  pose proof (Nat.mod_upper_bound n 32 ltac:(lia)) as Hm.
  assert (Hfull : forall q, (q <= n / 32)%nat ->
            flat_map (fun b => map (fun i => (b * 32 + i)%nat)
                                 (seq 0 (Nat.min 32 (n - b * 32))))
                     (seq 0 q)
            = seq 0 (q * 32)).
  { induction q as [|q IH]; intros Hq; [reflexivity|].
    rewrite seq_S, flat_map_app, IH by lia. cbn [flat_map]. rewrite app_nil_r.
    replace (Nat.min 32 (n - (0 + q) * 32)) with 32%nat by lia.
    rewrite map_offset_seq.
    replace (S q * 32)%nat with (q * 32 + 32)%nat by lia.
    rewrite seq_app. f_equal. f_equal. lia. }
  rewrite Nat.add_1_r, seq_S, flat_map_app, Hfull by lia.
  cbn [flat_map]. rewrite app_nil_r, map_offset_seq.
  replace (Nat.min 32 (n - (0 + n / 32) * 32)) with (n mod 32)%nat by lia.
  replace n with (n / 32 * 32 + n mod 32)%nat at 4 by lia.
  rewrite seq_app. f_equal. f_equal. lia.
Qed.

Lemma block_walk_narrow (w h : nat) :
  (w <= blockSize)%nat -> block_walk w h = linear_walk w h.
Proof.
  intros Hw. rewrite block_walk_unfold. unfold linear_walk.
  rewrite <- (blocks_seq h). rewrite flat_map_flat_map.
  apply flat_map_ext. intros yb.
  transitivity
    (flat_map (fun y =>
       flat_map (fun x => [((0 * blockSize + x)%nat, (yb * blockSize + y)%nat)])
                (seq 0 (Nat.min blockSize (w - 0 * blockSize))))
       (seq 0 (Nat.min blockSize (h - yb * blockSize)))).
  - unfold blockSize in *.
    destruct (Nat.eq_dec w 32%nat) as [->|Hne].
    + change (32 / 32 + 1)%nat with 2%nat. cbn [seq flat_map].
      rewrite app_nil_r.
      replace (Nat.min 32 (32 - 1 * 32)) with 0%nat by lia.
      cbn [seq flat_map]. rewrite flat_map_nil_const, app_nil_r. reflexivity.
    + replace (w / 32)%nat with 0%nat by (symmetry; apply Nat.div_small; lia).
      cbn [Nat.add seq flat_map]. rewrite app_nil_r. reflexivity.
  - replace (Nat.min blockSize (w - 0 * blockSize)) with w by (unfold blockSize in *; lia).
    rewrite flat_map_map.
    apply flat_map_ext. intros y. cbn [Nat.mul Nat.add].
    apply flat_map_singleton_map.
Qed.

Lemma blockArrange_narrow (img : Image) :
  Image_wf img -> (width img <= blockSize)%nat -> blockArrange img = img.
Proof.
  intros Hwf Hw.
  destruct (blockArrange_data img Hwf) as (Hd & Hw' & Hh & Hk).
  rewrite (block_walk_narrow _ _ Hw), (linear_walk_pixels img Hwf) in Hd.
  destruct (blockArrange img) as [w' h' k' d'], img as [w h k d]. cbn in *.
  subst. reflexivity.
Qed.

(** X1: an image at most 32 pixels wide has a single column of blocks, so
    the block walk of [Texture.save] and [Texture.load] is the row-major walk
    whatever the height; the rearrangement of [save] leaves such an image as
    it is, and the record holds its pixels in row-major order, as for a
    linear texture. *)
Theorem block_layout_narrow_is_linear `{ImageResize} (this : Texture) (buffer : ScBuffer) :
  Image_wf (image this) ->
  (width (image this) <= 32)%nat ->
  let img := image this in
  (forall h, block_walk (width img) h = linear_walk (width img) h)
  /\ blockArrange img = img
  /\ (Texture_save this buffer true false).2
     = saveTag (save_tag this)
         (writeUInt16 (Z.of_nat (height img))
            (writeUInt16 (Z.of_nat (width img))
               (writeUInt8 (PIXEL_FORMATS_indexOf (_pixelFormat this)) []))
          ++ flat_map (fun c => writePixel (corrected_format this) []
                                  (zeroAlpha img (getPixelXY img c.1 c.2)))
               (linear_walk (width img) (height img)))
         buffer.
Proof.
  intros Hwf Hw img.
  split; [intros h; apply block_walk_narrow; exact Hw|].
  split; [apply blockArrange_narrow; assumption|].
  unfold Texture_save. cbn [snd].
  replace (if negb (linear this) then blockArrange (image this) else image this)
    with (image this)
    by (destruct (linear this); cbn [negb];
        [reflexivity|symmetry; apply blockArrange_narrow; assumption]).
  rewrite writePixels_flat_map. reflexivity.
Qed.

Lemma block_layout_narrow_is_linear_witness :
  Image_wf (mkImage 2 2 RGBA [[x01; x02; x03; xff]; [x04; x05; x06; xff];
                              [x07; x08; x09; xff]; [x0a; x0b; x0c; xff]])
  /\ block_walk 2 40 = linear_walk 2 40.
Proof.
  assert (Hwf : Image_wf (mkImage 2 2 RGBA [[x01; x02; x03; xff]; [x04; x05; x06; xff];
                                            [x07; x08; x09; xff]; [x0a; x0b; x0c; xff]]))
    by reflexivity.
  split; [exact Hwf|].
  exact (proj1 (@block_layout_narrow_is_linear nearest_half
                  (mkTexture (Some GL_RGBA8) GL_LINEAR GL_NEAREST false true
                     (mkImage 2 2 RGBA [[x01; x02; x03; xff]; [x04; x05; x06; xff];
                                        [x07; x08; x09; xff]; [x0a; x0b; x0c; xff]]))
                  [] Hwf ltac:(cbn; lia)) 40%nat).
Defined.

(** ** A pixel format that does not belong to the image *)

Lemma PIXEL_FORMATS_at_indexOf (f : PixelFormat) :
  js_index PIXEL_FORMATS (PIXEL_FORMATS_indexOf (Some f)) = Some f.
Proof. destruct f; reflexivity. Qed.

Lemma first_format_in_kind (k : ImageKind) : first_format k ∈ CHANNEL_FORMATS k.
Proof. destruct k; cbn; set_solver. Qed.

Lemma corrected_format_foreign (t : Texture) :
  (forall f, _pixelFormat t = Some f -> f ∉ CHANNEL_FORMATS (kind (image t))) ->
  corrected_format t = first_format (kind (image t)).
Proof.
  intros Hfor. unfold corrected_format. rewrite textureKind_kind.
  destruct (_pixelFormat t) as [f|] eqn:Ef.
  - rewrite PIXEL_FORMATS_at_indexOf. cbn [includes].
    rewrite bool_decide_false by (apply Hfor; reflexivity). reflexivity.
  - reflexivity.
Qed.

Lemma corrected_format_own (t : Texture) (f : PixelFormat) :
  _pixelFormat t = Some f -> f ∈ CHANNEL_FORMATS (kind (image t)) ->
  corrected_format t = f.
Proof.
  intros Ef Hin. unfold corrected_format. rewrite textureKind_kind, Ef.
  rewrite PIXEL_FORMATS_at_indexOf. cbn [includes].
  rewrite bool_decide_true by exact Hin. reflexivity.
Qed.

(** X2: when the pixel format of a texture is undefined or is not a format
    of the channel layout of its image, [Texture.save] takes the first format
    of the layout, keeps it in the texture and packs the pixels with it; the
    pixel type byte of the header is the index of the old value, which does
    not name the format used.  A second save of the texture writes the index
    of the new format before the same pixel bytes. *)
Theorem Texture_save_foreign_format `{ImageResize} (this : Texture) (buffer : ScBuffer)
    (isLowres : bool) :
  (forall f, _pixelFormat this = Some f -> f ∉ CHANNEL_FORMATS (kind (image this))) ->
  let f0 := first_format (kind (image this)) in
  let img0 := if isLowres then resizeHalf (image this) else image this in
  let img := if negb (linear this) then blockArrange img0 else img0 in
  let pixels := flat_map (fun c => writePixel f0 [] (zeroAlpha img (getPixelXY img c.1 c.2)))
                  (linear_walk (width img) (height img)) in
  let header := fun idx => writeUInt16 (Z.of_nat (height img0))
                             (writeUInt16 (Z.of_nat (width img0)) (writeUInt8 idx [])) in
  let saved := Texture_save this buffer true isLowres in
  _pixelFormat saved.1 = Some f0
  /\ saved.2 = saveTag (save_tag this)
                 (header (PIXEL_FORMATS_indexOf (_pixelFormat this)) ++ pixels) buffer
  /\ js_index PIXEL_FORMATS (PIXEL_FORMATS_indexOf (_pixelFormat this)) <> Some f0
  /\ (Texture_save saved.1 buffer true isLowres).2
     = saveTag (save_tag this) (header (PIXEL_FORMATS_indexOf (Some f0)) ++ pixels) buffer.
Proof.
  intros Hfor f0 img0 img pixels header saved.
  pose proof (corrected_format_foreign this Hfor) as Hc. fold f0 in Hc.
  assert (Hsaved : saved = (mkTexture (Some f0) (magFilter this) (minFilter this)
                              (linear this) (downscaling this) (image this),
                            saveTag (save_tag this)
                              (header (PIXEL_FORMATS_indexOf (_pixelFormat this)) ++ pixels)
                              buffer)).
  { unfold saved, Texture_save. rewrite Hc. fold img0. fold img.
    rewrite writePixels_flat_map. reflexivity. }
  rewrite Hsaved. cbn [fst snd _pixelFormat].
  split; [reflexivity|]. split; [reflexivity|]. split.
  - destruct (_pixelFormat this) as [f|] eqn:Ef.
    + rewrite PIXEL_FORMATS_at_indexOf. intros [= Eq].
      apply (Hfor f eq_refl). rewrite Eq. apply first_format_in_kind.
    + discriminate.
  - unfold Texture_save.
    rewrite (corrected_format_own
               (mkTexture (Some f0) (magFilter this) (minFilter this)
                  (linear this) (downscaling this) (image this))
               f0 eq_refl (first_format_in_kind _)).
    cbn [snd image linear magFilter minFilter downscaling _pixelFormat save_tag].
    fold img0. fold img. rewrite writePixels_flat_map. reflexivity.
Qed.

Lemma Texture_save_foreign_format_witness :
  (forall f, Some GL_RGB565 = Some f -> f ∉ CHANNEL_FORMATS RGBA)
  /\ (@Texture_save nearest_half
        (mkTexture (Some GL_RGB565) GL_LINEAR GL_NEAREST true true
           (mkImage 1 1 RGBA [[x0a; x0b; x0c; xff]])) [] true false).2
     = [x01; x09; x00; x00; x00; x04; x01; x00; x01; x00; x0a; x0b; x0c; xff].
Proof.
  assert (Hfor : forall f, Some GL_RGB565 = Some f -> f ∉ CHANNEL_FORMATS RGBA).
  { intros f [= <-] Hin. cbn in Hin.
    repeat (apply elem_of_cons in Hin as [Hin|Hin]; [discriminate|]).
    apply elem_of_nil in Hin. exact Hin. }
  split; [exact Hfor|].
  rewrite (proj1 (proj2 (@Texture_save_foreign_format nearest_half
             (mkTexture (Some GL_RGB565) GL_LINEAR GL_NEAREST true true
                (mkImage 1 1 RGBA [[x0a; x0b; x0c; xff]])) [] false Hfor))).
  reflexivity.
Defined.

(** ** What a loaded texture looks like *)

Lemma readBytes_consumes (n : nat) (buf bs rest : list byte) :
  readBytes n buf = Ok (bs, rest) -> length buf = (n + length rest)%nat.
Proof.
  intros E. apply readBytes_length in E as [-> <-]. apply length_app.
Qed.

Lemma readUInt8_consumes (buf rest : list byte) (v : Z) :
  readUInt8 buf = Ok (v, rest) -> length buf = (1 + length rest)%nat.
Proof.
  unfold readUInt8. destruct (readBytes 1 buf) as [[bs b]|] eqn:E; [|discriminate].
  cbn [mbind result_bind]. intros [= _ <-]. exact (readBytes_consumes _ _ _ _ E).
Qed.

Lemma readUInt16_consumes (buf rest : list byte) (v : Z) :
  readUInt16 buf = Ok (v, rest) -> length buf = (2 + length rest)%nat.
Proof.
  unfold readUInt16. destruct (readBytes 2 buf) as [[bs b]|] eqn:E; [|discriminate].
  cbn [mbind result_bind]. intros [= _ <-]. exact (readBytes_consumes _ _ _ _ E).
Qed.

Ltac read_consumes rd lem :=
  match goal with
  | |- context [rd ?b] =>
      let E := fresh "E" in
      destruct (rd b) as [[? ?]|] eqn:E; [|discriminate];
      apply lem in E; cbn [mbind result_bind]
  end.

(** A pixel reader consumes the bytes of its packing and returns one value
    per channel of the kinds the packing belongs to. *)
Lemma readPixel_reads (f : PixelFormat) (buf rest : list byte) (p : Pixel) :
  readPixel f buf = Ok (p, rest) ->
  length buf = (bytes_per_pixel f + length rest)%nat
  /\ forall k, f ∈ CHANNEL_FORMATS k -> length p = channels k.
Proof.
  destruct f; unfold readPixel;
    repeat (first [read_consumes readUInt8 readUInt8_consumes
                  |read_consumes readUInt16 readUInt16_consumes]);
    intros [= <- <-]; (split; [cbn [bytes_per_pixel]; lia|]);
    intros k Hk; destruct k; cbn in Hk; try reflexivity; exfalso;
    repeat (apply elem_of_cons in Hk as [Hk|Hk]; [discriminate|]);
    apply elem_of_nil in Hk; exact Hk.
Qed.

(** The two tables indexed by the pixel type agree with [CHANNEL_FORMATS]. *)
Lemma PIXEL_tables_agree (idx : Z) (f : PixelFormat) :
  js_index PIXEL_FORMATS idx = Some f ->
  exists k, js_index PIXEL_CHANNELS idx = Some k /\ f ∈ CHANNEL_FORMATS k.
Proof.
  unfold js_index. destruct (idx <? 0); [discriminate|].
  generalize (Z.to_nat idx) as n. intros n.
  do 11 (destruct n as [|n];
         [cbn; intros [= <-]; eexists; split; [reflexivity|cbn; set_solver]|]).
  cbn. discriminate.
Qed.

Lemma readPixels_filled (pf : option PixelFormat) (cs : list (nat * nat)) (img img' : Image)
    (buf rest : list byte) :
  readPixels (PIXEL_READ_FUNCTIONS pf) cs img buf = Ok (img', rest) ->
  width img' = width img /\ height img' = height img /\ kind img' = kind img
  /\ length (data img') = length (data img)
  /\ (pf = None -> cs = [] /\ buf = rest)
  /\ forall f, pf = Some f ->
       length buf = (length cs * bytes_per_pixel f + length rest)%nat
       /\ forall i p, data img' !! i = Some p ->
            (forall k, f ∈ CHANNEL_FORMATS k -> length p = channels k)
            \/ (data img !! i = Some p /\ ~ In i (map (pixel_index (width img)) cs)).
Proof.
  revert img buf. induction cs as [|[x y] cs IH]; intros img buf.
  - cbn. intros [= <- <-].
    split; [reflexivity|]. split; [reflexivity|]. split; [reflexivity|].
    split; [reflexivity|]. split; [auto|].
    intros f _. split; [reflexivity|]. intros i p Hp. right. auto.
  - cbn [readPixels].
    destruct (PIXEL_READ_FUNCTIONS pf buf) as [[p0 b1]|] eqn:E; [|discriminate].
    cbn [mbind result_bind]. intros Hrun.
    destruct (IH _ _ Hrun) as (Hw & Hh & Hk & Hl & Hnone & Hsome).
    rewrite Hw, Hh, Hk, Hl. rewrite setPixelXY_data, length_insert.
    cbn [setPixelXY width height kind].
    split; [reflexivity|]. split; [reflexivity|]. split; [reflexivity|].
    split; [reflexivity|]. split.
    { intros ->. cbn in E. discriminate. }
    intros f ->. cbn in E. apply readPixel_reads in E as [Econs Elen].
    destruct (Hsome f eq_refl) as [Hlen Hdata].
    split; [cbn [length]; lia|].
    intros i p Hp. destruct (Hdata i p Hp) as [Hread|[Hold Hnin]]; [left; exact Hread|].
    rewrite setPixelXY_data in Hold. cbn [setPixelXY width] in Hnin.
    destruct (Nat.eq_dec (pixel_index (width img) (x, y)) i) as [Ei|Ni].
    + subst i. left.
      destruct (Nat.lt_ge_cases (pixel_index (width img) (x, y)) (length (data img)))
        as [Hlt|Hge].
      * rewrite list_lookup_insert_eq in Hold by exact Hlt.
        injection Hold as <-. exact Elen.
      * rewrite lookup_ge_None_2 in Hold by (rewrite length_insert; exact Hge).
        discriminate.
    + right. rewrite list_lookup_insert_ne in Hold by exact Ni.
      split; [exact Hold|]. cbn [map]. intros [Hin|Hin]; [exact (Ni Hin)|exact (Hnin Hin)].
Qed.

Lemma walk_In (lin : bool) (w h x y : nat) :
  In (x, y) ((if lin then linear_walk else block_walk) w h) <-> (x < w)%nat /\ (y < h)%nat.
Proof. destruct lin; [apply linear_walk_In|apply block_walk_In]. Qed.

Lemma length_walk (lin : bool) (w h : nat) :
  length ((if lin then linear_walk else block_walk) w h) = (w * h)%nat.
Proof. destruct lin; [apply length_linear_walk|apply length_block_walk]. Qed.

(** X3: a successful [Texture.load] with pixel data leaves a well-formed
    image with a positive width and height, and the pixel type index of the
    record names a format (a size of 0 and an index that names no format make
    [load] raise).  The format belongs to the channel layout of the image,
    every pixel has as many channels as the layout, the record took five
    header bytes and the bytes of width times height pixels from the buffer,
    and a later save keeps the format. *)
Theorem Texture_load_wellformed (tag : Z) (buf rest : ScBuffer) (t : Texture) :
  load_texture tag true buf = Ok (t, rest) ->
  Image_wf (image t)
  /\ (0 < width (image t))%nat /\ (0 < height (image t))%nat
  /\ exists f, _pixelFormat t = Some f
       /\ f ∈ CHANNEL_FORMATS (kind (image t))
       /\ Forall (fun p => length p = channels (kind (image t))) (data (image t))
       /\ length buf
          = (5 + width (image t) * height (image t) * bytes_per_pixel f + length rest)%nat
       /\ corrected_format t = f.
Proof.
  unfold load_texture.
  destruct (readUInt8 buf) as [[idx b1]|] eqn:E1; [|discriminate].
  cbn [mbind result_bind].
  destruct (readUInt16 b1) as [[w b2]|] eqn:E2; [|discriminate].
  cbn [mbind result_bind].
  destruct (readUInt16 b2) as [[h b3]|] eqn:E3; [|discriminate].
  cbn [mbind result_bind].
  apply readUInt8_consumes in E1. apply readUInt16_consumes in E2, E3.
  cbn zeta.
  destruct (new_Image (Z.to_nat w) (Z.to_nat h)
              (default RGBA (js_index PIXEL_CHANNELS idx))) as [img0|] eqn:E0;
    [|discriminate].
  cbn [mbind result_bind].
  apply new_Image_inv in E0 as (Hwpos & Hhpos & ->).
  destruct (load_fields_format tag idx
              (blank_Image (Z.to_nat w) (Z.to_nat h)
                 (default RGBA (js_index PIXEL_CHANNELS idx)))) as [Hpf Himg].
  set (lf := load_fields tag idx _) in *.
  destruct (readPixels _ _ _ _) as [[img b4]|] eqn:Erun; [|discriminate].
  cbn [mbind result_bind]. intros [= <- <-]. cbn [image _pixelFormat].
  apply readPixels_filled in Erun as (Hw & Hh & Hk & Hl & Hnone & Hsome).
  rewrite Himg in Hw, Hh, Hk, Hl. cbn [blank_Image width height kind data] in Hw, Hh, Hk, Hl.
  rewrite length_replicate in Hl.
  assert (Hwf : Image_wf img) by (unfold Image_wf; rewrite Hl, Hw, Hh; reflexivity).
  split; [exact Hwf|]. rewrite Hw, Hh. split; [exact Hwpos|]. split; [exact Hhpos|].
  rewrite Hpf in Hnone, Hsome |- *.
  destruct (js_index PIXEL_FORMATS idx) as [f|] eqn:Hf.
  2:{ exfalso. destruct (Hnone eq_refl) as [Hcs _].
      apply (f_equal (@length _)) in Hcs. rewrite length_walk in Hcs.
      cbn [length] in Hcs. nia. }
  exists f. split; [reflexivity|].
  destruct (Hsome f eq_refl) as [Hlen Hdata].
  rewrite length_walk in Hlen.
  destruct (PIXEL_tables_agree idx f Hf) as (k & Hkind & Hin).
  rewrite Hkind in Hk. cbn [default from_option id] in Hk. rewrite Hk.
  assert (Hall : Forall (fun p => length p = channels k) (data img)).
  { apply Forall_forall. intros p Hp. apply list_elem_of_lookup_1 in Hp as [i Hi].
    destruct (Hdata i p Hi) as [Hread|[_ Hnin]]; [exact (Hread k Hin)|].
    exfalso. apply Hnin.
    rewrite Himg. cbn [blank_Image width].
    apply (pixel_index_covered _ (Z.to_nat h)).
    - intros x y Hx Hy. apply walk_In. auto.
    - apply lookup_lt_Some in Hi. lia. }
  split; [exact Hin|]. split; [exact Hall|]. split; [lia|].
  apply corrected_format_own; [reflexivity|].
  cbn [image]. rewrite Hk. exact Hin.
Qed.

Lemma Texture_load_wellformed_witness :
  load_texture 27 true [x04; x01; x00; x01; x00; x0a; x0b; x0c]
  = Ok (mkTexture (Some GL_RGB565) GL_LINEAR GL_NEAREST false false
          (mkImage 1 1 RGB [[x08; x61; x52]]), [x0c])
  /\ Image_wf (mkImage 1 1 RGB [[x08; x61; x52]]).
Proof.
  assert (Hload : load_texture 27 true [x04; x01; x00; x01; x00; x0a; x0b; x0c]
                  = Ok (mkTexture (Some GL_RGB565) GL_LINEAR GL_NEAREST false false
                          (mkImage 1 1 RGB [[x08; x61; x52]]), [x0c]))
    by (vm_compute; reflexivity).
  split; [exact Hload|].
  exact (proj1 (Texture_load_wellformed _ _ _ _ Hload)).
Defined.

(** ** The cases of the tag loop *)

Lemma read_header_bytes (tag : byte) (len body : list byte) :
  length len = 4%nat ->
  exists v, readUInt8 (tag :: len ++ body) = Ok (Z_of_byte tag, len ++ body)
            /\ readInt32 (len ++ body) = Ok (v, body).
Proof.
  intros Hlen. unfold readUInt8, readInt32.
  rewrite (readBytes_app_n 4 len body Hlen).
  cbn [mbind result_bind]. eexists. split; [|reflexivity].
  unfold readBytes. cbn [length Nat.ltb Nat.leb take drop mbind result_bind le_value].
  rewrite Z.mul_0_r, Z.add_0_r. reflexivity.
Qed.

Lemma not_case_tag (tag : Z) :
  tag ∉ CASE_TAGS ->
  (tag =? 0) = false /\ tag_in TEXTURE_TAGS tag = false
  /\ (tag =? 23) = false /\ (tag =? 26) = false /\ (tag =? 30) = false
  /\ (tag =? 32) = false /\ tag_in SHAPE_TAGS tag = false
  /\ tag_in MOVIECLIP_TAGS tag = false /\ tag_in TEXTFIELD_TAGS tag = false
  /\ tag_in MATRIX_TAGS tag = false /\ (tag =? 9) = false /\ (tag =? 37) = false
  /\ tag_in MODIFIER_TAGS tag = false /\ (tag =? 42) = false.
Proof.
  intros Hnot. unfold CASE_TAGS in Hnot. rewrite !elem_of_app in Hnot.
  unfold tag_in.
  repeat split;
    first [ apply Z.eqb_neq; intros ->; apply Hnot; set_solver
          | apply bool_decide_eq_false; intros Hin; apply Hnot; tauto ].
Qed.

(** An unknown tag id: the payload is skipped and nothing else changes. *)
Lemma parseTag_unknown `{RecordHandlers} (st : ParseState) (tag len : Z) (b1 b2 : list byte) :
  readUInt8 (buffer (this st)) = Ok (tag, b1) ->
  readInt32 b1 = Ok (len, b2) ->
  tag ∉ CASE_TAGS ->
  parseTag st
  = b3 ← skip len b2;
    Ok (true, mkParse (set_buffer b3 (set_buffer b2 (this st))) (priv st) (loc st)).
Proof.
  intros E8 E32 Hnot.
  destruct (not_case_tag tag Hnot)
    as (T0 & Ttex & T23 & T26 & T30 & T32 & Tsh & Tmc & Ttf & Tmx & T9 & T37 & Tmod & T42).
  unfold parseTag. rewrite E8. cbn [mbind result_bind]. rewrite E32.
  cbn [mbind result_bind].
  rewrite T0, Ttex, T23, T26, T30, T32, Tsh, Tmc, Ttf, Tmx, T9, T37, Tmod, T42.
  reflexivity.
Qed.

(** X5: a tag id without a case in the [switch] of the tag loop is skipped:
    the turn takes the tag byte, the length and as many bytes as the length
    says, changes nothing else and lets the loop go on. *)
Theorem unknown_tag_skipped `{RecordHandlers} (swf : SupercellSWF) (c : Counts) (l : Locals)
    (tag : Z) (payload rest : list byte) :
  0 <= tag < 256 ->
  tag ∉ CASE_TAGS ->
  Z.of_nat (length payload) < 2 ^ 31 ->
  parseTag (mkParse (set_buffer (saveTag tag payload [] ++ rest) swf) c l)
  = Ok (true, mkParse (set_buffer rest swf) c l).
Proof.
  intros Htag Hnot Hlen.
  assert (E8 : readUInt8 (saveTag tag payload [] ++ rest)
               = Ok (tag, writeInt32 (Z.of_nat (length payload)) [] ++ payload ++ rest)).
  { unfold saveTag. rewrite writeInt32_app, <- !app_assoc.
    rewrite readUInt8_write, Z.mod_small by lia. reflexivity. }
  assert (E32 : readInt32 (writeInt32 (Z.of_nat (length payload)) [] ++ payload ++ rest)
                = Ok (Z.of_nat (length payload), payload ++ rest))
    by (apply readInt32_write; lia).
  rewrite (parseTag_unknown
             (mkParse (set_buffer (saveTag tag payload [] ++ rest) swf) c l)
             tag _ _ _ E8 E32 Hnot).
  cbn [this priv loc].
  unfold skip. destruct (Z.ltb_spec (Z.of_nat (length payload)) 0) as [|_]; [lia|].
  rewrite Nat2Z.id, readBytes_app. reflexivity.
Qed.

Lemma unknown_tag_skipped_witness :
  (0 <= 99 < 256) /\ (99 ∉ CASE_TAGS)
  /\ @parseTag empty_records
       (mkParse (set_buffer [x63; x02; x00; x00; x00; xaa; xbb; x00; x00; x00; x00; x00]
                   new_SupercellSWF) new_Counts new_Locals)
     = Ok (true, mkParse (set_buffer [x00; x00; x00; x00; x00] new_SupercellSWF)
                   new_Counts new_Locals).
Proof.
  assert (Hr : 0 <= 99 < 256) by lia.
  assert (Hnot : 99 ∉ CASE_TAGS).
  { intros Hin. vm_compute in Hin.
    repeat (apply elem_of_cons in Hin as [Hin|Hin]; [discriminate|]).
    apply elem_of_nil in Hin. exact Hin. }
  split; [exact Hr|]. split; [exact Hnot|].
  exact (@unknown_tag_skipped empty_records new_SupercellSWF new_Counts new_Locals 99
           [xaa; xbb] [x00; x00; x00; x00; x00] Hr Hnot ltac:(cbn; lia)).
Defined.

(** X6: for a tag id that has a case, the turn of the loop does not depend
    on the length field of the record: the four bytes are read and the case
    reads what it needs from the bytes after them. *)
Theorem tag_length_not_checked `{RecordHandlers} (swf : SupercellSWF) (c : Counts)
    (l : Locals) (tag : byte) (len len' body : list byte) :
  length len = 4%nat ->
  length len' = 4%nat ->
  Z_of_byte tag ∈ CASE_TAGS ->
  parseTag (mkParse (set_buffer (tag :: len ++ body) swf) c l)
  = parseTag (mkParse (set_buffer (tag :: len' ++ body) swf) c l).
Proof.
  intros Hlen Hlen' Htag.
  destruct (read_header_bytes tag len body Hlen) as (v & E8 & E32).
  destruct (read_header_bytes tag len' body Hlen') as (v' & E8' & E32').
  unfold parseTag. cbn [this buffer set_buffer priv loc].
  rewrite E8, E8'. cbn [mbind result_bind]. rewrite E32, E32'. cbn [mbind result_bind].
  unfold CASE_TAGS, TEXTURE_TAGS, SHAPE_TAGS, MOVIECLIP_TAGS, TEXTFIELD_TAGS, MATRIX_TAGS,
    MODIFIER_TAGS in Htag. cbn [app] in Htag.
  repeat (apply elem_of_cons in Htag as [->|Htag]; [decide_tests; reflexivity|]).
  apply elem_of_nil in Htag. destruct Htag.
Qed.

Lemma tag_length_not_checked_witness :
  Z_of_byte x01 ∈ CASE_TAGS
  /\ @parseTag empty_records
       (mkParse (set_buffer (x01 :: [x09; x00; x00; x00]
                               ++ [x00; x01; x00; x01; x00; x0a; x0b; x0c; x0d])
                   new_SupercellSWF) new_Counts new_Locals)
     = @parseTag empty_records
         (mkParse (set_buffer (x01 :: [xff; xff; xff; x7f]
                                 ++ [x00; x01; x00; x01; x00; x0a; x0b; x0c; x0d])
                     new_SupercellSWF) new_Counts new_Locals).
Proof.
  assert (Htag : Z_of_byte x01 ∈ CASE_TAGS).
  { vm_compute. apply list_elem_of_further, list_elem_of_here. }
  split; [exact Htag|].
  exact (@tag_length_not_checked empty_records new_SupercellSWF new_Counts new_Locals x01
           [x09; x00; x00; x00] [xff; xff; xff; x7f]
           [x00; x01; x00; x01; x00; x0a; x0b; x0c; x0d] eq_refl eq_refl Htag).
Defined.

(** ** The end of the tag loop *)

Lemma readInt32_consumes (buf rest : list byte) (v : Z) :
  readInt32 buf = Ok (v, rest) -> length buf = (4 + length rest)%nat.
Proof.
  unfold readInt32. destruct (readBytes 4 buf) as [[bs b]|] eqn:E; [|discriminate].
  cbn [mbind result_bind]. intros [= _ <-].
  apply readBytes_length in E as [-> <-]. apply length_app.
Qed.

Lemma readBytes_shorter (n : nat) (buf bs rest : list byte) :
  readBytes n buf = Ok (bs, rest) -> (length rest <= length buf)%nat.
Proof.
  intros E. apply readBytes_length in E as [-> _]. rewrite length_app. lia.
Qed.

Lemma readUInt8_shorter (buf rest : list byte) (v : Z) :
  readUInt8 buf = Ok (v, rest) -> (length rest <= length buf)%nat.
Proof.
  unfold readUInt8. destruct (readBytes 1 buf) as [[bs b]|] eqn:E; [|discriminate].
  cbn [mbind result_bind]. intros [= _ <-]. exact (readBytes_shorter _ _ _ _ E).
Qed.

Lemma readUInt16_shorter (buf rest : list byte) (v : Z) :
  readUInt16 buf = Ok (v, rest) -> (length rest <= length buf)%nat.
Proof.
  unfold readUInt16. destruct (readBytes 2 buf) as [[bs b]|] eqn:E; [|discriminate].
  cbn [mbind result_bind]. intros [= _ <-]. exact (readBytes_shorter _ _ _ _ E).
Qed.

Lemma readASCII_shorter (buf rest : list byte) (s : string) :
  readASCII buf = Ok (s, rest) -> (length rest <= length buf)%nat.
Proof.
  unfold readASCII. destruct (readUInt8 buf) as [[n b1]|] eqn:E1; [|discriminate].
  cbn [mbind result_bind]. apply readUInt8_shorter in E1.
  destruct (n =? 255); [intros [= _ <-]; exact E1|].
  destruct (readBytes _ b1) as [[bs b2]|] eqn:E2; [|discriminate].
  cbn [mbind result_bind]. intros [= _ <-]. apply readBytes_shorter in E2. lia.
Qed.

Lemma skip_shorter (n : Z) (buf rest : list byte) :
  skip n buf = Ok rest -> (length rest <= length buf)%nat.
Proof.
  unfold skip. destruct (n <? 0); [discriminate|].
  destruct (readBytes _ buf) as [[bs b]|] eqn:E; [|discriminate].
  cbn [mbind result_bind]. intros [= <-]. exact (readBytes_shorter _ _ _ _ E).
Qed.

Lemma readPixels_shorter (rd : list byte -> result (list byte * list byte))
    (cs : list (nat * nat)) (img img' : Image) (buf rest : list byte) :
  (forall b p b', rd b = Ok (p, b') -> (length b' <= length b)%nat) ->
  readPixels rd cs img buf = Ok (img', rest) -> (length rest <= length buf)%nat.
Proof.
  intros Hrd. revert img buf. induction cs as [|[x y] cs IH]; intros img buf.
  - cbn. intros [= _ <-]. lia.
  - cbn [readPixels]. destruct (rd buf) as [[p b1]|] eqn:E; [|discriminate].
    cbn [mbind result_bind]. intros Hrun. apply IH in Hrun. apply Hrd in E. lia.
Qed.

Lemma PIXEL_READ_FUNCTIONS_shorter (pf : option PixelFormat) (b b' : list byte) (p : Pixel) :
  PIXEL_READ_FUNCTIONS pf b = Ok (p, b') -> (length b' <= length b)%nat.
Proof.
  destruct pf as [f|]; [|discriminate]. cbn.
  destruct f; unfold readPixel;
    repeat match goal with
           | |- context [readUInt8 ?x] =>
               let E := fresh "E" in
               destruct (readUInt8 x) as [[? ?]|] eqn:E; [|discriminate];
               apply readUInt8_shorter in E; cbn [mbind result_bind]
           | |- context [readUInt16 ?x] =>
               let E := fresh "E" in
               destruct (readUInt16 x) as [[? ?]|] eqn:E; [|discriminate];
               apply readUInt16_shorter in E; cbn [mbind result_bind]
           end;
    intros [= _ <-]; lia.
Qed.

Lemma load_texture_shorter (tag : Z) (hasData : bool) (buf rest : list byte) (t : Texture) :
  load_texture tag hasData buf = Ok (t, rest) -> (length rest <= length buf)%nat.
Proof.
  unfold load_texture.
  destruct (readUInt8 buf) as [[idx b1]|] eqn:E1; [|discriminate].
  cbn [mbind result_bind].
  destruct (readUInt16 b1) as [[w b2]|] eqn:E2; [|discriminate].
  cbn [mbind result_bind].
  destruct (readUInt16 b2) as [[h b3]|] eqn:E3; [|discriminate].
  cbn [mbind result_bind].
  apply readUInt8_shorter in E1. apply readUInt16_shorter in E2, E3.
  new_Image_cases img0 E0; [|discriminate].
  destruct hasData.
  - destruct (readPixels _ _ _ _) as [[img b4]|] eqn:Erun; [|discriminate].
    cbn [mbind result_bind]. intros [= _ <-].
    apply readPixels_shorter in Erun; [lia|].
    intros b p b'. apply PIXEL_READ_FUNCTIONS_shorter.
  - intros [= _ <-]. lia.
Qed.

(** A turn that ends without exception has consumed the five bytes of the
    tag header, and its case has not lengthened the buffer. *)
Lemma parseTag_consumes `{RecordHandlers} (st st1 : ParseState) (read : bool) :
  loaders_consume ->
  parseTag st = Ok (read, st1) ->
  (length (buffer (this st1)) + 5 <= length (buffer (this st)))%nat.
Proof.
  intros Hload. unfold parseTag.
  destruct (readUInt8 (buffer (this st))) as [[tag b1]|] eqn:E8; [|discriminate].
  cbn [mbind result_bind].
  destruct (readInt32 b1) as [[len b2]|] eqn:E32; [|discriminate].
  cbn [mbind result_bind].
  apply readUInt8_consumes in E8. apply readInt32_consumes in E32.
  assert (Hhandler : forall (r : option SupercellSWF) (swf' : SupercellSWF),
             r = Some swf' ->
             (r = Shape_load tag (set_buffer b2 (this st))
              \/ r = MovieClip_load tag (set_buffer b2 (this st))
              \/ r = TextField_load tag (set_buffer b2 (this st))
              \/ r = MovieClipModifier_load tag (set_buffer b2 (this st))
              \/ (exists b m, r = Matrix_load b m tag (set_buffer b2 (this st)))
              \/ (exists b m, r = Color_load b m tag (set_buffer b2 (this st)))) ->
             (length (buffer swf') + 5 <= length (buffer (this st)))%nat).
  { intros r swf' Hr Hwhich.
    assert (Hle : (length (buffer swf') <= length (buffer (set_buffer b2 (this st))))%nat).
    { apply (Hload tag). subst r.
      destruct Hwhich as [E|[E|[E|[E|[(b & m & E)|(b & m & E)]]]]]; eauto 10. }
    cbn [buffer set_buffer] in Hle. lia. }
  repeat match goal with
         | |- context [if ?c then _ else _] => destruct c
         end;
    repeat match goal with
           | |- context [match ?o with Some _ => _ | None => _ end] =>
               let E := fresh "E" in destruct o eqn:E
           end;
    try discriminate.
  all: try (intros [= <- <-]; cbn [this buffer set_buffer set_useLowresTexture
                                     set_hasExternalTexture set_useUncommonTexture];
            lia).
  all: try (unfold Texture_load;
            match goal with
            | |- context [load_texture ?t ?d ?b] =>
                let E := fresh "E" in
                destruct (load_texture t d b) as [[? ?]|] eqn:E; [|discriminate];
                apply load_texture_shorter in E
            end;
            cbn [mbind result_bind]; try destruct (hasTextureData (loc st));
            intros [= <- <-]; cbn [this buffer set_buffer]; lia).
  all: try (match goal with
            | |- context [handled ?r] =>
                let E := fresh "E" in
                destruct r as [swf'|] eqn:E; [|discriminate];
                cbn [handled mbind result_bind]; intros [= <- <-]; cbn [this];
                apply (Hhandler _ _ E); eauto 10
            end).
  - destruct (readASCII b2) as [[hi b3]|] eqn:Ehi; [|discriminate].
    cbn [mbind result_bind].
    destruct (readASCII b3) as [[lo b4]|] eqn:Elo; [|discriminate].
    cbn [mbind result_bind].
    apply readASCII_shorter in Ehi, Elo.
    destruct (_ && _); intros [= <- <-]; cbn [this buffer set_buffer set_postfixes]; lia.
  - destruct (readUInt16 b2) as [[n b3]|] eqn:En; [|discriminate].
    cbn [mbind result_bind]. apply readUInt16_shorter in En.
    intros [= <- <-]. cbn [this buffer set_buffer]. lia.
  - unfold TransformBank_load. cbn [buffer set_buffer].
    destruct (readUInt16 b2) as [[m b3]|] eqn:Em; [|discriminate].
    cbn [mbind result_bind].
    destruct (readUInt16 b3) as [[n b4]|] eqn:En; [|discriminate].
    cbn [mbind result_bind]. apply readUInt16_shorter in Em, En.
    destruct (readASCII b4) as [[name b5]|] eqn:Ename; [|discriminate].
    cbn [mbind result_bind]. apply readASCII_shorter in Ename.
    intros [= <- <-]. cbn [this buffer set_buffer set_banks]. lia.
  - destruct (skip len b2) as [b3|] eqn:Es; [|discriminate].
    cbn [mbind result_bind]. apply skip_shorter in Es.
    intros [= <- <-]. cbn [this buffer set_buffer]. lia.
Qed.


Lemma readInt32_error (buf : list byte) (e : Error) :
  readInt32 buf = Err e -> e = Truncated.
Proof.
  unfold readInt32. destruct (readBytes 4 buf) as [[bs b]|e'] eqn:E; [discriminate|].
  intros [= <-]. exact (readBytes_error _ _ _ E).
Qed.

Lemma readASCII_error (buf : list byte) (e : Error) :
  readASCII buf = Err e -> e = Truncated.
Proof.
  unfold readASCII. destruct (readUInt8 buf) as [[n b1]|e1] eqn:E1; cbn [mbind result_bind];
    [|intros [= <-]; exact (readUInt8_error _ _ E1)].
  destruct (n =? 255); [discriminate|].
  destruct (readBytes _ b1) as [[bs b2]|e2] eqn:E2; cbn [mbind result_bind]; [discriminate|].
  intros [= <-]. exact (readBytes_error _ _ _ E2).
Qed.

Lemma skip_error (n : Z) (buf : list byte) (e : Error) :
  skip n buf = Err e -> e = Truncated \/ e = NegativeLength.
Proof.
  unfold skip. destruct (n <? 0); [intros [= <-]; right; reflexivity|].
  destruct (readBytes _ buf) as [[bs b]|e'] eqn:E; cbn [mbind result_bind]; [discriminate|].
  intros [= <-]. left. exact (readBytes_error _ _ _ E).
Qed.

Ltac in_errors :=
  unfold PARSE_ERRORS;
  repeat first [apply list_elem_of_here | apply list_elem_of_further].

Ltac handler_error :=
  match goal with
  | |- context [handled ?r] =>
      destruct r; cbn [handled mbind result_bind];
      [discriminate|intros [= <-]; in_errors]
  end.

(** A turn of the tag loop raises one of the exceptions of the code. *)
Lemma parseTag_error `{RecordHandlers} (st : ParseState) (e : Error) :
  parseTag st = Err e -> e ∈ PARSE_ERRORS.
Proof.
  unfold parseTag.
  destruct (readUInt8 (buffer (this st))) as [[tag b1]|e1] eqn:E8; cbn [mbind result_bind];
    [|intros [= <-]; rewrite (readUInt8_error _ _ E8); in_errors].
  destruct (readInt32 b1) as [[len b2]|e2] eqn:E32; cbn [mbind result_bind];
    [|intros [= <-]; rewrite (readInt32_error _ _ E32); in_errors].
  destruct (tag =? 0); [discriminate|].
  destruct (tag_in TEXTURE_TAGS tag).
  { unfold Texture_load.
    match goal with
    | |- context [load_texture ?t ?d ?b] =>
        destruct (load_texture t d b) as [[? ?]|e3] eqn:E3
    end; cbn [mbind result_bind].
    - destruct (_ <? _)%nat; discriminate.
    - intros [= <-]. destruct (load_texture_error _ _ _ _ E3) as [->|[->| ->]]; in_errors. }
  destruct (tag =? 23); [discriminate|].
  destruct (tag =? 26); [discriminate|].
  destruct (tag =? 30); [discriminate|].
  destruct (tag =? 32).
  { destruct (readASCII b2) as [[hi b3]|e3] eqn:Ehi; cbn [mbind result_bind];
      [|intros [= <-]; rewrite (readASCII_error _ _ Ehi); in_errors].
    destruct (readASCII b3) as [[lo b4]|e4] eqn:Elo; cbn [mbind result_bind];
      [|intros [= <-]; rewrite (readASCII_error _ _ Elo); in_errors].
    destruct (_ && _); discriminate. }
  destruct (tag_in SHAPE_TAGS tag).
  { destruct (_ >=? _); [intros [= <-]; in_errors|]. handler_error. }
  destruct (tag_in MOVIECLIP_TAGS tag).
  { destruct (_ >=? _); [intros [= <-]; in_errors|]. handler_error. }
  destruct (tag_in TEXTFIELD_TAGS tag).
  { destruct (_ >=? _); [intros [= <-]; in_errors|]. handler_error. }
  destruct (tag_in MATRIX_TAGS tag).
  { destruct (banks _ !! _) as [bank|]; [|intros [= <-]; in_errors].
    destruct (matrices bank !! _); [|intros [= <-]; in_errors]. handler_error. }
  destruct (tag =? 9).
  { destruct (banks _ !! _) as [bank|]; [|intros [= <-]; in_errors].
    destruct (colors bank !! _); [|intros [= <-]; in_errors]. handler_error. }
  destruct (tag =? 37).
  { destruct (readUInt16 b2) as [[n b3]|e3] eqn:En; cbn [mbind result_bind];
      [discriminate|intros [= <-]; rewrite (readUInt16_error _ _ En); in_errors]. }
  destruct (tag_in MODIFIER_TAGS tag).
  { destruct (_ >=? _); [intros [= <-]; in_errors|]. handler_error. }
  destruct (tag =? 42).
  { unfold TransformBank_load. cbn [buffer set_buffer].
    destruct (readUInt16 b2) as [[m b3]|e3] eqn:Em; cbn [mbind result_bind];
      [|intros [= <-]; rewrite (readUInt16_error _ _ Em); in_errors].
    destruct (readUInt16 b3) as [[n b4]|e4] eqn:En; cbn [mbind result_bind];
      [|intros [= <-]; rewrite (readUInt16_error _ _ En); in_errors].
    destruct (readASCII b4) as [[name b5]|e5] eqn:Ename; cbn [mbind result_bind];
      [discriminate|intros [= <-]; rewrite (readASCII_error _ _ Ename); in_errors]. }
  destruct (skip len b2) as [b3|e3] eqn:Es; cbn [mbind result_bind]; [discriminate|].
  intros [= <-]. destruct (skip_error _ _ _ Es) as [->| ->]; in_errors.
Qed.

Lemma parseTags_loop_ends `{RecordHandlers} (fuel : nat) (st : ParseState) :
  loaders_consume ->
  (length (buffer (this st)) < 5 * fuel)%nat ->
  (forall e, parseTags_loop fuel st = Err e -> e ∈ PARSE_ERRORS)
  /\ forall st', parseTags_loop fuel st = Ok st' ->
       (length (buffer (this st')) + 5 <= length (buffer (this st)))%nat.
Proof.
  intros Hload. revert st. induction fuel as [|fuel IH]; intros st Hfuel; [lia|].
  cbn [parseTags_loop].
  destruct (parseTag st) as [[read st1]|e] eqn:Eturn; cbn [mbind result_bind].
  - pose proof (parseTag_consumes _ _ _ Hload Eturn) as Hcons.
    destruct read.
    + destruct (IH st1 ltac:(lia)) as [Hne Hok]. split; [exact Hne|].
      intros st' Hrun. specialize (Hok st' Hrun). lia.
    + split; [discriminate|]. intros st' [= <-]. exact Hcons.
  - split; [|discriminate].
    intros e' [= <-]. exact (parseTag_error _ _ Eturn).
Qed.

(** X7: with record loaders that do not lengthen the buffer, the tag loop
    ends on every buffer: it returns after the end tag, with a buffer at
    least five bytes shorter, or it raises one of the exceptions of a turn.
    On a buffer shorter than five bytes it raises the exception of a read
    beyond the end. *)
Theorem parseTags_ends `{RecordHandlers} (swf : SupercellSWF) (c : Counts) :
  loaders_consume ->
  match parseTags swf c with
  | Ok (swf', _) => (length (buffer swf') + 5 <= length (buffer swf))%nat
  | Err e => e ∈ PARSE_ERRORS
  end
  /\ ((length (buffer swf) < 5)%nat -> parseTags swf c = Err Truncated).
Proof.
  intros Hload. unfold parseTags.
  destruct (parseTags_loop_ends (S (length (buffer swf))) (mkParse swf c new_Locals) Hload)
    as [Herr Hok]; [cbn [this buffer]; lia|].
  split.
  - destruct (parseTags_loop _ _) as [st'|e]; cbn [mbind result_bind].
    + exact (Hok st' eq_refl).
    + exact (Herr e eq_refl).
  - intros Hshort. cbn [parseTags_loop]. unfold parseTag. cbn [this buffer].
    destruct (readUInt8 (buffer swf)) as [[tag b1]|e1] eqn:E8; cbn [mbind result_bind].
    + destruct (readInt32 b1) as [[len b2]|e2] eqn:E32; cbn [mbind result_bind].
      * apply readUInt8_consumes in E8. apply readInt32_consumes in E32. lia.
      * rewrite (readInt32_error _ _ E32). reflexivity.
    + rewrite (readUInt8_error _ _ E8). reflexivity.
Qed.

Lemma empty_records_consume : @loaders_consume empty_records.
Proof.
  intros tag swf swf' [E|[E|[E|[E|[(b & m & E)|(b & m & E)]]]]];
    cbn in E; injection E as <-; lia.
Qed.

Lemma parseTags_ends_witness :
  @loaders_consume empty_records
  /\ @parseTags empty_records (set_buffer [x17; x00; x00] new_SupercellSWF) new_Counts
     = Err Truncated.
Proof.
  split; [exact empty_records_consume|].
  exact (proj2 (@parseTags_ends empty_records
                  (set_buffer [x17; x00; x00] new_SupercellSWF)
                  new_Counts empty_records_consume) ltac:(cbn; lia)).
Defined.

(** ** The counters of the other record classes *)

Lemma class_tags_cons (class : list Z) (tag : Z) (ids : list Z) :
  Z.of_nat (class_tags class (tag :: ids))
  = (if tag_in class tag then 1 else 0) + Z.of_nat (class_tags class ids).
Proof.
  unfold class_tags, tag_in. rewrite filter_cons.
  destruct (decide (tag ∈ class)) as [Hin|Hnin].
  - rewrite bool_decide_true by exact Hin. cbn [length]. lia.
  - rewrite bool_decide_false by exact Hnin. lia.
Qed.

Ltac counters_done :=
  repeat match goal with
         | |- context [?a >=? ?b] => destruct (Z.geb_spec a b)
         | |- context [match ?o with Some _ => _ | None => _ end] => destruct o
         | |- context [mbind _ ?m] =>
             let x := fresh in destruct m as [x|]; [try destruct x|];
             cbn [mbind result_bind handled]
         | |- context [if ?c then _ else _] => destruct c
         end;
  try discriminate;
  intros [= <- <-]; cbn;
  repeat split; try reflexivity; try lia; try discriminate;
  try (intros _; assumption).

(** What a turn that ends without exception does to the counters of movie
    clips, text fields and modifiers. *)
Lemma parseTag_class_counters `{RecordHandlers} (st st1 : ParseState) (read : bool) (tag : Z) :
  peek_tag (buffer (this st)) = Some tag ->
  parseTag st = Ok (read, st1) ->
  _movieClipsCount (priv st1) = _movieClipsCount (priv st)
  /\ _textFieldsCount (priv st1) = _textFieldsCount (priv st)
  /\ (tag <> 37 -> _modifiersCount (priv st1) = _modifiersCount (priv st))
  /\ movieclipsLoaded (loc st1)
     = movieclipsLoaded (loc st) + (if tag_in MOVIECLIP_TAGS tag then 1 else 0)
  /\ textfieldsLoaded (loc st1)
     = textfieldsLoaded (loc st) + (if tag_in TEXTFIELD_TAGS tag then 1 else 0)
  /\ modifiersLoaded (loc st1)
     = modifiersLoaded (loc st) + (if tag_in MODIFIER_TAGS tag then 1 else 0)
  /\ (tag_in MOVIECLIP_TAGS tag = true ->
      movieclipsLoaded (loc st) < _movieClipsCount (priv st))
  /\ (tag_in TEXTFIELD_TAGS tag = true ->
      textfieldsLoaded (loc st) < _textFieldsCount (priv st))
  /\ (tag_in MODIFIER_TAGS tag = true ->
      modifiersLoaded (loc st) < _modifiersCount (priv st)).
Proof.
  intros Hpeek.
  destruct (peek_tag_header _ _ Hpeek) as (b1 & len & E8 & E32).
  destruct (decide (tag ∈ CASE_TAGS)) as [Hin|Hnot].
  - unfold parseTag. rewrite E8. cbn [mbind result_bind]. rewrite E32.
    cbn [mbind result_bind].
    unfold CASE_TAGS, TEXTURE_TAGS, SHAPE_TAGS, MOVIECLIP_TAGS, TEXTFIELD_TAGS, MATRIX_TAGS,
      MODIFIER_TAGS in Hin. cbn [app] in Hin.
    repeat (apply elem_of_cons in Hin as [->|Hin]; [decide_tests; counters_done|]).
    apply elem_of_nil in Hin. destruct Hin.
  - rewrite (parseTag_unknown st tag len b1 _ E8 E32 Hnot).
    destruct (not_case_tag tag Hnot)
      as (_ & _ & _ & _ & _ & _ & _ & Tmc & Ttf & _ & _ & _ & Tmod & _).
    rewrite Tmc, Ttf, Tmod.
    destruct (skip len (drop 5 (buffer (this st)))) as [b3|]; [|discriminate].
    cbn [mbind result_bind]. intros [= <- <-]. cbn.
    repeat split; try reflexivity; try lia; discriminate.
Qed.

(** Along a run the declared counts of movie clips and text fields stay, the
    numbers loaded are the numbers of tags of the class read, and they do
    not pass the declared counts. *)
Lemma turns_class_counters `{RecordHandlers} (st st' : ParseState) (ids : list Z) :
  turns st ids st' ->
  _movieClipsCount (priv st') = _movieClipsCount (priv st)
  /\ _textFieldsCount (priv st') = _textFieldsCount (priv st)
  /\ movieclipsLoaded (loc st')
     = movieclipsLoaded (loc st) + Z.of_nat (class_tags MOVIECLIP_TAGS ids)
  /\ textfieldsLoaded (loc st')
     = textfieldsLoaded (loc st) + Z.of_nat (class_tags TEXTFIELD_TAGS ids)
  /\ (movieclipsLoaded (loc st) <= _movieClipsCount (priv st) ->
      movieclipsLoaded (loc st') <= _movieClipsCount (priv st))
  /\ (textfieldsLoaded (loc st) <= _textFieldsCount (priv st) ->
      textfieldsLoaded (loc st') <= _textFieldsCount (priv st)).
Proof.
  induction 1 as [st|st st1 st2 tag ids Hpeek Hturn Hturns IH].
  - unfold class_tags. cbn. repeat split; auto; lia.
  - destruct (parseTag_class_counters _ _ _ _ Hpeek Hturn)
      as (Hmc & Htf & _ & Lmc & Ltf & _ & Bmc & Btf & _).
    destruct IH as (IHmc & IHtf & ILmc & ILtf & IBmc & IBtf).
    rewrite IHmc, IHtf, ILmc, ILtf, Hmc, Htf, Lmc, Ltf, !class_tags_cons.
    rewrite Hmc, Lmc in IBmc. rewrite Htf, Ltf in IBtf.
    split; [reflexivity|]. split; [reflexivity|]. split; [lia|]. split; [lia|].
    split.
    + intros Hle. destruct (tag_in MOVIECLIP_TAGS tag); [specialize (Bmc eq_refl)|]; lia.
    + intros Hle. destruct (tag_in TEXTFIELD_TAGS tag); [specialize (Btf eq_refl)|]; lia.
Qed.

(** The same for modifiers, as long as no tag 37 declares a new count. *)
Lemma turns_modifier_counters `{RecordHandlers} (st st' : ParseState) (ids : list Z) :
  turns st ids st' ->
  37 ∉ ids ->
  _modifiersCount (priv st') = _modifiersCount (priv st)
  /\ modifiersLoaded (loc st')
     = modifiersLoaded (loc st) + Z.of_nat (class_tags MODIFIER_TAGS ids)
  /\ (modifiersLoaded (loc st) <= _modifiersCount (priv st) ->
      modifiersLoaded (loc st') <= _modifiersCount (priv st)).
Proof.
  induction 1 as [st|st st1 st2 tag ids Hpeek Hturn Hturns IH]; intros Hno.
  - unfold class_tags. cbn. repeat split; auto; lia.
  - apply not_elem_of_cons in Hno as [Hne Hno].
    destruct (parseTag_class_counters _ _ _ _ Hpeek Hturn)
      as (_ & _ & Hmod & _ & _ & Lmod & _ & _ & Bmod).
    specialize (Hmod ltac:(congruence)).
    destruct (IH Hno) as (IHmod & ILmod & IBmod).
    rewrite IHmod, ILmod, Hmod, Lmod, class_tags_cons.
    rewrite Hmod, Lmod in IBmod.
    split; [reflexivity|]. split; [lia|].
    intros Hle. destruct (tag_in MODIFIER_TAGS tag); [specialize (Bmod eq_refl)|]; lia.
Qed.

(** A turn on a tag of a counted class when the loaded number has reached the
    declared one. *)
Lemma parseTag_class_full `{RecordHandlers} (st : ParseState) (tag : Z) :
  peek_tag (buffer (this st)) = Some tag ->
  (tag ∈ MOVIECLIP_TAGS -> _movieClipsCount (priv st) <= movieclipsLoaded (loc st) ->
   parseTag st = Err TooManyMovieClips)
  /\ (tag ∈ TEXTFIELD_TAGS -> _textFieldsCount (priv st) <= textfieldsLoaded (loc st) ->
      parseTag st = Err INVALID_TEXTFIELD_COUNT)
  /\ (tag ∈ MODIFIER_TAGS -> _modifiersCount (priv st) <= modifiersLoaded (loc st) ->
      parseTag st = Err TooManyModifiers).
Proof.
  intros Hpeek.
  destruct (peek_tag_header _ _ Hpeek) as (b1 & len & E8 & E32).
  repeat split; intros Hin Hfull;
    unfold parseTag; rewrite E8; cbn [mbind result_bind]; rewrite E32;
    cbn [mbind result_bind];
    unfold MOVIECLIP_TAGS, TEXTFIELD_TAGS, MODIFIER_TAGS in Hin;
    repeat (apply elem_of_cons in Hin as [->|Hin];
            [decide_tests;
             match goal with
             | |- context [?a >=? ?b] => destruct (Z.geb_spec a b); [reflexivity|lia]
             end|]);
    apply elem_of_nil in Hin; destruct Hin.
Qed.

(** X8: in a run of the tag loop that starts with no movie clip and no text
    field loaded, the movie clip tags read never exceed the declared number
    of movie clips, nor the text field tags the declared number of text
    fields; when the declared number has been read, the next tag of the
    class raises the error of the class, which is then the outcome of the
    loop. *)
Theorem record_count_overflow `{RecordHandlers}
    (st0 st : ParseState) (ids : list Z) (tag : Z) :
  movieclipsLoaded (loc st0) = 0 ->
  textfieldsLoaded (loc st0) = 0 ->
  0 <= _movieClipsCount (priv st0) ->
  0 <= _textFieldsCount (priv st0) ->
  turns st0 ids st ->
  peek_tag (buffer (this st)) = Some tag ->
  Z.of_nat (class_tags MOVIECLIP_TAGS ids) <= _movieClipsCount (priv st0)
  /\ Z.of_nat (class_tags TEXTFIELD_TAGS ids) <= _textFieldsCount (priv st0)
  /\ (tag ∈ MOVIECLIP_TAGS ->
      Z.of_nat (class_tags MOVIECLIP_TAGS ids) = _movieClipsCount (priv st0) ->
      parseTag st = Err TooManyMovieClips
      /\ forall fuel, (length ids < fuel)%nat ->
           parseTags_loop fuel st0 = Err TooManyMovieClips)
  /\ (tag ∈ TEXTFIELD_TAGS ->
      Z.of_nat (class_tags TEXTFIELD_TAGS ids) = _textFieldsCount (priv st0) ->
      parseTag st = Err INVALID_TEXTFIELD_COUNT
      /\ forall fuel, (length ids < fuel)%nat ->
           parseTags_loop fuel st0 = Err INVALID_TEXTFIELD_COUNT).
Proof.
  intros Hmc0 Htf0 Nmc Ntf Hturns Hpeek.
  destruct (turns_class_counters _ _ _ Hturns) as (Hmc & Htf & Lmc & Ltf & Bmc & Btf).
  rewrite Hmc0, Z.add_0_l in Lmc. rewrite Htf0, Z.add_0_l in Ltf.
  specialize (Bmc ltac:(lia)). specialize (Btf ltac:(lia)).
  rewrite Lmc in Bmc. rewrite Ltf in Btf.
  destruct (parseTag_class_full st tag Hpeek) as (Fmc & Ftf & _).
  assert (Hloop : forall e, parseTag st = Err e ->
            forall fuel, (length ids < fuel)%nat -> parseTags_loop fuel st0 = Err e).
  { intros e Hfail fuel Hfuel.
    replace fuel with (length ids + S (fuel - length ids - 1))%nat by lia.
    rewrite (turns_loop _ _ _ _ Hturns). cbn [parseTags_loop].
    rewrite Hfail. reflexivity. }
  split; [exact Bmc|]. split; [exact Btf|]. split.
  - intros Hin Heq.
    assert (Hfail : parseTag st = Err TooManyMovieClips) by (apply Fmc; [exact Hin|lia]).
    split; [exact Hfail|exact (Hloop _ Hfail)].
  - intros Hin Heq.
    assert (Hfail : parseTag st = Err INVALID_TEXTFIELD_COUNT)
      by (apply Ftf; [exact Hin|lia]).
    split; [exact Hfail|exact (Hloop _ Hfail)].
Qed.

(** X9: as long as no tag 37 has been read, the modifier tags (38, 39, 40)
    read by the tag loop never exceed the number of modifiers the instance
    had at the start, and the next one raises the modifier error; on a fresh
    instance, whose number is 0, the first modifier tag already does. *)
Theorem modifiers_need_declaration `{RecordHandlers}
    (st0 st : ParseState) (ids : list Z) (tag : Z) :
  modifiersLoaded (loc st0) = 0 ->
  0 <= _modifiersCount (priv st0) ->
  turns st0 ids st ->
  37 ∉ ids ->
  peek_tag (buffer (this st)) = Some tag ->
  Z.of_nat (class_tags MODIFIER_TAGS ids) <= _modifiersCount (priv st0)
  /\ (tag ∈ MODIFIER_TAGS ->
      Z.of_nat (class_tags MODIFIER_TAGS ids) = _modifiersCount (priv st0) ->
      parseTag st = Err TooManyModifiers
      /\ forall fuel, (length ids < fuel)%nat ->
           parseTags_loop fuel st0 = Err TooManyModifiers).
Proof.
  intros Hm0 Nm Hturns Hno Hpeek.
  destruct (turns_modifier_counters _ _ _ Hturns Hno) as (Hmod & Lmod & Bmod).
  rewrite Hm0, Z.add_0_l in Lmod. specialize (Bmod ltac:(lia)). rewrite Lmod in Bmod.
  destruct (parseTag_class_full st tag Hpeek) as (_ & _ & Fmod).
  split; [exact Bmod|].
  intros Hin Heq.
  assert (Hfail : parseTag st = Err TooManyModifiers) by (apply Fmod; [exact Hin|lia]).
  split; [exact Hfail|].
  intros fuel Hfuel.
  replace fuel with (length ids + S (fuel - length ids - 1))%nat by lia.
  rewrite (turns_loop _ _ _ _ Hturns). cbn [parseTags_loop].
  rewrite Hfail. reflexivity.
Qed.

Lemma record_count_overflow_witness :
  @turns empty_records two_movieclips_state [3]
    (mkParse (set_buffer [x0c; x00; x00; x00; x00] new_SupercellSWF)
             (mkCounts 0 1 0 0) (mkLocals true 0 1 0 0 0 0 0 0))
  /\ peek_tag [x0c; x00; x00; x00; x00] = Some 12
  /\ @parseTags empty_records (this two_movieclips_state) (priv two_movieclips_state)
     = Err TooManyMovieClips.
Proof.
  pose (st1 := mkParse (set_buffer [x0c; x00; x00; x00; x00] new_SupercellSWF)
                       (mkCounts 0 1 0 0) (mkLocals true 0 1 0 0 0 0 0 0)).
  assert (Hturns : @turns empty_records two_movieclips_state [3] st1).
  { eapply turns_cons; [reflexivity|reflexivity|apply turns_nil]. }
  assert (Hpeek : peek_tag (buffer (this st1)) = Some 12) by reflexivity.
  assert (Htag : 12 ∈ MOVIECLIP_TAGS).
  { unfold MOVIECLIP_TAGS. do 2 apply list_elem_of_further. apply list_elem_of_here. }
  destruct (@record_count_overflow empty_records two_movieclips_state st1 [3] 12
              eq_refl eq_refl ltac:(cbn; lia) ltac:(cbn; lia) Hturns Hpeek)
    as (_ & _ & Hmc & _).
  destruct (Hmc Htag eq_refl) as [_ Hloop].
  split; [exact Hturns|]. split; [exact Hpeek|].
  unfold parseTags. rewrite Hloop by (cbn; lia). reflexivity.
Defined.

Lemma modifiers_need_declaration_witness :
  @turns empty_records modifier_first_state [] modifier_first_state
  /\ (37 ∉ @nil Z)
  /\ peek_tag (buffer (this modifier_first_state)) = Some 38
  /\ @parseTags empty_records (this modifier_first_state) (priv modifier_first_state)
     = Err TooManyModifiers.
Proof.
  assert (Hturns : @turns empty_records modifier_first_state [] modifier_first_state)
    by apply turns_nil.
  assert (Hno : 37 ∉ @nil Z) by apply not_elem_of_nil.
  assert (Hpeek : peek_tag (buffer (this modifier_first_state)) = Some 38) by reflexivity.
  assert (Htag : 38 ∈ MODIFIER_TAGS) by (unfold MODIFIER_TAGS; apply list_elem_of_here).
  destruct (@modifiers_need_declaration empty_records modifier_first_state
              modifier_first_state [] 38 eq_refl ltac:(cbn; lia) Hturns Hno Hpeek)
    as (_ & Hmod).
  destruct (Hmod Htag eq_refl) as [_ Hloop].
  split; [exact Hturns|]. split; [exact Hno|]. split; [exact Hpeek|].
  unfold parseTags. rewrite Hloop by (cbn; lia). reflexivity.
Defined.

(** ** A postfix tag with an empty postfix *)

Lemma readASCII_write_any (s : string) (rest : list byte) :
  (String.length s < 255)%nat ->
  readASCII (writeASCII s [] ++ rest) = Ok (s, rest).
Proof.
  intros Hlen. destruct s as [|a s].
  - reflexivity.
  - apply readASCII_write; [discriminate|exact Hlen].
Qed.

(** X10: a postfix tag (32) always has its two strings read; they replace
    the postfixes of the instance only when both are non-empty, and neither
    is replaced when one of them is empty. *)
Theorem postfix_tag_both_or_none `{RecordHandlers} (swf : SupercellSWF) (c : Counts)
    (l : Locals) (hi lo : string) (rest : list byte) :
  (String.length hi < 255)%nat ->
  (String.length lo < 255)%nat ->
  parseTag (mkParse (set_buffer (saveTag 32 (writeASCII lo (writeASCII hi [])) [] ++ rest)
                       swf) c l)
  = Ok (true,
        mkParse (if negb (String.eqb hi "") && negb (String.eqb lo "")
                 then set_postfixes hi lo (set_buffer rest swf)
                 else set_buffer rest swf) c l).
Proof.
  intros Lhi Llo.
  open_record 32 (writeASCII lo (writeASCII hi [])) rest.
  rewrite (writeASCII_app lo), <- app_assoc.
  rewrite (readASCII_write_any hi _ Lhi). cbn [mbind result_bind].
  rewrite (readASCII_write_any lo _ Llo). cbn [mbind result_bind].
  destruct (negb (hi =? "")%string && negb (lo =? "")%string); reflexivity.
Qed.

Lemma postfix_tag_both_or_none_witness :
  (String.length "_hd" < 255)%nat
  /\ @parseTag empty_records
       (mkParse (set_buffer [x20; x05; x00; x00; x00; x03; x5f; x68; x64; xff;
                             x00; x00; x00; x00; x00] new_SupercellSWF)
          new_Counts new_Locals)
     = Ok (true, mkParse (set_buffer [x00; x00; x00; x00; x00] new_SupercellSWF)
                   new_Counts new_Locals).
Proof.
  assert (Lhi : (String.length "_hd" < 255)%nat) by (cbn; lia).
  split; [exact Lhi|].
  exact (@postfix_tag_both_or_none empty_records new_SupercellSWF new_Counts new_Locals
           "_hd" "" [x00; x00; x00; x00; x00] Lhi ltac:(cbn; lia)).
Defined.

(** ** The base of a path *)

Lemma split_dot_dot_free (e : string) : dot_free e = true -> split_dot e = [e].
Proof.
  induction e as [|a e IH]; [reflexivity|]. cbn [dot_free split_dot].
  destruct (Ascii.eqb a "."); [discriminate|]. cbn [negb andb].
  intros He. rewrite (IH He). reflexivity.
Qed.

Lemma split_dot_cons (s : string) : exists piece pieces, split_dot s = piece :: pieces.
Proof.
  induction s as [|a s IH]; [eexists _, _; reflexivity|].
  cbn [split_dot]. destruct (Ascii.eqb a "."); [eexists _, _; reflexivity|].
  destruct IH as (p & ps & ->). eexists _, _; reflexivity.
Qed.

Lemma append_nil_l (x : string) : ("" ++ x = x)%string.
Proof. reflexivity. Qed.

Lemma append_cons (a : ascii) (s x : string) :
  (String a s ++ x = String a (s ++ x))%string.
Proof. reflexivity. Qed.

Lemma split_dot_app (s e : string) :
  dot_free e = true ->
  split_dot (s ++ String "." e) = split_dot s ++ [e].
Proof.
  intros He. induction s as [|a s IH].
  - rewrite append_nil_l.
    change (split_dot (String "." e)) with (EmptyString :: split_dot e).
    rewrite (split_dot_dot_free e He). reflexivity.
  - rewrite append_cons. cbn [split_dot]. rewrite IH.
    destruct (Ascii.eqb a "."); [reflexivity|].
    destruct (split_dot_cons s) as (p & ps & ->). reflexivity.
Qed.

Lemma concat_split_dot (s : string) : String.concat "." (split_dot s) = s.
Proof.
  induction s as [|a s IH]; [reflexivity|].
  cbn [split_dot]. destruct (Ascii.eqb_spec a ".") as [->|_].
  - destruct (split_dot_cons s) as (p & ps & E). rewrite E in *.
    cbn [String.concat]. cbn [String.append]. rewrite <- IH. reflexivity.
  - destruct (split_dot_cons s) as (p & ps & E). rewrite E in *.
    rewrite <- IH. destruct ps; reflexivity.
Qed.

Lemma basePath_extension (s e : string) :
  dot_free e = true -> basePath (s ++ String "." e) = s.
Proof.
  intros He. unfold basePath. rewrite (split_dot_app s e He), removelast_last.
  apply concat_split_dot.
Qed.

Lemma string_app_length (a b : string) :
  String.length (a ++ b) = (String.length a + String.length b)%nat.
Proof.
  induction a as [|c a IH]; [reflexivity|].
  rewrite append_cons. cbn [String.length]. rewrite IH. reflexivity.
Qed.

Lemma string_app_assoc (a b c : string) : ((a ++ b) ++ c = a ++ (b ++ c))%string.
Proof.
  induction a as [|x a IH]; [reflexivity|]. rewrite !append_cons, IH. reflexivity.
Qed.

(** The texture files never coincide with the main file. *)
Lemma texture_path_not_main (path postfix : string) :
  (basePath path ++ postfix ++ "_tex.sc")%string <> path.
Proof.
  intros E. apply (f_equal basePath) in E.
  change "_tex.sc"%string with ("_tex" ++ String "." "sc")%string in E.
  rewrite <- !string_app_assoc in E.
  rewrite basePath_extension in E by reflexivity.
  apply (f_equal String.length) in E. rewrite !string_app_length in E. cbn in E. lia.
Qed.

(** X11: the base of a path, [path.split('.').slice(0, -1).join('.')],
    removes the last extension and nothing else; a path without a dot has the
    empty base.  The path of a texture file, the base followed by a postfix
    and [_tex.sc], is never the path of the main file. *)
Theorem basePath_strips_last_extension (s e : string) :
  dot_free e = true ->
  basePath (s ++ String "." e) = s
  /\ basePath e = ""%string
  /\ (forall postfix, (basePath (s ++ String "." e) ++ postfix ++ "_tex.sc")%string
                      <> (s ++ String "." e)%string).
Proof.
  intros He. split; [exact (basePath_extension s e He)|]. split.
  - unfold basePath. rewrite (split_dot_dot_free e He). reflexivity.
  - intros postfix. apply texture_path_not_main.
Qed.

Lemma basePath_strips_last_extension_witness :
  dot_free "sc" = true
  /\ basePath "assets/ui.v2.sc" = "assets/ui.v2"%string
  /\ basePath "sc" = ""%string.
Proof.
  assert (He : dot_free "sc" = true) by reflexivity.
  split; [exact He|].
  destruct (basePath_strips_last_extension "assets/ui.v2" "sc" He) as (Hb & He' & _).
  split; [exact Hb|exact He'].
Defined.

(** ** Round trip of a document with texture files *)

Lemma Texture_save_keeps `{ImageResize} (t : Texture) (buf : list byte)
    (hasData isLowres : bool) :
  texture_roundtrips t -> (Texture_save t buf hasData isLowres).1 = t.
Proof.
  intros (_ & _ & _ & _ & f & Hpf & Hf & _).
  unfold Texture_save. cbn [fst]. rewrite (corrected_format_roundtrip t f Hpf Hf).
  destruct t; cbn in *. subst. reflexivity.
Qed.

Lemma Texture_save_header `{ImageResize} (t : Texture) (buf : list byte) :
  texture_roundtrips t ->
  Texture_save t buf false false = (t, buf ++ saveTag 1 (texture_header t) []).
Proof.
  intros Ht. rewrite (surjective_pairing (Texture_save t buf false false)).
  rewrite (Texture_save_keeps t buf false false Ht). f_equal.
  unfold Texture_save. cbn [snd]. apply saveTag_app.
Qed.

Lemma saveTextureList_headers `{ImageResize} (ts : list Texture) (buf : list byte) :
  Forall texture_roundtrips ts ->
  saveTextureList ts buf false false = (ts, buf ++ header_records ts).
Proof.
  intros Hts. revert buf. induction Hts as [|t ts Ht Hts IH]; intros buf.
  - cbn. rewrite app_nil_r. reflexivity.
  - cbn [saveTextureList]. rewrite (Texture_save_header t buf Ht), IH.
    unfold header_records. cbn [flat_map]. rewrite <- app_assoc. reflexivity.
Qed.

Lemma saveTextureList_keeps `{ImageResize} (ts : list Texture) (buf : list byte)
    (hasData isLowres : bool) :
  Forall texture_roundtrips ts ->
  (saveTextureList ts buf hasData isLowres).1 = ts.
Proof.
  intros Hts. revert buf. induction Hts as [|t ts Ht Hts IH]; intros buf; [reflexivity|].
  cbn [saveTextureList].
  rewrite (surjective_pairing (Texture_save t buf hasData isLowres)).
  rewrite (Texture_save_keeps t buf hasData isLowres Ht).
  specialize (IH (Texture_save t buf hasData isLowres).2).
  destruct (saveTextureList ts _ hasData isLowres) as [ts' buf'].
  cbn [fst] in *. subst. reflexivity.
Qed.

(** What [saveAsset] writes for a document of textures only whose textures
    are stored in texture files: the records of the textures hold their
    headers only. *)
Lemma saveAsset_buffer_headers `{ImageResize} `{RecordHandlers} (swf : SupercellSWF) :
  hasExternalTexture swf = true ->
  resources swf = [] ->
  exports swf = [] ->
  banks swf = [new_TransformBank] ->
  Forall texture_roundtrips (textures swf) ->
  saveAsset_buffer swf
  = set_buffer (header_bytes (length (textures swf)) ++ postfix_bytes swf
                ++ marker_bytes swf ++ header_records (textures swf) ++ saveTag 0 [] [])
      swf.
Proof.
  intros Hext Hres Hexp Hbanks Hts.
  unfold saveAsset_buffer. rewrite Hres, !idsOf_empty.
  assert (Hheader : saveHeader [] [] [] swf
                    = set_buffer (header_bytes (length (textures swf))) swf).
  { unfold saveHeader, TransformBank_save, Exports_save, header_bytes, fill.
    cbn [banks set_buffer buffer exports length]. rewrite Hbanks, Hexp.
    cbn [fold_left length matrices colors new_TransformBank set_buffer buffer].
    rewrite (writeUInt16_app 0 (_ ++ _)), <- !app_assoc.
    destruct swf; reflexivity. }
  rewrite Hheader, savePostfix_bytes, saveMarkers_bytes.
  cbn [hasExternalTexture set_buffer]. rewrite Hext. cbn [negb].
  unfold saveTextures. cbn [textures buffer set_buffer].
  rewrite (saveTextureList_headers _ _ Hts).
  unfold saveModifiers, saveBanks. cbn [length fold_left Nat.ltb Nat.leb banks set_buffer
                                         set_textures].
  rewrite Hbanks. cbn [imap fold_left saveBank Nat.ltb Nat.leb matrices colors
                         new_TransformBank].
  rewrite saveTag_app. cbn [buffer set_buffer textures set_textures].
  unfold postfix_bytes, marker_bytes.
  cbn [useUncommonTexture useLowresTexture hasExternalTexture highresPostfix
         lowresPostfix set_buffer].
  rewrite <- !app_assoc. destruct swf; reflexivity.
Qed.

Lemma saveAsset_buffer_external `{ImageResize} `{RecordHandlers} (swf : SupercellSWF) :
  external_roundtrips swf ->
  saveAsset_buffer swf
  = set_buffer (header_bytes (length (textures swf)) ++ postfix_bytes swf
                ++ marker_bytes swf ++ header_records (textures swf) ++ saveTag 0 [] [])
      swf.
Proof.
  intros (Hext & Hres & Hexp & Hbanks & _ & Hts & _).
  apply saveAsset_buffer_headers; assumption.
Qed.

Lemma saveExternalTexture_file `{Envelope} `{ImageResize} (path : string) (isLowres : bool)
    (swf : SupercellSWF) (fs : FileSystem) :
  Forall texture_roundtrips (textures swf) ->
  (saveExternalTexture path isLowres swf fs).1 = set_buffer [] swf
  /\ exists bytes, (saveExternalTexture path isLowres swf fs).2 = <[path := bytes]> fs
       /\ (isLowres = false ->
           bytes = toCompressed (compression swf)
                     (texture_records (textures swf) ++ saveTag 0 [] [])).
Proof.
  intros Hts. unfold saveExternalTexture, saveTextures.
  cbn [textures buffer set_buffer].
  pose proof (saveTextureList_keeps (textures swf) [] true isLowres Hts) as Hkeep.
  destruct (saveTextureList (textures swf) [] true isLowres) as [ts' buf'] eqn:Es.
  cbn [fst] in Hkeep. subst ts'.
  cbn [fst snd buffer set_buffer compression set_textures].
  split; [destruct swf; reflexivity|].
  eexists. split; [reflexivity|].
  intros ->. rewrite (saveTextureList_roundtrip _ _ Hts) in Es.
  injection Es as <-. rewrite saveTag_app. reflexivity.
Qed.

Lemma load_texture_header (t : Texture) (rest : list byte) :
  texture_roundtrips t ->
  load_texture 1 false (texture_header t ++ rest) = Ok (texture_stub t, rest).
Proof.
  intros (_ & _ & Hw & Hh & f & Hpf & Hf & _).
  destruct (format_of_kind _ _ Hf) as (Hidx & _).
  unfold load_texture, texture_header, texture_stub. rewrite Hpf.
  rewrite writeUInt16_app, (writeUInt16_app _ (writeUInt8 _ _)), <- !app_assoc.
  rewrite readUInt8_write. cbn [mbind result_bind].
  rewrite readUInt16_write. cbn [mbind result_bind].
  rewrite readUInt16_write. cbn [mbind result_bind].
  rewrite !Z.mod_small by lia. rewrite !Nat2Z.id.
  cbn zeta. rewrite new_Image_Ok by lia. reflexivity.
Qed.

Lemma insert_middle {A : Type} (done todo : list A) (old new : A) :
  <[length done := new]> (done ++ old :: todo) = (done ++ [new]) ++ todo.
Proof.
  rewrite <- app_assoc. cbn [app].
  replace (length done) with (length done + 0)%nat at 1 by lia.
  rewrite insert_app_r. reflexivity.
Qed.

(** A turn on the record of a texture, when its slot is there: the slot
    receives what [Texture.load] reads, whatever it held. *)
Lemma parseTag_texture_slot `{RecordHandlers} (swf : SupercellSWF) (c : Counts)
    (l : Locals) (done todo : list Texture) (old t : Texture) (tag : Z)
    (payload rest : list byte) :
  tag ∈ TEXTURE_TAGS ->
  texturesLoaded l = length done ->
  textures swf = done ++ old :: todo ->
  load_texture tag (hasTextureData l) (payload ++ rest) = Ok (t, rest) ->
  parseTag (mkParse (set_buffer (saveTag tag payload [] ++ rest) swf) c l)
  = Ok (true,
        mkParse (set_buffer rest (set_textures ((done ++ [t]) ++ todo) swf)) c
          (mkLocals (hasTextureData l) (shapesLoaded l) (movieclipsLoaded l)
             (textfieldsLoaded l) (modifiersLoaded l) (banksLoaded l) (matricesLoaded l)
             (colorsLoaded l) (S (length done)))).
Proof.
  intros Htag Hloaded Htexs Hload.
  assert (Hrange : 0 < tag < 256).
  { unfold TEXTURE_TAGS in Htag.
    repeat (apply elem_of_cons in Htag as [->|Htag]; [lia|]).
    apply elem_of_nil in Htag. destruct Htag. }
  open_record tag payload rest.
  assert (Htex : tag_in TEXTURE_TAGS tag = true)
    by (apply bool_decide_eq_true; exact Htag).
  assert (Hnz : (tag =? 0) = false) by (apply Z.eqb_neq; lia).
  rewrite Hnz, Htex. cbn [textures set_textures set_buffer].
  fold (textures swf). rewrite Htexs, Hloaded.
  destruct (Nat.ltb_spec (length done) (length (done ++ old :: todo))) as [_|Hge];
    [|rewrite length_app in Hge; cbn in Hge; lia].
  unfold Texture_load. rewrite Hload. cbn [mbind result_bind].
  rewrite insert_middle. reflexivity.
Qed.

(** A turn on the record of a texture with pixel data, when every slot has
    been used: the texture is appended. *)
Lemma parseTag_texture_push `{RecordHandlers} (swf : SupercellSWF) (c : Counts)
    (l : Locals) (t : Texture) (tag : Z) (payload rest : list byte) :
  tag ∈ TEXTURE_TAGS ->
  hasTextureData l = true ->
  texturesLoaded l = length (textures swf) ->
  load_texture tag true (payload ++ rest) = Ok (t, rest) ->
  parseTag (mkParse (set_buffer (saveTag tag payload [] ++ rest) swf) c l)
  = Ok (true,
        mkParse (set_buffer rest (set_textures (textures swf ++ [t]) swf)) c
          (mkLocals true (shapesLoaded l) (movieclipsLoaded l)
             (textfieldsLoaded l) (modifiersLoaded l) (banksLoaded l) (matricesLoaded l)
             (colorsLoaded l) (S (length (textures swf))))).
Proof.
  intros Htag Hdata Hloaded Hload.
  assert (Hrange : 0 < tag < 256).
  { unfold TEXTURE_TAGS in Htag.
    repeat (apply elem_of_cons in Htag as [->|Htag]; [lia|]).
    apply elem_of_nil in Htag. destruct Htag. }
  open_record tag payload rest.
  assert (Htex : tag_in TEXTURE_TAGS tag = true)
    by (apply bool_decide_eq_true; exact Htag).
  assert (Hnz : (tag =? 0) = false) by (apply Z.eqb_neq; lia).
  rewrite Hnz, Htex. cbn [textures set_textures set_buffer].
  fold (textures swf). rewrite Hloaded, Hdata.
  destruct (Nat.ltb_spec (length (textures swf)) (length (textures swf))) as [Hlt|_];
    [lia|].
  unfold Texture_load. rewrite Hload. cbn [mbind result_bind]. reflexivity.
Qed.

Lemma tag_1_texture : 1 ∈ TEXTURE_TAGS.
Proof. unfold TEXTURE_TAGS. apply list_elem_of_here. Qed.

(** The run over the header-only records of a list of textures: every slot
    receives the stub of its texture. *)
Lemma turns_header_records `{RecordHandlers} (c : Counts)
    (a b d e : Z) (i j k : nat) (todo done olds : list Texture) (rest : list byte)
    (swf : SupercellSWF) :
  Forall texture_roundtrips todo ->
  length olds = length todo ->
  textures swf = done ++ olds ->
  turns
    (mkParse (set_buffer (header_records todo ++ rest) swf) c
             (mkLocals false a b d e i j k (length done)))
    (map (fun _ => 1) todo)
    (mkParse (set_buffer rest (set_textures (done ++ map texture_stub todo) swf)) c
             (mkLocals false a b d e i j k (length done + length todo))).
Proof.
  intros Htodo. revert done olds swf.
  induction Htodo as [|t todo Ht Htodo IH]; intros done olds swf Hlen Htexs.
  - destruct olds; [|discriminate].
    cbn [header_records flat_map map length app] in *.
    rewrite app_nil_r in Htexs. rewrite app_nil_r, Nat.add_0_r, <- Htexs.
    replace (set_buffer rest (set_textures (textures swf) swf)) with (set_buffer rest swf)
      by (destruct swf; reflexivity).
    apply turns_nil.
  - destruct olds as [|old olds]; [discriminate|]. cbn [length] in Hlen.
    cbn [map length header_records flat_map] in *. rewrite <- app_assoc.
    eapply turns_cons.
    + cbn [this buffer set_buffer]. apply peek_saveTag. lia.
    + exact (parseTag_texture_slot swf c (mkLocals false a b d e i j k (length done))
               done olds old (texture_stub t) 1 (texture_header t) _
               tag_1_texture eq_refl Htexs (load_texture_header t _ Ht)).
    + cbn [shapesLoaded movieclipsLoaded textfieldsLoaded modifiersLoaded banksLoaded
             matricesLoaded colorsLoaded hasTextureData].
      replace (done ++ texture_stub t :: map texture_stub todo)
        with ((done ++ [texture_stub t]) ++ map texture_stub todo)
        by (rewrite <- app_assoc; reflexivity).
      replace (S (length done)) with (length (done ++ [texture_stub t]))
        by (rewrite length_app; cbn; lia).
      replace (length done + S (length todo))%nat
        with (length (done ++ [texture_stub t]) + length todo)%nat
        by (rewrite length_app; cbn; lia).
      apply (IH (done ++ [texture_stub t]) olds
                (set_textures ((done ++ [texture_stub t]) ++ olds) swf)).
      * lia.
      * reflexivity.
Qed.

(** The run over the records of a list of textures that round-trip, when
    the slots are there: every slot receives its texture. *)
Lemma turns_texture_slots `{RecordHandlers} (c : Counts)
    (a b d e : Z) (i j k : nat) (todo done olds : list Texture) (rest : list byte)
    (swf : SupercellSWF) :
  Forall texture_roundtrips todo ->
  length olds = length todo ->
  textures swf = done ++ olds ->
  turns
    (mkParse (set_buffer (texture_records todo ++ rest) swf) c
             (mkLocals true a b d e i j k (length done)))
    (map save_tag todo)
    (mkParse (set_buffer rest (set_textures (done ++ todo) swf)) c
             (mkLocals true a b d e i j k (length done + length todo))).
Proof.
  intros Htodo. revert done olds swf.
  induction Htodo as [|t todo Ht Htodo IH]; intros done olds swf Hlen Htexs.
  - destruct olds; [|discriminate].
    cbn [texture_records flat_map map length app] in *.
    rewrite app_nil_r in Htexs. rewrite app_nil_r, Nat.add_0_r, <- Htexs.
    replace (set_buffer rest (set_textures (textures swf) swf)) with (set_buffer rest swf)
      by (destruct swf; reflexivity).
    apply turns_nil.
  - destruct olds as [|old olds]; [discriminate|]. cbn [length] in Hlen.
    cbn [map length texture_records flat_map] in *. rewrite <- app_assoc.
    destruct (save_tag_roundtrip t (proj1 Ht)) as (Htag & Hrange & _).
    eapply turns_cons.
    + cbn [this buffer set_buffer]. apply peek_saveTag. lia.
    + exact (parseTag_texture_slot swf c (mkLocals true a b d e i j k (length done))
               done olds old t (save_tag t) (texture_payload t) _
               Htag eq_refl Htexs (load_texture_roundtrip t _ Ht)).
    + cbn [shapesLoaded movieclipsLoaded textfieldsLoaded modifiersLoaded banksLoaded
             matricesLoaded colorsLoaded hasTextureData].
      replace (done ++ t :: todo) with ((done ++ [t]) ++ todo)
        by (rewrite <- app_assoc; reflexivity).
      replace (S (length done)) with (length (done ++ [t]))
        by (rewrite length_app; cbn; lia).
      replace (length done + S (length todo))%nat
        with (length (done ++ [t]) + length todo)%nat
        by (rewrite length_app; cbn; lia).
      apply (IH (done ++ [t]) olds (set_textures ((done ++ [t]) ++ olds) swf)).
      * lia.
      * reflexivity.
Qed.

(** The same run when no slot is left: every texture is appended. *)
Lemma turns_texture_pushes `{RecordHandlers} (c : Counts)
    (a b d e : Z) (i j k : nat) (todo done : list Texture) (rest : list byte)
    (swf : SupercellSWF) :
  Forall texture_roundtrips todo ->
  textures swf = done ->
  turns
    (mkParse (set_buffer (texture_records todo ++ rest) swf) c
             (mkLocals true a b d e i j k (length done)))
    (map save_tag todo)
    (mkParse (set_buffer rest (set_textures (done ++ todo) swf)) c
             (mkLocals true a b d e i j k (length done + length todo))).
Proof.
  intros Htodo. revert done swf.
  induction Htodo as [|t todo Ht Htodo IH]; intros done swf Htexs.
  - cbn [texture_records flat_map map length app] in *.
    rewrite app_nil_r, Nat.add_0_r, <- Htexs.
    replace (set_buffer rest (set_textures (textures swf) swf)) with (set_buffer rest swf)
      by (destruct swf; reflexivity).
    apply turns_nil.
  - cbn [map length texture_records flat_map] in *. rewrite <- app_assoc.
    destruct (save_tag_roundtrip t (proj1 Ht)) as (Htag & Hrange & _).
    eapply turns_cons.
    + cbn [this buffer set_buffer]. apply peek_saveTag. lia.
    + rewrite <- Htexs.
      exact (parseTag_texture_push swf c
               (mkLocals true a b d e i j k (length (textures swf)))
               t (save_tag t) (texture_payload t) _
               Htag eq_refl eq_refl (load_texture_roundtrip t _ Ht)).
    + cbn [shapesLoaded movieclipsLoaded textfieldsLoaded modifiersLoaded banksLoaded
             matricesLoaded colorsLoaded hasTextureData].
      rewrite Htexs.
      replace (done ++ t :: todo) with ((done ++ [t]) ++ todo)
        by (rewrite <- app_assoc; reflexivity).
      replace (S (length done)) with (length (done ++ [t]))
        by (rewrite length_app; cbn; lia).
      replace (length done + S (length todo))%nat
        with (length (done ++ [t]) + length todo)%nat
        by (rewrite length_app; cbn; lia).
      apply (IH (done ++ [t]) (set_textures (done ++ [t]) swf)).
      reflexivity.
Qed.

Lemma parseTag_marker_26 `{RecordHandlers} (swf : SupercellSWF) (c : Counts)
    (a b d e : Z) (i j k n : nat) (data : bool) (rest : list byte) :
  parseTag (mkParse (set_buffer (saveTag 26 [] [] ++ rest) swf) c
              (mkLocals data a b d e i j k n))
  = Ok (true, mkParse (set_hasExternalTexture true (set_buffer rest swf)) c
                (mkLocals false a b d e i j k n)).
Proof. open_record 26 (@nil byte) rest. reflexivity. Qed.

(** The tag stream of a texture file, read into an instance that has a slot
    for every texture. *)
Lemma parseTags_texture_file `{RecordHandlers} (swf : SupercellSWF) (c : Counts)
    (texs : list Texture) :
  Forall texture_roundtrips texs ->
  length (textures swf) = length texs ->
  parseTags (set_buffer (texture_records texs ++ saveTag 0 [] []) swf) c
  = Ok (set_buffer [] (set_textures texs swf), c).
Proof.
  intros Hts Hlen.
  pose proof (turns_texture_slots c 0 0 0 0 0 0 0 texs [] (textures swf)
                (saveTag 0 [] [] ++ []) swf Hts Hlen eq_refl) as T.
  rewrite app_nil_r in T.
  pose proof (parseTag_terminator (set_textures ([] ++ texs) swf) c
                (mkLocals true 0 0 0 0 0 0 0 (length (@nil Texture) + length texs)) [])
    as Hlast.
  rewrite app_nil_r in Hlast.
  unfold parseTags.
  assert (Hrun : parseTags_loop
                   (S (length (buffer (set_buffer (texture_records texs ++ saveTag 0 [] [])
                                         swf))))
                   (mkParse (set_buffer (texture_records texs ++ saveTag 0 [] []) swf) c
                      new_Locals)
                 = Ok (mkParse (set_buffer [] (set_textures ([] ++ texs) swf)) c
                         (mkLocals true 0 0 0 0 0 0 0
                            (length (@nil Texture) + length texs)))).
  { eapply turns_result; [exact T|exact Hlast|].
    cbn [buffer set_buffer]. rewrite length_app, length_map.
    pose proof (length_texture_records texs). lia. }
  rewrite Hrun. reflexivity.
Qed.

(** The same stream read into an instance without textures. *)
Lemma parseTags_texture_file_fresh `{RecordHandlers} (swf : SupercellSWF) (c : Counts)
    (texs : list Texture) :
  Forall texture_roundtrips texs ->
  textures swf = [] ->
  parseTags (set_buffer (texture_records texs ++ saveTag 0 [] []) swf) c
  = Ok (set_buffer [] (set_textures texs swf), c).
Proof.
  intros Hts Hnone.
  pose proof (turns_texture_pushes c 0 0 0 0 0 0 0 texs []
                (saveTag 0 [] [] ++ []) swf Hts Hnone) as T.
  rewrite app_nil_r in T.
  pose proof (parseTag_terminator (set_textures ([] ++ texs) swf) c
                (mkLocals true 0 0 0 0 0 0 0 (length (@nil Texture) + length texs)) [])
    as Hlast.
  rewrite app_nil_r in Hlast.
  unfold parseTags.
  assert (Hrun : parseTags_loop
                   (S (length (buffer (set_buffer (texture_records texs ++ saveTag 0 [] [])
                                         swf))))
                   (mkParse (set_buffer (texture_records texs ++ saveTag 0 [] []) swf) c
                      new_Locals)
                 = Ok (mkParse (set_buffer [] (set_textures ([] ++ texs) swf)) c
                         (mkLocals true 0 0 0 0 0 0 0
                            (length (@nil Texture) + length texs)))).
  { eapply turns_result; [exact T|exact Hlast|].
    cbn [buffer set_buffer]. rewrite length_app, length_map.
    pose proof (length_texture_records texs). lia. }
  rewrite Hrun. reflexivity.
Qed.

Lemma length_header_records (ts : list Texture) :
  (length ts <= length (header_records ts))%nat.
Proof.
  induction ts as [|t ts IH]; [cbn; lia|].
  unfold header_records in *. cbn [flat_map length].
  rewrite length_app, length_saveTag. lia.
Qed.

(** The tag stream of the main file of a document with texture files, read
    back by [parseTags]. *)
Lemma parseTags_external_stream `{RecordHandlers} (comp : COMPRESSION) (unc low both : bool)
    (hi lo : string) (texs : list Texture) :
  (both = true ->
   hi <> ""%string /\ lo <> ""%string
   /\ (String.length hi < 255)%nat /\ (String.length lo < 255)%nat) ->
  Forall texture_roundtrips texs ->
  parseTags
    (mkSWF comp false false false [] (replicate (length texs) new_Texture)
           "_highres" "_lowres" [new_TransformBank] []
           ((if both then saveTag 32 (writeASCII lo (writeASCII hi [])) [] else [])
            ++ (if low then saveTag 23 [] [] else [])
            ++ (if unc then saveTag 30 [] [] else [])
            ++ saveTag 26 [] []
            ++ header_records texs ++ saveTag 0 [] []))
    new_Counts
  = Ok (mkSWF comp true unc low [] (map texture_stub texs)
              (if both then hi else "_highres"%string)
              (if both then lo else "_lowres"%string)
              [new_TransformBank] [] [],
        new_Counts).
Proof.
  intros Hboth Hts.
  set (base := mkSWF comp false false false [] (replicate (length texs) new_Texture)
                     "_highres" "_lowres" [new_TransformBank] [] []).
  set (s1 := if both then set_postfixes hi lo base else base).
  set (s2 := if low then set_useLowresTexture true s1 else s1).
  set (s3 := if unc then set_useUncommonTexture true s2 else s2).
  set (s4 := set_hasExternalTexture true s3).
  assert (Htexs : textures s4 = [] ++ replicate (length texs) new_Texture)
    by (unfold s4, s3, s2, s1; destruct both, low, unc; reflexivity).
  pose proof (turns_postfix base new_Counts new_Locals both hi lo
                ((if low then saveTag 23 [] [] else [])
                 ++ (if unc then saveTag 30 [] [] else [])
                 ++ saveTag 26 [] []
                 ++ header_records texs ++ saveTag 0 [] []) Hboth) as T1.
  pose proof (turns_marker_23 s1 new_Counts new_Locals low
                ((if unc then saveTag 30 [] [] else [])
                 ++ saveTag 26 [] []
                 ++ header_records texs ++ saveTag 0 [] [])) as T2.
  pose proof (turns_marker_30 s2 new_Counts new_Locals unc
                (saveTag 26 [] [] ++ header_records texs ++ saveTag 0 [] [])) as T3.
  assert (T4 : turns
                 (mkParse (set_buffer (saveTag 26 [] []
                                       ++ header_records texs ++ saveTag 0 [] []) s3)
                    new_Counts new_Locals)
                 [26]
                 (mkParse (set_buffer (header_records texs ++ saveTag 0 [] []) s4)
                    new_Counts (mkLocals false 0 0 0 0 0 0 0 0))).
  { apply turns_one.
    - cbn [this buffer set_buffer]. apply peek_saveTag. lia.
    - unfold new_Locals. rewrite parseTag_marker_26. unfold s4.
      destruct s3; reflexivity. }
  pose proof (turns_header_records new_Counts 0 0 0 0 0 0 0 texs []
                (replicate (length texs) new_Texture)
                (saveTag 0 [] [] ++ []) s4 Hts (length_replicate _ _) Htexs) as T5.
  rewrite app_nil_r in T5.
  pose proof (turns_app _ _ _ _ _ T1
                (turns_app _ _ _ _ _ T2
                   (turns_app _ _ _ _ _ T3 (turns_app _ _ _ _ _ T4 T5))))
    as Hturns.
  pose proof (parseTag_terminator (set_textures ([] ++ map texture_stub texs) s4) new_Counts
                (mkLocals false 0 0 0 0 0 0 0 (length (@nil Texture) + length texs)) [])
    as Hlast.
  rewrite app_nil_r in Hlast.
  unfold parseTags.
  match goal with
  | |- parseTags_loop ?fuel ?st ≫= _ = _ =>
      assert (Hrun : parseTags_loop fuel st
                     = Ok (mkParse (set_buffer [] (set_textures ([] ++ map texture_stub texs)
                                                     s4))
                             new_Counts
                             (mkLocals false 0 0 0 0 0 0 0
                                (length (@nil Texture) + length texs))))
  end.
  { eapply turns_result; [exact Hturns|exact Hlast|].
    cbn [buffer]. rewrite !length_app, length_map.
    pose proof (length_header_records texs).
    destruct both, low, unc; cbn [length]; rewrite ?length_saveTag; lia. }
  rewrite Hrun. cbn [mbind result_bind this priv]. unfold s4, s3, s2, s1, base.
  destruct both, low, unc; reflexivity.
Qed.

(** The header of a document of textures only, read back by [loadAsset]
    from a file system that holds the file. *)
Lemma loadAsset_file `{Envelope} `{RecordHandlers} (path : string) (fs : FileSystem)
    (comp : COMPRESSION) (n : nat) (stream : list byte) :
  (forall m plain, fromCompressed (toCompressed m plain) = (m, plain)) ->
  Z.of_nat n < 65536 ->
  fs !! path = Some (toCompressed comp (header_bytes n ++ stream)) ->
  loadAsset path fs new_SupercellSWF new_Counts
  = parseTags
      (mkSWF comp false false false [] (replicate n new_Texture) "_highres" "_lowres"
             [new_TransformBank] [] stream)
      new_Counts.
Proof.
  intros Henv Hn Hfile.
  rewrite <- (loadAsset_header path fs comp n stream Henv Hn).
  unfold loadAsset. rewrite Hfile, lookup_insert_eq. reflexivity.
Qed.

(** ** Texture tags beyond the declared count *)

(** A turn on the record of a texture when every slot has been used: the
    texture is appended when the records carry pixel data, and dropped when
    they do not. *)
Lemma parseTag_texture_beyond `{RecordHandlers} (swf : SupercellSWF) (c : Counts)
    (l : Locals) (t : Texture) (tag : Z) (payload rest : list byte) :
  tag ∈ TEXTURE_TAGS ->
  (length (textures swf) <= texturesLoaded l)%nat ->
  load_texture tag (hasTextureData l) (payload ++ rest) = Ok (t, rest) ->
  parseTag (mkParse (set_buffer (saveTag tag payload [] ++ rest) swf) c l)
  = Ok (true,
        mkParse (set_buffer rest
                   (set_textures
                      (if hasTextureData l then textures swf ++ [t] else textures swf)
                      swf)) c
          (mkLocals (hasTextureData l) (shapesLoaded l) (movieclipsLoaded l)
             (textfieldsLoaded l) (modifiersLoaded l) (banksLoaded l) (matricesLoaded l)
             (colorsLoaded l) (S (texturesLoaded l)))).
Proof.
  intros Htag Hloaded Hload.
  assert (Hrange : 0 < tag < 256).
  { unfold TEXTURE_TAGS in Htag.
    repeat (apply elem_of_cons in Htag as [->|Htag]; [lia|]).
    apply elem_of_nil in Htag. destruct Htag. }
  open_record tag payload rest.
  assert (Htex : tag_in TEXTURE_TAGS tag = true)
    by (apply bool_decide_eq_true; exact Htag).
  assert (Hnz : (tag =? 0) = false) by (apply Z.eqb_neq; lia).
  rewrite Hnz, Htex. cbn [textures set_textures set_buffer].
  fold (textures swf).
  destruct (Nat.ltb_spec (texturesLoaded l) (length (textures swf))) as [Hlt|_];
    [lia|].
  unfold Texture_load. rewrite Hload. cbn [mbind result_bind].
  destruct (hasTextureData l); reflexivity.
Qed.

Lemma texture_tag_range (tag : Z) : tag ∈ TEXTURE_TAGS -> 0 <= tag < 256.
Proof.
  unfold TEXTURE_TAGS. intros Htag.
  repeat (apply elem_of_cons in Htag as [->|Htag]; [lia|]).
  apply elem_of_nil in Htag. destruct Htag.
Qed.

(** The run over texture records that find a slot each: every slot receives
    the texture of its record. *)
Lemma turns_record_slots `{RecordHandlers} (c : Counts) (data : bool)
    (a b d e : Z) (i j k : nat) (recs : list (Z * list byte)) (ts done olds more : list Texture)
    (rest : list byte) (swf : SupercellSWF) :
  Forall2 (texture_record_loads data) recs ts ->
  length olds = length ts ->
  textures swf = done ++ olds ++ more ->
  turns
    (mkParse (set_buffer (tag_records recs ++ rest) swf) c
             (mkLocals data a b d e i j k (length done)))
    (map fst recs)
    (mkParse (set_buffer rest (set_textures (done ++ ts ++ more) swf)) c
             (mkLocals data a b d e i j k (length done + length ts))).
Proof.
  intros Hrecs. revert done olds swf.
  induction Hrecs as [|[tag payload] t recs ts [Htag Hload] Hrecs IH];
    intros done olds swf Hlen Htexs.
  - destruct olds; [|discriminate].
    cbn [tag_records flat_map map length app] in *.
    rewrite Nat.add_0_r, <- Htexs.
    replace (set_buffer rest (set_textures (textures swf) swf)) with (set_buffer rest swf)
      by (destruct swf; reflexivity).
    apply turns_nil.
  - destruct olds as [|old olds]; [discriminate|]. cbn [length] in Hlen.
    cbn [fst snd] in Htag, Hload.
    cbn [map length tag_records flat_map fst snd]. rewrite <- app_assoc.
    fold (tag_records recs).
    eapply turns_cons.
    + cbn [this buffer set_buffer]. apply peek_saveTag, texture_tag_range, Htag.
    + exact (parseTag_texture_slot swf c (mkLocals data a b d e i j k (length done))
               done (olds ++ more) old t tag payload _ Htag eq_refl Htexs (Hload _)).
    + cbn [shapesLoaded movieclipsLoaded textfieldsLoaded modifiersLoaded banksLoaded
             matricesLoaded colorsLoaded hasTextureData].
      replace (done ++ (t :: ts) ++ more) with ((done ++ [t]) ++ ts ++ more)
        by (rewrite <- app_assoc; reflexivity).
      replace (S (length done)) with (length (done ++ [t]))
        by (rewrite length_app; cbn; lia).
      replace (length done + S (length ts))%nat
        with (length (done ++ [t]) + length ts)%nat
        by (rewrite length_app; cbn; lia).
      apply (IH (done ++ [t]) olds (set_textures ((done ++ [t]) ++ olds ++ more) swf)).
      * lia.
      * reflexivity.
Qed.

(** The run over texture records that find no slot: with pixel data every
    texture is appended, without it every texture is dropped; no turn
    fails. *)
Lemma turns_records_beyond `{RecordHandlers} (c : Counts) (data : bool)
    (a b d e : Z) (i j k n : nat) (recs : list (Z * list byte)) (ts : list Texture)
    (rest : list byte) (swf : SupercellSWF) :
  Forall2 (texture_record_loads data) recs ts ->
  (length (textures swf) <= n)%nat ->
  turns
    (mkParse (set_buffer (tag_records recs ++ rest) swf) c
             (mkLocals data a b d e i j k n))
    (map fst recs)
    (mkParse (set_buffer rest
                (set_textures (if data then textures swf ++ ts else textures swf) swf)) c
             (mkLocals data a b d e i j k (n + length ts))).
Proof.
  intros Hrecs. revert n swf.
  induction Hrecs as [|[tag payload] t recs ts [Htag Hload] Hrecs IH];
    intros n swf Hlen.
  - cbn [tag_records flat_map map length app].
    rewrite Nat.add_0_r, app_nil_r.
    replace (set_textures (if data then textures swf else textures swf) swf) with swf
      by (destruct data, swf; reflexivity).
    apply turns_nil.
  - cbn [fst snd] in Htag, Hload.
    cbn [map length tag_records flat_map fst snd]. rewrite <- app_assoc.
    fold (tag_records recs).
    eapply turns_cons.
    + cbn [this buffer set_buffer]. apply peek_saveTag, texture_tag_range, Htag.
    + exact (parseTag_texture_beyond swf c (mkLocals data a b d e i j k n)
               t tag payload _ Htag Hlen (Hload _)).
    + cbn [shapesLoaded movieclipsLoaded textfieldsLoaded modifiersLoaded banksLoaded
             matricesLoaded colorsLoaded hasTextureData texturesLoaded].
      replace (n + S (length ts))%nat with (S n + length ts)%nat by lia.
      pose proof (IH (S n)
                     (set_textures (if data then textures swf ++ [t] else textures swf) swf))
        as T.
      cbn [textures set_textures set_buffer] in T. fold (textures swf) in T.
      replace (set_textures
                 (if data then (if data then textures swf ++ [t] else textures swf) ++ ts
                  else if data then textures swf ++ [t] else textures swf)
                 (set_textures (if data then textures swf ++ [t] else textures swf) swf))
        with (set_textures (if data then textures swf ++ t :: ts else textures swf) swf)
        in T
        by (destruct data; [rewrite <- app_assoc|]; reflexivity).
      apply T. destruct data; [rewrite length_app; cbn [length]|]; lia.
Qed.

Lemma length_tag_records (recs : list (Z * list byte)) :
  (length recs <= length (tag_records recs))%nat.
Proof.
  induction recs as [|r recs IH]; [cbn; lia|].
  unfold tag_records in *. cbn [flat_map length].
  rewrite length_app, length_saveTag. lia.
Qed.

Lemma tag_records_app (r1 r2 : list (Z * list byte)) :
  tag_records (r1 ++ r2) = tag_records r1 ++ tag_records r2.
Proof. unfold tag_records. apply flat_map_app. Qed.

(** The run over any list of texture records: the first records fill the
    slots, the others find none. *)
Lemma turns_texture_stream `{RecordHandlers} (c : Counts) (data : bool)
    (a b d e : Z) (i j k : nat) (recs : list (Z * list byte)) (ts : list Texture)
    (rest : list byte) (swf : SupercellSWF) :
  Forall2 (texture_record_loads data) recs ts ->
  turns
    (mkParse (set_buffer (tag_records recs ++ rest) swf) c
             (mkLocals data a b d e i j k 0))
    (map fst recs)
    (mkParse (set_buffer rest
                (set_textures
                   ((if data then ts else take (length (textures swf)) ts)
                    ++ drop (length ts) (textures swf)) swf)) c
             (mkLocals data a b d e i j k (length ts))).
Proof.
  intros Hrecs.
  pose proof (Forall2_length _ _ _ Hrecs) as Hlen.
  set (n := length (textures swf)).
  destruct (Nat.le_gt_cases (length ts) n) as [Hle|Hgt].
  { pose proof (turns_record_slots c data a b d e i j k recs ts []
                  (take (length ts) (textures swf)) (drop (length ts) (textures swf))
                  rest swf Hrecs) as T.
    cbn [app length Nat.add] in T.
    rewrite (take_ge ts n) by lia.
    replace (if data then ts else ts) with ts by (destruct data; reflexivity).
    apply T.
    - rewrite length_take. fold n. lia.
    - rewrite take_drop. reflexivity. }
  rewrite <- (take_drop n recs), tag_records_app, map_app, <- app_assoc.
  pose proof (Forall2_take _ _ _ n Hrecs) as Hslots.
  pose proof (Forall2_drop _ _ _ n Hrecs) as Hbeyond.
  rewrite (drop_ge (textures swf)), app_nil_r by (fold n; lia).
  eapply turns_app.
  - apply (turns_record_slots c data a b d e i j k (take n recs) (take n ts) []
             (textures swf) [] _ swf Hslots).
    + rewrite length_take. fold n. lia.
    + rewrite app_nil_r. reflexivity.
  - cbn [length app Nat.add]. rewrite app_nil_r.
    pose proof (turns_records_beyond c data a b d e i j k (length (take n ts))
                  (drop n recs) (drop n ts) rest
                  (set_textures (take n ts) swf) Hbeyond) as T.
    cbn [textures set_textures set_buffer] in T.
    replace (length (take n ts) + length (drop n ts))%nat with (length ts) in T
      by (rewrite <- length_app, take_drop; reflexivity).
    replace (set_buffer rest (set_textures (if data then ts else take n ts) swf))
      with (set_buffer rest
              (set_textures (if data then take n ts ++ drop n ts else take n ts)
                 (set_textures (take n ts) swf)))
      by (rewrite take_drop; destruct swf; reflexivity).
    apply T. lia.
Qed.

(** The tag stream of texture records, read by [parseTags] into any
    instance: the loop ends on the terminator, whatever the number of
    records and of slots. *)
Lemma parseTags_texture_records `{RecordHandlers} (swf : SupercellSWF) (c : Counts)
    (data : bool) (recs : list (Z * list byte)) (ts : list Texture) :
  Forall2 (texture_record_loads data) recs ts ->
  parseTags
    (set_buffer ((if data then [] else saveTag 26 [] [])
                 ++ tag_records recs ++ saveTag 0 [] []) swf) c
  = Ok (set_buffer []
          (set_textures
             ((if data then ts else take (length (textures swf)) ts)
              ++ drop (length ts) (textures swf))
             (if data then swf else set_hasExternalTexture true swf)),
        c).
Proof.
  intros Hrecs.
  set (s1 := if data then swf else set_hasExternalTexture true swf).
  assert (Htexs : textures s1 = textures swf) by (unfold s1; destruct data; reflexivity).
  assert (T1 : turns
                 (mkParse (set_buffer ((if data then [] else saveTag 26 [] [])
                                       ++ tag_records recs ++ saveTag 0 [] []) swf)
                    c new_Locals)
                 (if data then [] else [26])
                 (mkParse (set_buffer (tag_records recs ++ saveTag 0 [] []) s1)
                    c (mkLocals data 0 0 0 0 0 0 0 0))).
  { unfold s1. destruct data; [apply turns_nil|].
    apply turns_one.
    - cbn [this buffer set_buffer]. apply peek_saveTag. lia.
    - unfold new_Locals. rewrite parseTag_marker_26. destruct swf; reflexivity. }
  pose proof (turns_texture_stream c data 0 0 0 0 0 0 0 recs ts (saveTag 0 [] [] ++ [])
                s1 Hrecs) as T2.
  rewrite app_nil_r, Htexs in T2.
  pose proof (turns_app _ _ _ _ _ T1 T2) as Hturns.
  pose proof (parseTag_terminator
                (set_textures ((if data then ts else take (length (textures swf)) ts)
                               ++ drop (length ts) (textures swf)) s1) c
                (mkLocals data 0 0 0 0 0 0 0 (length ts)) []) as Hlast.
  rewrite app_nil_r in Hlast.
  unfold parseTags.
  match goal with
  | |- context [parseTags_loop ?fuel ?st] =>
      assert (Hrun : parseTags_loop fuel st
                     = Ok (mkParse
                             (set_buffer []
                                (set_textures
                                   ((if data then ts else take (length (textures swf)) ts)
                                    ++ drop (length ts) (textures swf)) s1))
                             c (mkLocals data 0 0 0 0 0 0 0 (length ts))))
  end.
  { eapply turns_result; [exact Hturns|exact Hlast|].
    cbn [buffer set_buffer]. rewrite !length_app, length_map, length_saveTag.
    pose proof (length_tag_records recs). destruct data; cbn [length]; lia. }
  rewrite Hrun. reflexivity.
Qed.

(** C10: a file whose header declares [n] textures and whose tag stream holds
    any number of texture records, each one readable by [Texture.load], is
    loaded without failure: nothing compares the number of texture tags with
    the declared count.  The first [n] records fill the declared slots; every
    record after them is read into a fresh texture, which is appended to
    [textures] when the records carry pixel data and is dropped when they
    follow the marker tag 26 and carry none.  With more records than
    declared, [replicate (n - length ts) new_Texture] is empty and the
    textures of the result are [ts], or the first [n] of them. *)
Theorem texture_tags_not_counted `{Envelope} `{RecordHandlers} (path : string)
    (fs : FileSystem) (comp : COMPRESSION) (n : nat) (data : bool)
    (recs : list (Z * list byte)) (ts : list Texture) :
  (forall m plain, fromCompressed (toCompressed m plain) = (m, plain)) ->
  Z.of_nat n < 65536 ->
  Forall2 (texture_record_loads data) recs ts ->
  fs !! path = Some (toCompressed comp
                       (header_bytes n
                        ++ (if data then [] else saveTag 26 [] [])
                        ++ tag_records recs ++ saveTag 0 [] [])) ->
  loadAsset path fs new_SupercellSWF new_Counts
  = Ok (mkSWF comp (negb data) false false []
          ((if data then ts else take n ts) ++ replicate (n - length ts) new_Texture)
          "_highres" "_lowres" [new_TransformBank] [] [],
        new_Counts).
Proof.
  intros Henv Hn Hrecs Hfile.
  rewrite (loadAsset_file path fs comp n _ Henv Hn Hfile).
  pose proof (parseTags_texture_records
                (mkSWF comp false false false [] (replicate n new_Texture)
                   "_highres" "_lowres" [new_TransformBank] [] [])
                new_Counts data recs ts Hrecs) as Hparse.
  etransitivity; [exact Hparse|].
  cbn [textures]. rewrite length_replicate, drop_replicate.
  destruct data; reflexivity.
Qed.

Lemma one_pixel_texture_roundtrips : texture_roundtrips one_pixel_texture.
Proof.
  unfold texture_roundtrips, filters_roundtrip, one_pixel_texture. cbn.
  split; [auto|]. split; [reflexivity|]. split; [lia|]. split; [lia|].
  exists GL_RGBA8. split; [reflexivity|]. split; [set_solver|]. survives_all.
Qed.

Lemma grey_texture_roundtrips : texture_roundtrips grey_texture.
Proof.
  unfold texture_roundtrips, filters_roundtrip, grey_texture. cbn.
  split; [auto|]. split; [reflexivity|]. split; [lia|]. split; [lia|].
  exists GL_LUMINANCE8_ALPHA8. split; [reflexivity|]. split; [set_solver|]. survives_all.
Qed.

Lemma three_textures_roundtrip : Forall texture_roundtrips three_textures.
Proof.
  unfold three_textures.
  repeat (apply Forall_cons; split);
    [exact one_pixel_texture_roundtrips|exact grey_texture_roundtrips
    |exact one_pixel_texture_roundtrips|constructor].
Qed.

Lemma texture_records_load (ts : list Texture) :
  Forall texture_roundtrips ts ->
  Forall2 (texture_record_loads true)
    (map (fun t => (save_tag t, texture_payload t)) ts) ts.
Proof.
  induction 1 as [|t ts Ht Hts IH]; [constructor|].
  cbn [map]. constructor; [|exact IH].
  split; [exact (proj1 (save_tag_roundtrip t (proj1 Ht)))|].
  intros rest. exact (load_texture_roundtrip t rest Ht).
Qed.

Lemma header_records_load (ts : list Texture) :
  Forall texture_roundtrips ts ->
  Forall2 (texture_record_loads false)
    (map (fun t => (1, texture_header t)) ts) (map texture_stub ts).
Proof.
  induction 1 as [|t ts Ht Hts IH]; [constructor|].
  cbn [map]. constructor; [|exact IH].
  split; [exact tag_1_texture|].
  intros rest. exact (load_texture_header t rest Ht).
Qed.

Lemma texture_tags_not_counted_witness :
  (forall m plain,
     @fromCompressed stored_envelope (@toCompressed stored_envelope m plain) = (m, plain))
  /\ Forall2 (texture_record_loads true) three_texture_records three_textures
  /\ Forall2 (texture_record_loads false) three_header_records
       (map texture_stub three_textures)
  /\ (1 < length three_texture_records)%nat
  /\ @loadAsset stored_envelope empty_records "foo.sc"
       (<["foo.sc"%string
          := @toCompressed stored_envelope NONE
               (header_bytes 1 ++ tag_records three_texture_records
                ++ saveTag 0 [] [])]> ∅)
       new_SupercellSWF new_Counts
     = Ok (mkSWF NONE false false false [] three_textures
             "_highres" "_lowres" [new_TransformBank] [] [],
           new_Counts)
  /\ @loadAsset stored_envelope empty_records "foo.sc"
       (<["foo.sc"%string
          := @toCompressed stored_envelope NONE
               (header_bytes 1 ++ saveTag 26 [] []
                ++ tag_records three_header_records ++ saveTag 0 [] [])]> ∅)
       new_SupercellSWF new_Counts
     = Ok (mkSWF NONE true false false [] [texture_stub one_pixel_texture]
             "_highres" "_lowres" [new_TransformBank] [] [],
           new_Counts).
Proof.
  pose proof (texture_records_load three_textures three_textures_roundtrip) as Hdata.
  pose proof (header_records_load three_textures three_textures_roundtrip) as Hnone.
  split; [exact stored_envelope_inverse|].
  split; [exact Hdata|]. split; [exact Hnone|]. split; [cbn; lia|].
  split.
  - exact (@texture_tags_not_counted stored_envelope empty_records "foo.sc"
             (<["foo.sc"%string
                := @toCompressed stored_envelope NONE
               (header_bytes 1 ++ tag_records three_texture_records
                ++ saveTag 0 [] [])]> ∅)
             NONE 1 true
             three_texture_records three_textures stored_envelope_inverse
             ltac:(lia) Hdata (lookup_insert_eq ∅ "foo.sc"%string _)).
  - exact (@texture_tags_not_counted stored_envelope empty_records "foo.sc"
             (<["foo.sc"%string
                := @toCompressed stored_envelope NONE
               (header_bytes 1 ++ saveTag 26 [] []
                ++ tag_records three_header_records ++ saveTag 0 [] [])]> ∅)
             NONE 1 false
             three_header_records (map texture_stub three_textures)
             stored_envelope_inverse ltac:(lia) Hnone (lookup_insert_eq ∅ "foo.sc"%string _)).
Defined.

Lemma postfixes_loaded (swf : SupercellSWF) :
  postfixes_roundtrip swf ->
  let both := useUncommonTexture swf
              && negb (String.eqb (highresPostfix swf) "_highres")
              && negb (String.eqb (lowresPostfix swf) "_lowres") in
  (both = true ->
   highresPostfix swf <> ""%string /\ lowresPostfix swf <> ""%string
   /\ (String.length (highresPostfix swf) < 255)%nat
   /\ (String.length (lowresPostfix swf) < 255)%nat)
  /\ (if both then highresPostfix swf else "_highres"%string) = highresPostfix swf
  /\ (if both then lowresPostfix swf else "_lowres"%string) = lowresPostfix swf.
Proof.
  intros [[Hhi Hlo]|(Hunc & Hhi & Hlo & Ehi & Elo & Lhi & Llo)] both; unfold both.
  - rewrite Hhi, Hlo. cbn. rewrite andb_false_r. cbn. repeat split; discriminate.
  - apply String.eqb_neq in Hhi, Hlo. rewrite Hunc, Hhi, Hlo. cbn. auto.
Qed.

(** What [save] leaves in the file system for a document with texture
    files: the main file, and last the file that [load] will choose. *)
Lemma save_external_files `{Envelope} `{ImageResize} `{RecordHandlers}
    (D : SupercellSWF) (path : string) (fs : FileSystem) :
  external_roundtrips D ->
  let texture_file := (basePath path
                       ++ (if useUncommonTexture D then highresPostfix D else "")
                       ++ "_tex.sc")%string in
  (save path D fs).1 = set_buffer [] D
  /\ (save path D fs).2 !! texture_file
     = Some (toCompressed (compression D)
               (texture_records (textures D) ++ saveTag 0 [] []))
  /\ (save path D fs).2 !! path
     = Some (toCompressed (compression D)
               (header_bytes (length (textures D)) ++ postfix_bytes D
                ++ marker_bytes D ++ header_records (textures D) ++ saveTag 0 [] [])).
Proof.
  intros HD texture_file.
  pose proof HD as (Hext & _ & _ & _ & _ & Hts & _).
  unfold save, saveAsset. rewrite (saveAsset_buffer_external D HD).
  cbn [buffer set_buffer compression hasExternalTexture useUncommonTexture
         lowresPostfix highresPostfix].
  rewrite Hext.
  set (main := toCompressed (compression D) _).
  assert (Hts' : Forall texture_roundtrips (textures (set_buffer [] D))) by exact Hts.
  change (set_buffer [] (set_buffer _ D)) with (set_buffer [] D).
  unfold texture_file. destruct (useUncommonTexture D).
  - destruct (saveExternalTexture_file (basePath path ++ lowresPostfix D ++ "_tex.sc")
                true (set_buffer [] D) (<[path := main]> fs) Hts')
      as (Hswf1 & bytes1 & Hfs1 & _).
    destruct (saveExternalTexture (basePath path ++ lowresPostfix D ++ "_tex.sc")%string
                true (set_buffer [] D) (<[path := main]> fs)) as [swf1 fs1].
    cbn [fst snd] in Hswf1, Hfs1. subst swf1 fs1.
    change (set_buffer [] (set_buffer [] D)) with (set_buffer [] D).
    cbn [highresPostfix set_buffer].
    destruct (saveExternalTexture_file (basePath path ++ highresPostfix D ++ "_tex.sc")
                false (set_buffer [] D)
                (<[(basePath path ++ lowresPostfix D ++ "_tex.sc")%string := bytes1]>
                   (<[path := main]> fs)) Hts')
      as (Hswf2 & bytes2 & Hfs2 & Hbytes2).
    rewrite Hswf2, Hfs2, (Hbytes2 eq_refl).
    split; [reflexivity|]. split; [apply lookup_insert_eq|].
    rewrite lookup_insert_ne by apply texture_path_not_main.
    rewrite lookup_insert_ne by apply texture_path_not_main.
    apply lookup_insert_eq.
  - destruct (saveExternalTexture_file (basePath path ++ "_tex.sc")
                false (set_buffer [] D) (<[path := main]> fs) Hts')
      as (Hswf2 & bytes2 & Hfs2 & Hbytes2).
    rewrite Hswf2, Hfs2, (Hbytes2 eq_refl).
    split; [reflexivity|]. split; [apply lookup_insert_eq|].
    rewrite lookup_insert_ne by apply (texture_path_not_main path "").
    apply lookup_insert_eq.
Qed.

(** [load] from any file system that holds the two files. *)
Lemma load_external_files `{Envelope} `{RecordHandlers}
    (D : SupercellSWF) (path : string) (fs' : FileSystem) :
  (forall m plain, fromCompressed (toCompressed m plain) = (m, plain)) ->
  external_roundtrips D ->
  fs' !! (basePath path ++ (if useUncommonTexture D then highresPostfix D else "")
          ++ "_tex.sc")%string
  = Some (toCompressed (compression D) (texture_records (textures D) ++ saveTag 0 [] [])) ->
  fs' !! path
  = Some (toCompressed (compression D)
            (header_bytes (length (textures D)) ++ postfix_bytes D
             ++ marker_bytes D ++ header_records (textures D) ++ saveTag 0 [] [])) ->
  load path fs' new_SupercellSWF new_Counts = Ok (set_buffer [] D, new_Counts).
Proof.
  intros Henv HD Htex Hmain.
  destruct HD as (Hext & Hres & Hexp & Hbanks & Hcount & Hts & Hpost).
  destruct (postfixes_loaded D Hpost) as (Hboth & Hhi & Hlo).
  unfold load.
  rewrite (loadAsset_file path fs' _ _ _ Henv Hcount Hmain).
  unfold postfix_bytes, marker_bytes. rewrite Hext, <- !app_assoc.
  rewrite (parseTags_external_stream (compression D) (useUncommonTexture D)
             (useLowresTexture D) _ (highresPostfix D) (lowresPostfix D) (textures D)
             Hboth Hts).
  cbn [mbind result_bind hasExternalTexture]. rewrite Hhi, Hlo.
  unfold texturePath. cbn [useUncommonTexture highresPostfix lowresPostfix].
  assert (Hload : forall p : string,
             fs' !! p = Some (toCompressed (compression D)
                                (texture_records (textures D) ++ saveTag 0 [] [])) ->
             loadExternalTexture p fs'
               (mkSWF (compression D) true (useUncommonTexture D) (useLowresTexture D) []
                  (map texture_stub (textures D)) (highresPostfix D) (lowresPostfix D)
                  [new_TransformBank] [] [])
               new_Counts
             = Ok (set_buffer [] D, new_Counts)).
  { intros p Hp. unfold loadExternalTexture. rewrite Hp, Henv. cbn [snd].
    rewrite (parseTags_texture_file _ _ (textures D) Hts)
      by (cbn [textures]; apply length_map).
    cbn [mbind result_bind]. destruct D; cbn in *. subst. reflexivity. }
  destruct (useUncommonTexture D).
  - unfold existsSync. rewrite Htex.
    rewrite bool_decide_true by (eexists; reflexivity).
    apply Hload, Htex.
  - unfold existsSync. change (basePath path ++ "" ++ "_tex.sc")%string
      with (basePath path ++ "_tex.sc")%string in Htex.
    rewrite Htex. rewrite bool_decide_true by (eexists; reflexivity).
    apply Hload, Htex.
Qed.

(** X12: for a document with [hasExternalTexture], made of textures that
    round-trip and with postfixes that round-trip, [save] leaves the instance
    as it was, with an empty buffer, and [load] on a fresh instance from the
    files written gives the same document, whether the textures are in the
    common file or in the high- and low-resolution files.  The envelope is
    assumed to give back what it was given. *)
Theorem save_load_external_roundtrip `{Envelope} `{ImageResize} `{RecordHandlers}
    (D : SupercellSWF) (path : string) (fs : FileSystem) :
  (forall m plain, fromCompressed (toCompressed m plain) = (m, plain)) ->
  external_roundtrips D ->
  (save path D fs).1 = set_buffer [] D
  /\ load path (save path D fs).2 new_SupercellSWF new_Counts
     = Ok (set_buffer [] D, new_Counts).
Proof.
  intros Henv HD.
  destruct (save_external_files D path fs HD) as (Hswf & Htex & Hmain).
  split; [exact Hswf|].
  exact (load_external_files D path _ Henv HD Htex Hmain).
Qed.

Lemma sample_textures_roundtrip : Forall texture_roundtrips (textures sample_document).
Proof.
  unfold sample_document. cbn [textures].
  constructor; [|constructor; [|constructor]].
  - unfold texture_roundtrips, filters_roundtrip. cbn.
    split; [auto|]. split; [reflexivity|]. split; [lia|]. split; [lia|].
    exists GL_RGBA8. split; [reflexivity|]. split; [set_solver|]. survives_all.
  - unfold texture_roundtrips, filters_roundtrip. cbn.
    split; [auto|]. split; [reflexivity|]. split; [lia|]. split; [lia|].
    exists GL_LUMINANCE8_ALPHA8. split; [reflexivity|]. split; [set_solver|].
    survives_all.
Qed.

Lemma save_load_external_roundtrip_witness :
  (forall m plain,
     @fromCompressed stored_envelope (@toCompressed stored_envelope m plain) = (m, plain))
  /\ external_roundtrips external_sample_document
  /\ @load stored_envelope empty_records "foo.sc"
       (@save stored_envelope nearest_half empty_records
          "foo.sc" external_sample_document ∅).2
       new_SupercellSWF new_Counts
     = Ok (set_buffer [] external_sample_document, new_Counts).
Proof.
  assert (HD : external_roundtrips external_sample_document).
  { unfold external_roundtrips.
    split; [reflexivity|]. split; [reflexivity|]. split; [reflexivity|].
    split; [reflexivity|]. split; [cbn; lia|]. split.
    - exact sample_textures_roundtrip.
    - right. cbn. repeat split; first [discriminate | lia]. }
  split; [exact stored_envelope_inverse|]. split; [exact HD|].
  exact (proj2 (@save_load_external_roundtrip stored_envelope nearest_half empty_records
                  external_sample_document "foo.sc" ∅ stored_envelope_inverse HD)).
Defined.

(** X13: [loadExternalTexture] on a fresh instance, from a file written by
    [saveExternalTexture] at full resolution: the instance has no texture
    slot, so every record read is pushed, and the textures loaded are those
    of the document saved, in order. *)
Theorem loadExternalTexture_fresh_instance `{Envelope} `{ImageResize} `{RecordHandlers}
    (D : SupercellSWF) (path : string) (fs : FileSystem) (c : Counts) :
  (forall m plain, fromCompressed (toCompressed m plain) = (m, plain)) ->
  Forall texture_roundtrips (textures D) ->
  loadExternalTexture path (saveExternalTexture path false D fs).2 new_SupercellSWF c
  = Ok (set_textures (textures D) new_SupercellSWF, c).
Proof.
  intros Henv Hts.
  destruct (saveExternalTexture_file path false D fs Hts) as (_ & bytes & Hfs & Hbytes).
  rewrite Hfs, (Hbytes eq_refl).
  unfold loadExternalTexture. rewrite lookup_insert_eq, Henv. cbn [snd].
  rewrite (parseTags_texture_file_fresh new_SupercellSWF c (textures D) Hts eq_refl).
  reflexivity.
Qed.

Lemma loadExternalTexture_fresh_instance_witness :
  (forall m plain,
     @fromCompressed stored_envelope (@toCompressed stored_envelope m plain) = (m, plain))
  /\ Forall texture_roundtrips (textures sample_document)
  /\ @loadExternalTexture stored_envelope empty_records "foo_tex.sc"
       (@saveExternalTexture stored_envelope nearest_half
          "foo_tex.sc" false sample_document ∅).2
       new_SupercellSWF new_Counts
     = Ok (set_textures (textures sample_document) new_SupercellSWF, new_Counts).
Proof.
  split; [exact stored_envelope_inverse|]. split; [exact sample_textures_roundtrip|].
  exact (@loadExternalTexture_fresh_instance stored_envelope nearest_half empty_records
           sample_document "foo_tex.sc" ∅ new_Counts stored_envelope_inverse
           sample_textures_roundtrip).
Defined.

(** ** Texture files when only one postfix is renamed *)

Lemma string_app_inv_head (a b c : string) : (a ++ b = a ++ c)%string -> b = c.
Proof.
  induction a as [|x a IH]; [auto|]. rewrite !append_cons. intros [= E]. auto.
Qed.

Lemma string_app_inv_tail (a b c : string) : (a ++ c = b ++ c)%string -> a = b.
Proof.
  revert b. induction a as [|x a IH]; intros [|y b] E.
  - reflexivity.
  - apply (f_equal String.length) in E. rewrite append_nil_l, string_app_length in E.
    cbn in E. lia.
  - apply (f_equal String.length) in E. rewrite append_nil_l, string_app_length in E.
    cbn in E. lia.
  - rewrite !append_cons in E. injection E as -> E. f_equal. auto.
Qed.

Lemma texture_path_inj (base p q : string) :
  (base ++ p ++ "_tex.sc")%string = (base ++ q ++ "_tex.sc")%string -> p = q.
Proof. intros E. apply string_app_inv_head, string_app_inv_tail in E. exact E. Qed.

(** The record of a texture in the low-resolution file is the record of the
    halved texture. *)
Lemma Texture_save_lowres `{ImageResize} (t : Texture) (buf : list byte) :
  texture_roundtrips t ->
  texture_roundtrips (halved t) ->
  Texture_save t buf true true
  = (t, buf ++ saveTag (save_tag (halved t)) (texture_payload (halved t)) []).
Proof.
  intros Ht Hh. rewrite (surjective_pairing (Texture_save t buf true true)).
  rewrite (Texture_save_keeps t buf true true Ht). f_equal.
  replace (buf ++ saveTag (save_tag (halved t)) (texture_payload (halved t)) [])
    with (Texture_save (halved t) buf true false).2
    by (rewrite (Texture_save_roundtrip (halved t) buf Hh); reflexivity).
  destruct Ht as (_ & _ & _ & _ & f & Hpf & Hf & _).
  destruct Hh as (_ & _ & _ & _ & f' & Hpf' & Hf' & _).
  cbn [halved _pixelFormat] in Hpf'. rewrite Hpf in Hpf'. injection Hpf' as <-.
  unfold Texture_save.
  rewrite (corrected_format_roundtrip t f Hpf Hf).
  rewrite (corrected_format_roundtrip (halved t) f Hpf Hf').
  reflexivity.
Qed.

Lemma saveTextureList_lowres `{ImageResize} (ts : list Texture) (buf : list byte) :
  Forall texture_roundtrips ts ->
  Forall texture_roundtrips (map halved ts) ->
  saveTextureList ts buf true true = (ts, buf ++ texture_records (map halved ts)).
Proof.
  intros Hts. revert buf. induction Hts as [|t ts Ht Hts IH]; intros buf Hh.
  - cbn. rewrite app_nil_r. reflexivity.
  - cbn [map] in Hh. apply Forall_cons in Hh as [Hh Hhs].
    cbn [saveTextureList]. rewrite (Texture_save_lowres t buf Ht Hh), (IH _ Hhs).
    unfold texture_records. cbn [map flat_map]. rewrite <- app_assoc. reflexivity.
Qed.

Lemma saveExternalTexture_lowres_file `{Envelope} `{ImageResize} (path : string)
    (swf : SupercellSWF) (fs : FileSystem) :
  Forall texture_roundtrips (textures swf) ->
  Forall texture_roundtrips (map halved (textures swf)) ->
  saveExternalTexture path true swf fs
  = (set_buffer [] swf,
     <[path := toCompressed (compression swf)
                 (texture_records (map halved (textures swf)) ++ saveTag 0 [] [])]> fs).
Proof.
  intros Hts Hhs. unfold saveExternalTexture, saveTextures.
  cbn [textures buffer set_buffer].
  rewrite (saveTextureList_lowres _ _ Hts Hhs).
  cbn [fst snd buffer set_buffer compression set_textures app].
  rewrite saveTag_app. destruct swf; reflexivity.
Qed.

Lemma saveExternalTexture_highres_file `{Envelope} `{ImageResize} (path : string)
    (swf : SupercellSWF) (fs : FileSystem) :
  Forall texture_roundtrips (textures swf) ->
  saveExternalTexture path false swf fs
  = (set_buffer [] swf,
     <[path := toCompressed (compression swf)
                 (texture_records (textures swf) ++ saveTag 0 [] [])]> fs).
Proof.
  intros Hts.
  destruct (saveExternalTexture_file path false swf fs Hts) as (Hswf & bytes & Hfs & Hb).
  rewrite (surjective_pairing (saveExternalTexture path false swf fs)).
  rewrite Hswf, Hfs, (Hb eq_refl). reflexivity.
Qed.

(** X14: the postfix tag is written only when both postfixes differ from
    their defaults.  A document with uncommon texture files whose
    high-resolution postfix alone is renamed is saved without it, so [load]
    looks for the files of the default postfixes: unless a file of the
    default high-resolution name exists, it reads the low-resolution file,
    and returns the halved textures and the default postfixes. *)
Theorem renamed_highres_loads_lowres `{Envelope} `{ImageResize} `{RecordHandlers}
    (D : SupercellSWF) (path : string) (fs : FileSystem) :
  (forall m plain, fromCompressed (toCompressed m plain) = (m, plain)) ->
  hasExternalTexture D = true ->
  useUncommonTexture D = true ->
  lowresPostfix D = "_lowres"%string ->
  highresPostfix D <> "_highres"%string ->
  highresPostfix D <> "_lowres"%string ->
  resources D = [] -> exports D = [] -> banks D = [new_TransformBank] ->
  Z.of_nat (length (textures D)) < 65536 ->
  Forall texture_roundtrips (textures D) ->
  Forall texture_roundtrips (map halved (textures D)) ->
  fs !! (basePath path ++ "_highres" ++ "_tex.sc")%string = None ->
  load path (save path D fs).2 new_SupercellSWF new_Counts
  = Ok (mkSWF (compression D) true true (useLowresTexture D) []
          (map halved (textures D)) "_highres" "_lowres" [new_TransformBank] [] [],
        new_Counts).
Proof.
  intros Henv Hext Hunc Hlo Hhi Hhi' Hres Hexp Hbanks Hcount Hts Hhs Hstale.
  assert (Hnotag : postfix_bytes D = []).
  { unfold postfix_bytes. rewrite Hlo. cbn. rewrite andb_false_r. reflexivity. }
  set (lowres_file := toCompressed (compression D)
                        (texture_records (map halved (textures D)) ++ saveTag 0 [] [])).
  set (highres_file := toCompressed (compression D)
                         (texture_records (textures D) ++ saveTag 0 [] [])).
  set (main_file := toCompressed (compression D)
                      (header_bytes (length (textures D)) ++ marker_bytes D
                       ++ header_records (textures D) ++ saveTag 0 [] [])).
  assert (Hsave : (save path D fs).2
                  = <[(basePath path ++ highresPostfix D ++ "_tex.sc")%string
                      := highres_file]>
                      (<[(basePath path ++ "_lowres" ++ "_tex.sc")%string := lowres_file]>
                         (<[path := main_file]> fs))).
  { unfold save, saveAsset.
    rewrite (saveAsset_buffer_headers D Hext Hres Hexp Hbanks Hts), Hnotag.
    cbn [buffer set_buffer compression hasExternalTexture useUncommonTexture
           lowresPostfix highresPostfix app].
    rewrite Hext, Hunc, Hlo.
    change (set_buffer [] (set_buffer _ D)) with (set_buffer [] D).
    rewrite (saveExternalTexture_lowres_file _ (set_buffer [] D) _ Hts Hhs).
    change (set_buffer [] (set_buffer [] D)) with (set_buffer [] D).
    cbn [highresPostfix set_buffer].
    rewrite (saveExternalTexture_highres_file _ (set_buffer [] D) _ Hts).
    reflexivity. }
  rewrite Hsave.
  set (fs' := <[_ := highres_file]> _).
  assert (Hmain : fs' !! path = Some main_file).
  { unfold fs'.
    rewrite lookup_insert_ne by apply texture_path_not_main.
    rewrite lookup_insert_ne by apply texture_path_not_main.
    apply lookup_insert_eq. }
  assert (Hhigh : fs' !! (basePath path ++ "_highres" ++ "_tex.sc")%string = None).
  { unfold fs'.
    rewrite lookup_insert_ne by (intros E; apply texture_path_inj in E; congruence).
    rewrite lookup_insert_ne by (intros E; apply texture_path_inj in E; discriminate).
    rewrite lookup_insert_ne by (intros E; symmetry in E; revert E;
                                 apply texture_path_not_main).
    exact Hstale. }
  assert (Hlow : fs' !! (basePath path ++ "_lowres" ++ "_tex.sc")%string
                 = Some lowres_file).
  { unfold fs'.
    rewrite lookup_insert_ne by (intros E; apply texture_path_inj in E; congruence).
    apply lookup_insert_eq. }
  unfold load.
  rewrite (loadAsset_file path fs' _ _ _ Henv Hcount Hmain).
  unfold marker_bytes. rewrite Hext, Hunc, <- !app_assoc.
  pose proof (parseTags_external_stream (compression D) true (useLowresTexture D) false
                "" "" (textures D) ltac:(discriminate) Hts) as Hparse.
  rewrite app_nil_l in Hparse. rewrite Hparse. clear Hparse.
  cbn [mbind result_bind hasExternalTexture].
  unfold texturePath. cbn [useUncommonTexture highresPostfix lowresPostfix].
  unfold existsSync. rewrite Hhigh, Hlow.
  rewrite bool_decide_false by (intros [x Hx]; discriminate).
  rewrite bool_decide_true by (eexists; reflexivity).
  unfold loadExternalTexture. rewrite Hlow. unfold lowres_file. rewrite Henv. cbn [snd].
  rewrite (parseTags_texture_file _ _ (map halved (textures D)) Hhs)
    by (cbn [textures]; rewrite !length_map; reflexivity).
  reflexivity.
Qed.

Lemma renamed_highres_loads_lowres_witness :
  (forall m plain,
     @fromCompressed stored_envelope (@toCompressed stored_envelope m plain) = (m, plain))
  /\ Forall texture_roundtrips (textures renamed_highres_document)
  /\ Forall texture_roundtrips
       (map (@halved nearest_half) (textures renamed_highres_document))
  /\ @load stored_envelope empty_records "foo.sc"
       (@save stored_envelope nearest_half empty_records
          "foo.sc" renamed_highres_document ∅).2
       new_SupercellSWF new_Counts
     = Ok (mkSWF NONE true true false []
             [mkTexture (Some GL_RGBA8) GL_LINEAR GL_NEAREST true true
                (mkImage 1 1 RGBA [[x01; x02; x03; xff]])]
             "_highres" "_lowres" [new_TransformBank] [] [],
           new_Counts).
Proof.
  assert (Hts : Forall texture_roundtrips (textures renamed_highres_document)).
  { unfold renamed_highres_document. cbn [textures].
    constructor; [|constructor].
    unfold texture_roundtrips, filters_roundtrip. cbn.
    split; [auto|]. split; [reflexivity|]. split; [lia|]. split; [lia|].
    exists GL_RGBA8. split; [reflexivity|]. split; [set_solver|]. survives_all. }
  assert (Hhs : Forall texture_roundtrips
                  (map (@halved nearest_half) (textures renamed_highres_document))).
  { unfold renamed_highres_document. cbn [textures map].
    constructor; [|constructor].
    unfold texture_roundtrips, filters_roundtrip. cbn.
    split; [auto|]. split; [reflexivity|]. split; [lia|]. split; [lia|].
    exists GL_RGBA8. split; [reflexivity|]. split; [set_solver|]. survives_all. }
  split; [exact stored_envelope_inverse|]. split; [exact Hts|]. split; [exact Hhs|].
  exact (@renamed_highres_loads_lowres stored_envelope nearest_half empty_records
           renamed_highres_document "foo.sc" ∅ stored_envelope_inverse
           eq_refl eq_refl eq_refl ltac:(discriminate) ltac:(discriminate)
           eq_refl eq_refl eq_refl ltac:(cbn; lia) Hts Hhs (lookup_empty _)).
Defined.

(** ** What a save changes *)

Lemma corrected_format_saved (t : Texture) :
  corrected_format (saved_texture t) = corrected_format t.
Proof.
  destruct t as [pf mag min lin down [w h k d]].
  destruct pf as [[]|], k; reflexivity.
Qed.

Lemma saved_texture_idem (t : Texture) : saved_texture (saved_texture t) = saved_texture t.
Proof. unfold saved_texture at 1. rewrite corrected_format_saved. reflexivity. Qed.

Lemma Texture_save_fst `{ImageResize} (t : Texture) (buf : list byte)
    (hasData isLowres : bool) :
  (Texture_save t buf hasData isLowres).1 = saved_texture t.
Proof. reflexivity. Qed.

Lemma saveTextureList_fst `{ImageResize} (ts : list Texture) (buf : list byte)
    (hasData isLowres : bool) :
  (saveTextureList ts buf hasData isLowres).1 = map saved_texture ts.
Proof.
  revert buf. induction ts as [|t ts IH]; intros buf; [reflexivity|].
  cbn [saveTextureList map].
  rewrite (surjective_pairing (Texture_save t buf hasData isLowres)).
  specialize (IH (Texture_save t buf hasData isLowres).2).
  destruct (saveTextureList ts _ hasData isLowres) as [ts' buf'].
  cbn [fst] in *. subst. reflexivity.
Qed.

Lemma saveTextures_rest `{ImageResize} (hasData isLowres : bool) (swf : SupercellSWF) :
  set_buffer [] (saveTextures hasData isLowres swf)
  = set_buffer [] (set_textures (map saved_texture (textures swf)) swf).
Proof.
  unfold saveTextures.
  pose proof (saveTextureList_fst (textures swf) (buffer swf) hasData isLowres) as E.
  destruct (saveTextureList _ _ _ _) as [ts buf]. cbn [fst] in E. subst. reflexivity.
Qed.

Lemma saveResources_rest `{RecordHandlers} (ids : list Z) (swf : SupercellSWF) :
  savers_append ->
  set_buffer [] (fold_left saveResource ids swf) = set_buffer [] swf.
Proof.
  intros (Hres & _). revert swf. induction ids as [|id ids IH]; intros swf; [reflexivity|].
  cbn [fold_left]. rewrite IH. unfold saveResource.
  destruct (Object_get (resources swf) id) as [r|]; [|reflexivity].
  destruct (Hres id r swf) as [bytes ->]. reflexivity.
Qed.

Lemma saveBanks_rest `{RecordHandlers} (swf : SupercellSWF) :
  savers_append ->
  set_buffer [] (saveBanks swf) = set_buffer [] swf.
Proof.
  intros (_ & Hmat & Hcol). unfold saveBanks.
  generalize (imap (fun i b => (i, b)) (banks swf)) as indexed.
  intros indexed. revert swf.
  induction indexed as [|[i bank] indexed IH]; intros swf; [reflexivity|].
  cbn [fold_left]. rewrite IH. unfold saveBank.
  assert (Hm : forall ms s, set_buffer [] (fold_left (fun s m => Matrix_save m s) ms s)
                            = set_buffer [] s).
  { induction ms as [|m ms IHm]; intros s; [reflexivity|].
    cbn [fold_left]. rewrite IHm. destruct (Hmat m s) as [bytes ->]. reflexivity. }
  assert (Hc : forall cs s, set_buffer [] (fold_left (fun s c => Color_save c s) cs s)
                            = set_buffer [] s).
  { induction cs as [|c cs IHc]; intros s; [reflexivity|].
    cbn [fold_left]. rewrite IHc. destruct (Hcol c s) as [bytes ->]. reflexivity. }
  rewrite Hc, Hm. destruct (0 <? i)%nat; reflexivity.
Qed.

Lemma rest_fields (a b : SupercellSWF) :
  set_buffer [] a = set_buffer [] b ->
  compression a = compression b /\ hasExternalTexture a = hasExternalTexture b
  /\ useUncommonTexture a = useUncommonTexture b
  /\ textures a = textures b /\ highresPostfix a = highresPostfix b
  /\ lowresPostfix a = lowresPostfix b /\ resources a = resources b.
Proof. intros [=]. repeat split; assumption. Qed.

Lemma rest_set_buffer (b : ScBuffer) (swf : SupercellSWF) :
  set_buffer [] (set_buffer b swf) = set_buffer [] swf.
Proof. reflexivity. Qed.

Lemma saveHeader_rest (shapeIds movieClipIds textFieldIds : list Z) (swf : SupercellSWF) :
  set_buffer [] (saveHeader shapeIds movieClipIds textFieldIds swf) = set_buffer [] swf.
Proof. reflexivity. Qed.

Lemma savePostfix_rest (swf : SupercellSWF) :
  set_buffer [] (savePostfix swf) = set_buffer [] swf.
Proof. unfold savePostfix. destruct (_ && _); reflexivity. Qed.

Lemma saveMarkers_rest (swf : SupercellSWF) :
  set_buffer [] (saveMarkers swf) = set_buffer [] swf.
Proof.
  destruct swf as [comp ext unc low exps texs hi lo bks res buf].
  destruct low, unc, ext; reflexivity.
Qed.

Lemma saveModifiers_rest `{RecordHandlers} (ids : list Z) (swf : SupercellSWF) :
  savers_append ->
  set_buffer [] (saveModifiers ids swf) = set_buffer [] swf.
Proof.
  intros Happ. unfold saveModifiers. rewrite (saveResources_rest _ _ Happ).
  destruct (0 <? length ids)%nat; reflexivity.
Qed.

Lemma rest_saved_textures (a b : SupercellSWF) :
  set_buffer [] a = set_buffer [] b ->
  set_buffer [] (set_textures (map saved_texture (textures a)) a)
  = set_buffer [] (set_textures (map saved_texture (textures b)) b).
Proof. intros [=]. unfold set_buffer, set_textures. cbn. congruence. Qed.

(** [saveAsset] leaves everything but the buffer and the pixel formats. *)
Lemma saveAsset_buffer_rest `{ImageResize} `{RecordHandlers} (swf : SupercellSWF) :
  savers_append ->
  set_buffer [] (saveAsset_buffer swf)
  = set_buffer [] (set_textures (map saved_texture (textures swf)) swf).
Proof.
  intros Happ. unfold saveAsset_buffer. cbv zeta.
  rewrite rest_set_buffer.
  rewrite (saveResources_rest _ _ Happ), (saveBanks_rest _ Happ),
    (saveResources_rest _ _ Happ), (saveResources_rest _ _ Happ),
    (saveModifiers_rest _ _ Happ), saveTextures_rest.
  apply rest_saved_textures.
  rewrite saveMarkers_rest, savePostfix_rest. apply saveHeader_rest.
Qed.

Lemma saveExternalTexture_rest `{Envelope} `{ImageResize} (path : string) (isLowres : bool)
    (swf : SupercellSWF) (fs : FileSystem) :
  exists bytes,
    saveExternalTexture path isLowres swf fs
    = (set_buffer [] (set_textures (map saved_texture (textures swf)) swf),
       <[path := bytes]> fs).
Proof.
  unfold saveExternalTexture.
  pose proof (saveTextures_rest true isLowres (set_buffer [] swf)) as E.
  eexists. f_equal.
  change (set_buffer [] (set_buffer ?b ?s)) with (set_buffer [] s).
  rewrite E. reflexivity.
Qed.

Lemma saved_texture_own (t : Texture) (f : PixelFormat) :
  _pixelFormat t = Some f -> f ∈ CHANNEL_FORMATS (kind (image t)) -> saved_texture t = t.
Proof.
  intros Hpf Hf. unfold saved_texture. rewrite (corrected_format_own t f Hpf Hf).
  destruct t; cbn in *. subst. reflexivity.
Qed.

(** The outcome of [save]: the instance, and the file system as a sequence
    of writes. *)
Lemma save_outcome `{Envelope} `{ImageResize} `{RecordHandlers}
    (D : SupercellSWF) (path : string) (fs : FileSystem) :
  savers_append ->
  exists main common lowres highres : list byte,
    save path D fs
    = (set_buffer [] (set_textures (map saved_texture (textures D)) D),
       if hasExternalTexture D then
         if useUncommonTexture D then
           <[(basePath path ++ highresPostfix D ++ "_tex.sc")%string := highres]>
             (<[(basePath path ++ lowresPostfix D ++ "_tex.sc")%string := lowres]>
                (<[path := main]> fs))
         else <[(basePath path ++ "_tex.sc")%string := common]> (<[path := main]> fs)
       else <[path := main]> fs).
Proof.
  intros Happ. unfold save, saveAsset.
  pose proof (saveAsset_buffer_rest D Happ) as Hrest.
  set (D1 := set_buffer [] (set_textures (map saved_texture (textures D)) D)) in *.
  rewrite Hrest.
  assert (Hidem : set_buffer [] (set_textures (map saved_texture (textures D1)) D1) = D1).
  { unfold D1. cbn [textures set_buffer set_textures].
    rewrite map_map. erewrite map_ext; [reflexivity|]. intros t. apply saved_texture_idem. }
  exists (toCompressed (compression (saveAsset_buffer D)) (buffer (saveAsset_buffer D))).
  change (hasExternalTexture D1) with (hasExternalTexture D).
  change (useUncommonTexture D1) with (useUncommonTexture D).
  change (lowresPostfix D1) with (lowresPostfix D).
  destruct (hasExternalTexture D).
  - destruct (useUncommonTexture D).
    + destruct (saveExternalTexture_rest (basePath path ++ lowresPostfix D ++ "_tex.sc")
                  true D1 (<[path := toCompressed (compression (saveAsset_buffer D))
                                       (buffer (saveAsset_buffer D))]> fs))
        as [lowres ->].
      rewrite Hidem. change (highresPostfix D1) with (highresPostfix D).
      destruct (saveExternalTexture_rest (basePath path ++ highresPostfix D ++ "_tex.sc")
                  false D1
                  (<[(basePath path ++ lowresPostfix D ++ "_tex.sc")%string := lowres]>
                     (<[path := toCompressed (compression (saveAsset_buffer D))
                                  (buffer (saveAsset_buffer D))]> fs)))
        as [highres ->].
      rewrite Hidem. exists [], lowres, highres. reflexivity.
    + destruct (saveExternalTexture_rest (basePath path ++ "_tex.sc")
                  false D1 (<[path := toCompressed (compression (saveAsset_buffer D))
                                        (buffer (saveAsset_buffer D))]> fs))
        as [common ->].
      rewrite Hidem. exists common, [], []. reflexivity.
  - exists [], [], []. reflexivity.
Qed.

(** X15: with record savers that only append to the buffer, [saveAsset],
    [saveExternalTexture] and [save] leave the instance with an empty buffer
    and change nothing else but the pixel formats of the textures, each set
    to the format that [Texture.save] settles on.  Saving again changes
    nothing more, and when every texture has a format of its image's channel
    layout the instance is left unchanged but for the buffer. *)
Theorem save_changes_formats_only `{Envelope} `{ImageResize} `{RecordHandlers}
    (D : SupercellSWF) (path : string) (fs : FileSystem) :
  savers_append ->
  let D' := set_buffer [] (set_textures (map saved_texture (textures D)) D) in
  (saveAsset path D fs).1 = D'
  /\ (forall p isLowres, (saveExternalTexture p isLowres D fs).1 = D')
  /\ (save path D fs).1 = D'
  /\ (save path D' fs).1 = D'
  /\ (Forall (fun t => exists f, _pixelFormat t = Some f
                         /\ f ∈ CHANNEL_FORMATS (kind (image t))) (textures D) ->
      D' = set_buffer [] D).
Proof.
  intros Happ D'.
  split; [exact (saveAsset_buffer_rest D Happ)|].
  split.
  { intros p isLowres. destruct (saveExternalTexture_rest p isLowres D fs) as [bytes ->].
    reflexivity. }
  split.
  { destruct (save_outcome D path fs Happ) as (m & c & l & h & ->). reflexivity. }
  split.
  { destruct (save_outcome D' path fs Happ) as (m & c & l & h & ->). cbn [fst].
    unfold D'. cbn [textures set_buffer set_textures].
    rewrite map_map. erewrite map_ext; [reflexivity|].
    intros t. apply saved_texture_idem. }
  intros Hown. unfold D'. f_equal.
  replace (map saved_texture (textures D)) with (textures D); [destruct D; reflexivity|].
  induction Hown as [|t ts (f & Hpf & Hf) Hts IH]; [reflexivity|].
  cbn [map]. rewrite (saved_texture_own t f Hpf Hf), <- IH. reflexivity.
Qed.

Lemma empty_records_append : @savers_append empty_records.
Proof.
  repeat split; intros; exists []; rewrite app_nil_r; destruct swf; reflexivity.
Qed.

Lemma save_changes_formats_only_witness :
  @savers_append empty_records
  /\ (@save stored_envelope nearest_half empty_records "foo.sc"
        (mkSWF NONE false false false []
           [mkTexture (Some GL_RGB565) GL_LINEAR GL_NEAREST true true
              (mkImage 1 1 RGBA [[x0a; x0b; x0c; xff]])]
           "_highres" "_lowres" [] [] [x01]) ∅).1
     = mkSWF NONE false false false []
         [mkTexture (Some GL_RGBA8) GL_LINEAR GL_NEAREST true true
            (mkImage 1 1 RGBA [[x0a; x0b; x0c; xff]])]
         "_highres" "_lowres" [] [] [].
Proof.
  split; [exact empty_records_append|].
  exact (proj1 (proj2 (proj2
           (@save_changes_formats_only stored_envelope nearest_half empty_records
              (mkSWF NONE false false false []
                 [mkTexture (Some GL_RGB565) GL_LINEAR GL_NEAREST true true
                    (mkImage 1 1 RGBA [[x0a; x0b; x0c; xff]])]
                 "_highres" "_lowres" [] [] [x01])
              "foo.sc" ∅ empty_records_append)))).
Defined.

(** X16: [save] writes the main file and, with [hasExternalTexture], either
    the common texture file or the low- and high-resolution files; every
    other path of the file system keeps what it had. *)
Theorem save_writes_its_files `{Envelope} `{ImageResize} `{RecordHandlers}
    (D : SupercellSWF) (path : string) (fs : FileSystem) :
  savers_append ->
  (forall p, p ∈ saved_files path D -> is_Some ((save path D fs).2 !! p))
  /\ (forall p, p ∉ saved_files path D -> (save path D fs).2 !! p = fs !! p).
Proof.
  intros Happ. destruct (save_outcome D path fs Happ) as (m & c & l & h & ->).
  cbn [snd]. unfold saved_files.
  destruct (hasExternalTexture D); [destruct (useUncommonTexture D)|]; split; intros p Hp.
  - repeat (apply elem_of_cons in Hp as [->|Hp]);
      [| |rewrite lookup_insert_eq; eexists; reflexivity|apply elem_of_nil in Hp; destruct Hp].
    + rewrite lookup_insert_ne by apply texture_path_not_main.
      rewrite lookup_insert_ne by apply texture_path_not_main.
      rewrite lookup_insert_eq. eexists; reflexivity.
    + destruct (decide ((basePath path ++ highresPostfix D ++ "_tex.sc")%string
                        = (basePath path ++ lowresPostfix D ++ "_tex.sc")%string)) as [E|N].
      * rewrite E, lookup_insert_eq. eexists; reflexivity.
      * rewrite lookup_insert_ne by exact N. rewrite lookup_insert_eq. eexists; reflexivity.
  - rewrite !not_elem_of_cons in Hp. destruct Hp as (N1 & N2 & N3 & _).
    rewrite !lookup_insert_ne by congruence. reflexivity.
  - repeat (apply elem_of_cons in Hp as [->|Hp]);
      [|rewrite lookup_insert_eq; eexists; reflexivity|apply elem_of_nil in Hp; destruct Hp].
    rewrite lookup_insert_ne by apply (texture_path_not_main path "").
    rewrite lookup_insert_eq. eexists; reflexivity.
  - rewrite !not_elem_of_cons in Hp. destruct Hp as (N1 & N2 & _).
    rewrite !lookup_insert_ne by congruence. reflexivity.
  - apply elem_of_cons in Hp as [->|Hp]; [|apply elem_of_nil in Hp; destruct Hp].
    rewrite lookup_insert_eq. eexists; reflexivity.
  - rewrite !not_elem_of_cons in Hp. destruct Hp as (N1 & _).
    rewrite !lookup_insert_ne by congruence. reflexivity.
Qed.

Lemma save_writes_its_files_witness :
  @savers_append empty_records
  /\ ("foo_tex.sc"%string ∉ saved_files "foo.sc" external_sample_document)
  /\ (@save stored_envelope nearest_half empty_records "foo.sc" external_sample_document
        (<["foo_tex.sc"%string := [x2a]]> ∅)).2 !! "foo_tex.sc"%string
     = Some [x2a].
Proof.
  assert (Hnot : "foo_tex.sc"%string ∉ saved_files "foo.sc" external_sample_document).
  { vm_compute. intros Hin.
    repeat (apply elem_of_cons in Hin as [Hin|Hin]; [discriminate|]).
    apply elem_of_nil in Hin. exact Hin. }
  split; [exact empty_records_append|]. split; [exact Hnot|].
  rewrite (proj2 (@save_writes_its_files stored_envelope nearest_half empty_records
                    external_sample_document "foo.sc" (<["foo_tex.sc"%string := [x2a]]> ∅)
                    empty_records_append) _ Hnot).
  apply lookup_insert_eq.
Defined.

(** ** The postfix tag and the files of [save] *)

(** C4: the rule of the claim, tag 32 when [use_uncommon_texture] is set and
    at least one postfix is renamed, is the rule that the sibling [save]
    relies on: [save] names the two texture files with the postfixes of the
    instance, and a reader learns a postfix from tag 32 only.  The guard of
    [saveAsset] joins the two comparisons with [&&], so for an instance with
    external uncommon textures and exactly one postfix renamed the rule asks
    for the tag, the postfix block appends nothing, and [save] still writes
    the texture files under the names built from the postfixes of the
    instance. *)
Theorem postfix_tag_missing_one_renamed `{Envelope} `{ImageResize} `{RecordHandlers}
    (D : SupercellSWF) (path : string) (fs : FileSystem) :
  savers_append ->
  hasExternalTexture D = true ->
  useUncommonTexture D = true ->
  String.eqb (highresPostfix D) "_highres"
  = negb (String.eqb (lowresPostfix D) "_lowres") ->
  spec_postfix_due D = true
  /\ savePostfix D = D
  /\ existsSync (save path D fs).2 (basePath path ++ highresPostfix D ++ "_tex.sc") = true
  /\ existsSync (save path D fs).2 (basePath path ++ lowresPostfix D ++ "_tex.sc") = true.
Proof.
  intros Happ Hext Hunc Hone.
  split.
  { unfold spec_postfix_due. rewrite Hunc, Hone.
    destruct (String.eqb (lowresPostfix D) "_lowres"); reflexivity. }
  split.
  { unfold savePostfix. rewrite Hunc, Hone.
    destruct (String.eqb (lowresPostfix D) "_lowres"); reflexivity. }
  destruct (save_outcome D path fs Happ) as (main & common & lowres & highres & ->).
  cbn [snd]. rewrite Hext, Hunc. unfold existsSync.
  split; apply bool_decide_eq_true.
  - rewrite lookup_insert_eq. eexists; reflexivity.
  - destruct (decide ((basePath path ++ highresPostfix D ++ "_tex.sc")%string
                      = (basePath path ++ lowresPostfix D ++ "_tex.sc")%string)) as [E|N].
    + rewrite E, lookup_insert_eq. eexists; reflexivity.
    + rewrite lookup_insert_ne by exact N. rewrite lookup_insert_eq. eexists; reflexivity.
Qed.

Lemma postfix_tag_missing_one_renamed_witness :
  @savers_append empty_records
  /\ spec_postfix_due renamed_highres_document = true
  /\ savePostfix renamed_highres_document = renamed_highres_document
  /\ existsSync (@save stored_envelope nearest_half empty_records "foo.sc"
                   renamed_highres_document ∅).2 "foo_hd_tex.sc" = true
  /\ existsSync (@save stored_envelope nearest_half empty_records "foo.sc"
                   renamed_highres_document ∅).2 "foo_lowres_tex.sc" = true.
Proof.
  split; [exact empty_records_append|].
  exact (@postfix_tag_missing_one_renamed stored_envelope nearest_half empty_records
           renamed_highres_document "foo.sc" ∅ empty_records_append
           eq_refl eq_refl eq_refl).
Defined.

(** ** Saving again what was loaded *)

Lemma load_texture_fields (tag : Z) (hasData : bool) (buf rest : list byte) (t : Texture) :
  load_texture tag hasData buf = Ok (t, rest) ->
  exists idx b1 img0,
    readUInt8 buf = Ok (idx, b1)
    /\ _pixelFormat t = js_index PIXEL_FORMATS idx
    /\ magFilter t = magFilter (load_fields tag idx img0)
    /\ minFilter t = minFilter (load_fields tag idx img0)
    /\ linear t = linear (load_fields tag idx img0)
    /\ downscaling t = downscaling (load_fields tag idx img0).
Proof.
  unfold load_texture.
  destruct (readUInt8 buf) as [[idx b1]|] eqn:E1; [|discriminate].
  cbn [mbind result_bind].
  destruct (readUInt16 b1) as [[w b2]|] eqn:E2; [|discriminate].
  cbn [mbind result_bind].
  destruct (readUInt16 b2) as [[h b3]|] eqn:E3; [|discriminate].
  cbn [mbind result_bind].
  new_Image_cases img0 E0; [|discriminate].
  pose proof (proj1 (load_fields_format tag idx img0)) as Hpf.
  intros Hrun. exists idx, b1, img0. split; [reflexivity|].
  destruct hasData.
  - destruct (readPixels _ _ _ _) as [[img b4]|]; [|discriminate].
    cbn [mbind result_bind] in Hrun. injection Hrun as <- _. cbn.
    rewrite Hpf. repeat split; reflexivity.
  - injection Hrun as <- _. rewrite Hpf. repeat split; reflexivity.
Qed.

Lemma save_tag_load_fields (tag idx : Z) (img0 : Image) (t : Texture) :
  tag ∈ TEXTURE_TAGS ->
  magFilter t = magFilter (load_fields tag idx img0) ->
  minFilter t = minFilter (load_fields tag idx img0) ->
  linear t = linear (load_fields tag idx img0) ->
  downscaling t = downscaling (load_fields tag idx img0) ->
  save_tag t = resaved_tag tag.
Proof.
  intros Htag Hmag Hmin Hlin Hdown. unfold save_tag.
  rewrite Hmag, Hmin, Hlin, Hdown. unfold TEXTURE_TAGS in Htag.
  repeat (apply elem_of_cons in Htag as [->|Htag]; [reflexivity|]).
  apply elem_of_nil in Htag. destruct Htag.
Qed.

Lemma indexOf_first (idx : Z) (f : PixelFormat) :
  js_index PIXEL_FORMATS idx = Some f ->
  PIXEL_FORMATS_indexOf (Some f) <= idx
  /\ PIXEL_FORMATS_indexOf (Some f) ∈ [0; 2; 3; 4; 6; 10].
Proof.
  unfold js_index. destruct (Z.ltb_spec idx 0) as [|Hpos]; [discriminate|].
  rewrite <- (Z2Nat.id idx Hpos) at 2. generalize (Z.to_nat idx) as n. intros n.
  do 11 (destruct n as [|n];
         [cbn; intros [= <-]; split; [vm_compute; discriminate|vm_compute; set_solver]|]).
  cbn. discriminate.
Qed.

Lemma Texture_save_index_byte `{ImageResize} (t : Texture) (out : list byte)
    (hasData isLowres : bool) :
  (Texture_save t out hasData isLowres).2 !! (length out + 5)%nat
  = Some (byte_of_Z (PIXEL_FORMATS_indexOf (_pixelFormat t))).
Proof.
  unfold Texture_save. cbn [snd].
  match goal with
  | |- saveTag ?tag ?payload out !! _ = _ =>
      assert (Hp : exists more, payload
                = byte_of_Z (PIXEL_FORMATS_indexOf (_pixelFormat t)) :: more)
  end.
  { destruct hasData.
    - rewrite writePixels_flat_map.
      unfold writeUInt16, writeUInt8, le_bytes. cbn [seq map app].
      rewrite Z.div_1_r. eexists. reflexivity.
    - unfold writeUInt16, writeUInt8, le_bytes. cbn [seq map app].
      rewrite Z.div_1_r. eexists. reflexivity. }
  destruct Hp as [more ->].
  unfold saveTag, writeInt32, writeUInt8.
  rewrite lookup_app_r by (rewrite !length_app, !length_le_bytes; lia).
  rewrite !length_app, !length_le_bytes.
  replace (length out + 5 - (length out + 1 + 4))%nat with 0%nat by lia.
  reflexivity.
Qed.

(** X4: a texture read from a texture tag is saved under the same tag id,
    except that one read from tag 29 is saved as 16 and one read from tag 34
    as 1.  The pixel type byte written is the first index of the format read,
    one of 0, 2, 3, 4, 6 and 10, never greater than the index read. *)
Theorem Texture_load_then_save `{ImageResize} (tag : Z) (buf rest : ScBuffer) (t : Texture)
    (out : ScBuffer) (isLowres : bool) :
  tag ∈ TEXTURE_TAGS ->
  load_texture tag true buf = Ok (t, rest) ->
  save_tag t = resaved_tag tag
  /\ (Texture_save t out true isLowres).2 !! length out = Some (byte_of_Z (resaved_tag tag))
  /\ forall f, _pixelFormat t = Some f ->
       (Texture_save t out true isLowres).2 !! (length out + 5)%nat
       = Some (byte_of_Z (PIXEL_FORMATS_indexOf (Some f)))
       /\ PIXEL_FORMATS_indexOf (Some f) ∈ [0; 2; 3; 4; 6; 10]
       /\ forall idx b1, readUInt8 buf = Ok (idx, b1) ->
            PIXEL_FORMATS_indexOf (Some f) <= idx
            /\ js_index PIXEL_FORMATS idx = Some f.
Proof.
  intros Htag Hload.
  destruct (load_texture_fields _ _ _ _ _ Hload)
    as (idx & b1 & img0 & E8 & Hpf & Hmag & Hmin & Hlin & Hdown).
  pose proof (save_tag_load_fields tag idx img0 t Htag Hmag Hmin Hlin Hdown) as Hsave.
  split; [exact Hsave|]. split.
  - destruct (Texture_save_buffer t out true isLowres) as [payload ->].
    rewrite saveTag_first_byte, Hsave. reflexivity.
  - intros f Hf. rewrite Hf in Hpf. symmetry in Hpf.
    destruct (indexOf_first idx f Hpf) as [Hle Hin].
    split; [|split; [exact Hin|]].
    + rewrite <- Hf. apply Texture_save_index_byte.
    + intros idx' b1' E8'. rewrite E8 in E8'. injection E8' as <- <-.
      split; [exact Hle|exact Hpf].
Qed.

Lemma Texture_load_then_save_witness :
  29 ∈ TEXTURE_TAGS
  /\ load_texture 29 true [x01; x01; x00; x01; x00; x0a; x0b; x0c; x0d]
     = Ok (mkTexture (Some GL_RGBA8) GL_LINEAR GL_LINEAR_MIPMAP_NEAREST false true
             (mkImage 1 1 RGBA [[x0a; x0b; x0c; x0d]]), [])
  /\ (@Texture_save nearest_half
        (mkTexture (Some GL_RGBA8) GL_LINEAR GL_LINEAR_MIPMAP_NEAREST false true
           (mkImage 1 1 RGBA [[x0a; x0b; x0c; x0d]])) [] true false).2
     !! 0%nat = Some x10.
Proof.
  assert (Htag : 29 ∈ TEXTURE_TAGS).
  { unfold TEXTURE_TAGS. do 6 apply list_elem_of_further. apply list_elem_of_here. }
  assert (Hload : load_texture 29 true [x01; x01; x00; x01; x00; x0a; x0b; x0c; x0d]
                  = Ok (mkTexture (Some GL_RGBA8) GL_LINEAR GL_LINEAR_MIPMAP_NEAREST
                          false true (mkImage 1 1 RGBA [[x0a; x0b; x0c; x0d]]), []))
    by (vm_compute; reflexivity).
  split; [exact Htag|]. split; [exact Hload|].
  exact (proj1 (proj2 (@Texture_load_then_save nearest_half 29 _ _ _ [] false
                         Htag Hload))).
Defined.

(** ** The resources of a document in the main file *)

Lemma filter_complement_Permutation {A : Type} (P : A -> bool) (l : list A) :
  filter (fun a => P a = true) l ++ filter (fun a => P a = false) l ≡ₚ l.
Proof.
  induction l as [|a l IH]; [reflexivity|].
  rewrite !filter_cons. destruct (P a) eqn:E.
  - destruct (decide (true = true)); [|congruence].
    destruct (decide (true = false)); [discriminate|].
    cbn [app]. rewrite IH. reflexivity.
  - destruct (decide (false = true)); [discriminate|].
    destruct (decide (false = false)); [|congruence].
    rewrite <- Permutation_middle, IH. reflexivity.
Qed.

Lemma Object_entries_Permutation (o : list (Z * Resource)) : Object_entries o ≡ₚ o.
Proof.
  unfold Object_entries. rewrite merge_sort_Permutation.
  apply (filter_complement_Permutation (fun e => is_index e.1)).
Qed.

Lemma NoDup_Object_entries (o : list (Z * Resource)) :
  NoDup (map fst o) -> NoDup (map fst (Object_entries o)).
Proof. intros Hnd. rewrite (Object_entries_Permutation o). exact Hnd. Qed.



Lemma class_partition (r : Resource) :
  (if isMovieClipModifier r then 1 else 0) + (if isShape r then 1 else 0)
  + (if isTextField r then 1 else 0) + (if isMovieClip r then 1 else 0) = 1.
Proof. destruct r; reflexivity. Qed.

Lemma length_idsOf_sum (l : list (Z * Resource)) :
  (length (filter (fun e => isMovieClipModifier e.2 = true) l)
   + length (filter (fun e => isShape e.2 = true) l)
   + length (filter (fun e => isTextField e.2 = true) l)
   + length (filter (fun e => isMovieClip e.2 = true) l))%nat
  = length l.
Proof.
  induction l as [|[id r] l IH]; [reflexivity|].
  rewrite !filter_cons. cbn [snd length].
  destruct r; cbn [isMovieClipModifier isShape isTextField isMovieClip];
    repeat match goal with
           | |- context [decide (?a = ?b)] => destruct (decide (a = b)); try discriminate;
                                              try congruence
           end;
    cbn [length]; lia.
Qed.




Lemma length_idsOf_size (o : list (Z * Resource)) :
  (length (idsOf isMovieClipModifier o) + length (idsOf isShape o)
   + length (idsOf isTextField o) + length (idsOf isMovieClip o))%nat = length o.
Proof.
  unfold idsOf. rewrite !length_map.
  rewrite length_idsOf_sum, (Object_entries_Permutation o). reflexivity.
Qed.





(** ** The counts at the head of the main file *)

Lemma fold_left_appends {A : Type} (f : SupercellSWF -> A -> SupercellSWF) (l : list A)
    (swf : SupercellSWF) :
  (forall s a, exists bytes, buffer (f s a) = buffer s ++ bytes) ->
  exists bytes, buffer (fold_left f l swf) = buffer swf ++ bytes.
Proof.
  intros Hf. revert swf. induction l as [|a l IH]; intros swf.
  - exists []. rewrite app_nil_r. reflexivity.
  - cbn [fold_left]. destruct (IH (f swf a)) as [bytes ->].
    destruct (Hf swf a) as [bytes' ->]. exists (bytes' ++ bytes).
    rewrite app_assoc. reflexivity.
Qed.

Lemma fold_left_buffer_appends {A : Type} (f : list byte -> A -> list byte) (l : list A)
    (buf : list byte) :
  (forall b a, exists bytes, f b a = b ++ bytes) ->
  exists bytes, fold_left f l buf = buf ++ bytes.
Proof.
  intros Hf. revert buf. induction l as [|a l IH]; intros buf.
  - exists []. rewrite app_nil_r. reflexivity.
  - cbn [fold_left]. destruct (IH (f buf a)) as [bytes ->].
    destruct (Hf buf a) as [bytes' ->]. exists (bytes' ++ bytes).
    rewrite app_assoc. reflexivity.
Qed.

Lemma saveResource_appends `{RecordHandlers} :
  savers_append ->
  forall s id, exists bytes, buffer (saveResource s id) = buffer s ++ bytes.
Proof.
  intros (Hres & _) s id. unfold saveResource.
  destruct (Object_get (resources s) id) as [r|].
  - destruct (Hres id r s) as [bytes ->]. exists bytes. reflexivity.
  - exists []. rewrite app_nil_r. reflexivity.
Qed.

Lemma saveTextureList_appends `{ImageResize} (ts : list Texture) (buf : list byte)
    (hasData isLowres : bool) :
  exists bytes, (saveTextureList ts buf hasData isLowres).2 = buf ++ bytes.
Proof.
  revert buf. induction ts as [|t ts IH]; intros buf.
  - exists []. cbn. rewrite app_nil_r. reflexivity.
  - cbn [saveTextureList].
    destruct (Texture_save_buffer t buf hasData isLowres) as [payload Hp].
    destruct (Texture_save t buf hasData isLowres) as [t' buf'] eqn:Et.
    cbn [snd] in Hp. subst buf'.
    destruct (IH (saveTag (if hasData then save_tag t else 1) payload buf)) as [bytes Hb].
    destruct (saveTextureList ts _ hasData isLowres) as [ts' buf''].
    cbn [snd] in *. subst buf''. rewrite saveTag_app, <- app_assoc.
    eexists. reflexivity.
Qed.

Lemma saveBank_appends `{RecordHandlers} :
  savers_append ->
  forall s ib, exists bytes, buffer (saveBank s ib) = buffer s ++ bytes.
Proof.
  intros (_ & Hmat & Hcol) s [i bank]. unfold saveBank.
  destruct (fold_left_appends (fun s c => Color_save c s) (colors bank)
              (fold_left (fun s m => Matrix_save m s) (matrices bank)
                 (if (0 <? i)%nat then TransformBank_save bank s true else s)))
    as [b1 ->].
  { intros s1 c. destruct (Hcol c s1) as [b ->]. exists b. reflexivity. }
  destruct (fold_left_appends (fun s m => Matrix_save m s) (matrices bank)
              (if (0 <? i)%nat then TransformBank_save bank s true else s))
    as [b2 ->].
  { intros s1 m. destruct (Hmat m s1) as [b ->]. exists b. reflexivity. }
  destruct (0 <? i)%nat.
  - unfold TransformBank_save. cbn [buffer set_buffer].
    rewrite saveTag_app, <- !app_assoc. eexists. reflexivity.
  - rewrite <- app_assoc. eexists. reflexivity.
Qed.

Lemma saveModifiers_appends `{RecordHandlers} (ids : list Z) (s : SupercellSWF) :
  savers_append ->
  exists bytes, buffer (saveModifiers ids s) = buffer s ++ bytes.
Proof.
  intros Happ. unfold saveModifiers.
  match goal with
  | |- context [fold_left saveResource ?l ?s0] =>
      destruct (fold_left_appends saveResource l s0 (saveResource_appends Happ))
        as [b1 ->]
  end.
  destruct (0 <? length ids)%nat.
  - cbn [buffer set_buffer]. rewrite saveTag_app, <- app_assoc. eexists. reflexivity.
  - eexists. reflexivity.
Qed.

Lemma saveTextures_appends `{ImageResize} (hasData isLowres : bool) (s : SupercellSWF) :
  exists bytes, buffer (saveTextures hasData isLowres s) = buffer s ++ bytes.
Proof.
  unfold saveTextures.
  destruct (saveTextureList_appends (textures s) (buffer s) hasData isLowres) as [b Hb].
  destruct (saveTextureList _ _ _ _) as [ts buf]. cbn [snd] in Hb. subst buf.
  exists b. reflexivity.
Qed.

Lemma saveHeader_counts (shapeIds movieClipIds textFieldIds : list Z) (swf : SupercellSWF) :
  exists rest,
    buffer (saveHeader shapeIds movieClipIds textFieldIds swf)
    = writeUInt16 (Z.of_nat (length textFieldIds))
        (writeUInt16 (Z.of_nat (length (textures swf)))
           (writeUInt16 (Z.of_nat (length movieClipIds))
              (writeUInt16 (Z.of_nat (length shapeIds)) [])))
      ++ rest.
Proof.
  unfold saveHeader, Exports_save, TransformBank_save, fill.
  cbn [buffer set_buffer exports textures].
  match goal with
  | |- context [fold_left ?f ?l ?b] =>
      destruct (fold_left_buffer_appends f l b) as [names ->]
  end.
  { intros b0 [id name]. rewrite writeASCII_app. eexists. reflexivity. }
  match goal with
  | |- context [fold_left ?f ?l ?b] =>
      destruct (fold_left_buffer_appends f l b) as [ids ->]
  end.
  { intros b0 [id name]. eexists. reflexivity. }
  rewrite (writeUInt16_app _ (_ ++ _)), <- !app_assoc.
  eexists. reflexivity.
Qed.

(** Everything that [saveAsset] writes after the four counts is appended to
    them. *)
Lemma saveAsset_buffer_counts `{ImageResize} `{RecordHandlers} (swf : SupercellSWF) :
  savers_append ->
  exists rest,
    buffer (saveAsset_buffer swf)
    = writeUInt16 (Z.of_nat (length (idsOf isTextField (resources swf))))
        (writeUInt16 (Z.of_nat (length (textures swf)))
           (writeUInt16 (Z.of_nat (length (idsOf isMovieClip (resources swf))))
              (writeUInt16 (Z.of_nat (length (idsOf isShape (resources swf)))) [])))
      ++ rest.
Proof.
  intros Happ.
  unfold saveAsset_buffer. cbn [buffer set_buffer]. rewrite saveTag_app.
  match goal with
  | |- context [buffer (fold_left saveResource ?l ?s)] =>
      destruct (fold_left_appends saveResource l s (saveResource_appends Happ)) as [b1 ->]
  end.
  unfold saveBanks.
  match goal with
  | |- context [buffer (fold_left saveBank ?l ?s)] =>
      destruct (fold_left_appends saveBank l s (saveBank_appends Happ)) as [b2 ->]
  end.
  match goal with
  | |- context [buffer (fold_left saveResource ?l ?s)] =>
      destruct (fold_left_appends saveResource l s (saveResource_appends Happ)) as [b3 ->]
  end.
  match goal with
  | |- context [buffer (fold_left saveResource ?l ?s)] =>
      destruct (fold_left_appends saveResource l s (saveResource_appends Happ)) as [b4 ->]
  end.
  match goal with
  | |- context [buffer (saveModifiers ?l ?s)] =>
      destruct (saveModifiers_appends l s Happ) as [b5 ->]
  end.
  match goal with
  | |- context [buffer (saveTextures ?d ?l ?s)] =>
      destruct (saveTextures_appends d l s) as [b6 ->]
  end.
  rewrite saveMarkers_bytes, savePostfix_bytes. cbn [buffer set_buffer].
  match goal with
  | |- context [buffer (saveHeader ?a ?b ?c ?s)] =>
      destruct (saveHeader_counts a b c s) as [b7 ->]
  end.
  rewrite <- !app_assoc. eexists. reflexivity.
Qed.

(** X18: the main file begins with four 16-bit counts: the number of
    shapes, of movie clips, of textures and of text fields of the instance,
    when each is below 65536 (record savers only append). *)
Theorem saveAsset_header_counts `{ImageResize} `{RecordHandlers} (swf : SupercellSWF) :
  savers_append ->
  Z.of_nat (length (resources swf)) < 65536 ->
  Z.of_nat (length (textures swf)) < 65536 ->
  exists b1 b2 b3 b4,
    readUInt16 (buffer (saveAsset_buffer swf))
    = Ok (Z.of_nat (length (idsOf isShape (resources swf))), b1)
    /\ readUInt16 b1 = Ok (Z.of_nat (length (idsOf isMovieClip (resources swf))), b2)
    /\ readUInt16 b2 = Ok (Z.of_nat (length (textures swf)), b3)
    /\ readUInt16 b3 = Ok (Z.of_nat (length (idsOf isTextField (resources swf))), b4).
Proof.
  intros Happ Hres Htex.
  destruct (saveAsset_buffer_counts swf Happ) as [rest ->].
  pose proof (length_idsOf_size (resources swf)) as Hsum.
  rewrite !writeUInt16_nested, <- !app_assoc.
  eexists _, _, _, _.
  split; [rewrite readUInt16_write, Z.mod_small by lia; reflexivity|].
  split; [rewrite readUInt16_write, Z.mod_small by lia; reflexivity|].
  split; [rewrite readUInt16_write, Z.mod_small by lia; reflexivity|].
  rewrite readUInt16_write, Z.mod_small by lia. reflexivity.
Qed.

Lemma saveAsset_header_counts_witness :
  @savers_append empty_records
  /\ readUInt16 (buffer (@saveAsset_buffer nearest_half empty_records
                           (mkSWF NONE false false false [] [] "_highres" "_lowres"
                              [] sample_resources [])))
     = Ok (1, [x03; x00; x00; x00; x00; x00; x00; x00; x00; x00; x00; x00; x00;
               x00; x00; x00; x00; x00; x00; x00; x00; x00]).
Proof.
  split; [exact empty_records_append|].
  destruct (@saveAsset_header_counts nearest_half empty_records
              (mkSWF NONE false false false [] [] "_highres" "_lowres"
                 [] sample_resources [])
              empty_records_append ltac:(vm_compute; reflexivity)
              ltac:(vm_compute; reflexivity))
    as (b1 & b2 & b3 & b4 & E1 & _).
  rewrite E1. vm_compute in E1. injection E1 as <-. vm_compute. reflexivity.
Defined.

(** ** Copies of textures and documents *)

Lemma set_pixelFormat_new `{ImageConvert} `{Locale} (f : PixelFormat) :
  toLocaleUpperCase (format_name f) = format_name f ->
  _pixelFormat (set_pixelFormat (format_name f) new_Texture) = Some f.
Proof.
  intros Hup. unfold set_pixelFormat. rewrite Hup.
  destruct f; vm_compute; reflexivity.
Qed.

Lemma Texture_clone_equal_lemma `{ImageConvert} `{Locale} (t : Texture) :
  (forall f, toLocaleUpperCase (format_name f) = format_name f) ->
  Texture_clone t = match _pixelFormat t with
                    | Some _ => Some t
                    | None => None
                    end.
Proof.
  intros Hup. unfold Texture_clone.
  destruct (_pixelFormat t) as [f|] eqn:Ef; [|reflexivity].
  rewrite (set_pixelFormat_new f (Hup f)), <- Ef. destruct t; reflexivity.
Qed.

(** X19: [Texture.clone] of a texture with a pixel format gives an equal
    texture: the setter stores the format in the new texture whatever the
    conversions of its initial image do, and the image is assigned after
    it.  Of a texture with an undefined pixel format, [clone] raises. *)
Theorem Texture_clone_equal `{ImageConvert} `{Locale} (t : Texture) :
  (forall f, toLocaleUpperCase (format_name f) = format_name f) ->
  (forall f, _pixelFormat t = Some f ->
     _pixelFormat (set_pixelFormat (format_name f) new_Texture) = Some f
     /\ Texture_clone t = Some t)
  /\ (_pixelFormat t = None -> Texture_clone t = None).
Proof.
  intros Hup. pose proof (Texture_clone_equal_lemma t Hup) as Hclone. split.
  - intros f Hf. rewrite Hf in Hclone.
    split; [exact (set_pixelFormat_new f (Hup f))|exact Hclone].
  - intros Hf. rewrite Hf in Hclone. exact Hclone.
Qed.

Lemma plain_locale_names (f : PixelFormat) :
  @toLocaleUpperCase plain_locale (format_name f) = format_name f.
Proof. reflexivity. Qed.

Lemma Texture_clone_equal_witness :
  (forall f, @toLocaleUpperCase plain_locale (format_name f) = format_name f)
  /\ @Texture_clone relabel_convert plain_locale
       (mkTexture (Some GL_LUMINANCE8) GL_NEAREST GL_NEAREST false false
          (mkImage 1 1 GREY [[x07]]))
     = Some (mkTexture (Some GL_LUMINANCE8) GL_NEAREST GL_NEAREST false false
               (mkImage 1 1 GREY [[x07]])).
Proof.
  split; [exact plain_locale_names|].
  exact (proj2 (proj1 (@Texture_clone_equal relabel_convert plain_locale
                         (mkTexture (Some GL_LUMINANCE8) GL_NEAREST GL_NEAREST false false
                            (mkImage 1 1 GREY [[x07]])) plain_locale_names)
                  GL_LUMINANCE8 eq_refl)).
Defined.

Lemma mapM_Texture_clone `{ImageConvert} `{Locale} (ts : list Texture) :
  (forall f, toLocaleUpperCase (format_name f) = format_name f) ->
  mapM Texture_clone ts
  = if forallb (fun t => bool_decide (is_Some (_pixelFormat t))) ts then Some ts else None.
Proof.
  intros Hup. induction ts as [|t ts IH]; [reflexivity|].
  cbn [mapM forallb]. rewrite (Texture_clone_equal_lemma t Hup), IH.
  destruct (_pixelFormat t) as [f|]; cbn; [|reflexivity].
  destruct (forallb _ ts); reflexivity.
Qed.

Lemma Object_set_new (o : list (Z * Resource)) (id : Z) (r : Resource) :
  id ∉ map fst o -> Object_set o id r = o ++ [(id, r)].
Proof.
  induction o as [|e o IH]; intros Hnin; [reflexivity|].
  cbn [Object_set map] in *.
  destruct (bool_decide_reflect (e.1 = id)) as [E|_].
  - exfalso. apply Hnin. rewrite E. apply list_elem_of_here.
  - rewrite IH; [reflexivity|]. intros Hin. apply Hnin, list_elem_of_further, Hin.
Qed.

(** Storing entries with distinct new keys one after the other appends
    them. *)
Lemma fold_Object_set (g : Resource -> Resource) (l done : list (Z * Resource)) :
  NoDup (map fst (done ++ l)) ->
  fold_left (fun cloned e => Object_set cloned e.1 (g e.2)) l done
  = done ++ map (fun e => (e.1, g e.2)) l.
Proof.
  revert done. induction l as [|e l IH]; intros done Hnd.
  - cbn. rewrite app_nil_r. reflexivity.
  - cbn [fold_left map]. rewrite Object_set_new.
    + rewrite IH.
      * rewrite <- app_assoc. reflexivity.
      * rewrite <- app_assoc. cbn [app].
        rewrite !map_app in *. cbn [map] in *. exact Hnd.
    + rewrite map_app in Hnd. cbn [map] in Hnd.
      apply NoDup_app in Hnd as (_ & Hdisj & _).
      intros Hin. apply (Hdisj _ Hin). apply list_elem_of_here.
Qed.

Lemma clonedResources_entries `{RecordClone} (o : list (Z * Resource)) :
  NoDup (map fst o) ->
  clonedResources o = map (fun e => (e.1, Resource_clone e.2)) (Object_entries o).
Proof.
  intros Hnd. unfold clonedResources.
  rewrite (fold_Object_set Resource_clone (Object_entries o) []); [reflexivity|].
  cbn [app]. apply NoDup_Object_entries, Hnd.
Qed.

(** X20: [SupercellSWF.clone] gives an instance with the compression, the
    two texture flags, the postfixes and the textures of the original and
    the clones of its exports, banks and resources (the resources under
    their keys, in the order of [Object.keys]), but with [useLowresTexture]
    back to [false] and an empty buffer.  It raises when a texture has an
    undefined pixel format. *)
Theorem SupercellSWF_clone_fields `{ImageConvert} `{Locale} `{RecordClone}
    (D : SupercellSWF) :
  (forall f, toLocaleUpperCase (format_name f) = format_name f) ->
  (Forall (fun t => is_Some (_pixelFormat t)) (textures D) ->
   SupercellSWF_clone D
   = Some (mkSWF (compression D) (hasExternalTexture D) (useUncommonTexture D) false
             (Exports_clone (exports D)) (textures D) (highresPostfix D)
             (lowresPostfix D) (map TransformBank_clone (banks D))
             (clonedResources (resources D)) []))
  /\ (Exists (fun t => _pixelFormat t = None) (textures D) ->
      SupercellSWF_clone D = None)
  /\ (NoDup (map fst (resources D)) ->
      clonedResources (resources D)
      = map (fun e => (e.1, Resource_clone e.2)) (Object_entries (resources D))).
Proof.
  intros Hup. unfold SupercellSWF_clone. rewrite (mapM_Texture_clone _ Hup).
  split; [|split; [|apply clonedResources_entries]].
  - intros Hall.
    replace (forallb _ (textures D)) with true; [reflexivity|].
    symmetry. apply forallb_forall. intros t Ht. apply bool_decide_eq_true.
    rewrite Forall_forall in Hall. apply Hall, list_elem_of_In, Ht.
  - intros Hex.
    replace (forallb _ (textures D)) with false; [reflexivity|].
    symmetry. apply not_true_is_false. intros Hall.
    rewrite forallb_forall in Hall. apply Exists_exists in Hex as (t & Ht & Hnone).
    specialize (Hall t (proj1 (list_elem_of_In _ _) Ht)).
    apply bool_decide_eq_true in Hall. rewrite Hnone in Hall. destruct Hall; discriminate.
Qed.

Lemma SupercellSWF_clone_fields_witness :
  (forall f, @toLocaleUpperCase plain_locale (format_name f) = format_name f)
  /\ Forall (fun t => is_Some (_pixelFormat t)) (textures sample_document)
  /\ useLowresTexture sample_document = true
  /\ (useLowresTexture <$> @SupercellSWF_clone relabel_convert plain_locale copy_clone
                              sample_document) = Some false.
Proof.
  assert (Hall : Forall (fun t => is_Some (_pixelFormat t)) (textures sample_document)).
  { unfold sample_document. cbn [textures].
    repeat constructor; eexists; reflexivity. }
  split; [exact plain_locale_names|]. split; [exact Hall|]. split; [reflexivity|].
  rewrite (proj1 (@SupercellSWF_clone_fields relabel_convert plain_locale copy_clone
                    sample_document plain_locale_names) Hall).
  reflexivity.
Defined.

(** ** Removing the alpha channel through the setter *)

(** X21: setting the pixel format of an RGBA texture to [GL_RGB565], or of
    a grey-alpha texture to [GL_LUMINANCE8], stores the format and sets the
    alpha channel to 255 with [image.add]; when that call keeps the channel
    layout, the new format is not one of the layout, so the next
    [Texture.save] falls back on the first format of the layout, under a
    header byte that still names the format set. *)
Theorem pixelFormat_setter_removing_alpha `{ImageConvert} `{Locale} `{ImageResize}
    (t : Texture) (k : ImageKind) (f g : PixelFormat) (out : ScBuffer) :
  (forall c img, kind (Image_add255 c img) = kind img) ->
  (forall f, toLocaleUpperCase (format_name f) = format_name f) ->
  (k = RGBA /\ f = GL_RGB565) \/ (k = GREYA /\ f = GL_LUMINANCE8) ->
  kind (image t) = k ->
  _pixelFormat t = Some g ->
  g ∈ CHANNEL_FORMATS k ->
  let t' := set_pixelFormat (format_name f) t in
  _pixelFormat t' = Some f
  /\ image t' = Image_add255 (channels k - 1) (image t)
  /\ kind (image t') = k
  /\ (f ∉ CHANNEL_FORMATS k)
  /\ corrected_format t' = first_format k
  /\ _pixelFormat (Texture_save t' out true false).1 = Some (first_format k)
  /\ (Texture_save t' out true false).2 !! (length out + 5)%nat
     = Some (byte_of_Z (PIXEL_FORMATS_indexOf (Some f))).
Proof.
  intros Hadd Hup Hpair Hk Hg Hin t'.
  assert (Hset : t' = mkTexture (Some f) (magFilter t) (minFilter t) (linear t)
                        (downscaling t) (Image_add255 (channels k - 1) (image t))).
  { unfold t', set_pixelFormat. rewrite Hup, Hg.
    destruct Hpair as [[-> ->]|[-> ->]].
    - assert (Hne : bool_decide (format_name <$> Some g = Some (format_name GL_RGB565))
                    = false).
      { apply bool_decide_eq_false. cbn in Hin.
        repeat (apply elem_of_cons in Hin as [->|Hin]; [discriminate|]).
        apply elem_of_nil in Hin. destruct Hin. }
      rewrite Hne.
      change (includes_name RGBA (format_name GL_RGB565)) with false.
      change (includes_name RGB (format_name GL_RGB565)) with true.
      cbv iota. unfold set_channels, Texture_channels.
      repeat (progress (cbn [image set_image]; rewrite ?Hadd, ?Hk; cbn)).
      reflexivity.
    - assert (Hne : bool_decide (format_name <$> Some g
                                 = Some (format_name GL_LUMINANCE8)) = false).
      { apply bool_decide_eq_false. cbn in Hin.
        repeat (apply elem_of_cons in Hin as [->|Hin]; [discriminate|]).
        apply elem_of_nil in Hin. destruct Hin. }
      rewrite Hne.
      change (includes_name RGBA (format_name GL_LUMINANCE8)) with false.
      change (includes_name RGB (format_name GL_LUMINANCE8)) with false.
      change (includes_name GREYA (format_name GL_LUMINANCE8)) with false.
      change (includes_name GREY (format_name GL_LUMINANCE8)) with true.
      cbv iota. unfold set_channels, Texture_channels.
      repeat (progress (cbn [image set_image]; rewrite ?Hadd, ?Hk; cbn)).
      reflexivity. }
  assert (Hkind : kind (image t') = k) by (rewrite Hset; cbn [image]; rewrite Hadd; exact Hk).
  assert (Hnot : f ∉ CHANNEL_FORMATS k).
  { destruct Hpair as [[-> ->]|[-> ->]]; cbn; intros Hx;
      repeat (apply elem_of_cons in Hx as [Hx|Hx]; [discriminate|]);
      apply elem_of_nil in Hx; destruct Hx. }
  assert (Hcorr : corrected_format t' = first_format k).
  { rewrite <- Hkind. apply corrected_format_foreign.
    intros f' Hf'. rewrite Hset in Hf'. cbn in Hf'. injection Hf' as <-.
    rewrite Hkind. exact Hnot. }
  split; [rewrite Hset; reflexivity|].
  split; [rewrite Hset; reflexivity|].
  split; [exact Hkind|]. split; [exact Hnot|]. split; [exact Hcorr|].
  split.
  - unfold Texture_save. cbn [fst _pixelFormat]. rewrite Hcorr. reflexivity.
  - rewrite Texture_save_index_byte. rewrite Hset. reflexivity.
Qed.

Lemma relabel_add_keeps_kind (c : nat) (img : Image) :
  kind (@Image_add255 relabel_convert c img) = kind img.
Proof. reflexivity. Qed.

Lemma pixelFormat_setter_removing_alpha_witness :
  (forall c img, kind (@Image_add255 relabel_convert c img) = kind img)
  /\ (forall f, @toLocaleUpperCase plain_locale (format_name f) = format_name f)
  /\ (GL_RGBA8 ∈ CHANNEL_FORMATS RGBA)
  /\ (@Texture_save nearest_half
        (@set_pixelFormat relabel_convert plain_locale "GL_RGB565" one_pixel_texture)
        [] true false).2 !! 5%nat
     = Some x04.
Proof.
  assert (Hin : GL_RGBA8 ∈ CHANNEL_FORMATS RGBA) by (cbn; apply list_elem_of_here).
  split; [exact relabel_add_keeps_kind|]. split; [exact plain_locale_names|].
  split; [exact Hin|].
  exact (proj2 (proj2 (proj2 (proj2 (proj2 (proj2
           (@pixelFormat_setter_removing_alpha relabel_convert plain_locale nearest_half
              one_pixel_texture RGBA GL_RGB565 GL_RGBA8 []
              relabel_add_keeps_kind plain_locale_names
              (or_introl (conj eq_refl eq_refl)) eq_refl eq_refl Hin))))))).
Defined.

(** ** What the JSON forms keep *)

(** X22: [Texture.fromJSON] leaves [linear] and [downscaling] at [true]
    whatever the object holds: a falsy value is not looked at, and a truthy
    one is [true] or different from [0]. *)
Theorem Texture_fromJSON_never_clears_layout (data : gmap string JSValue) :
  Texture_fromJSON_layout data = (true, true)
  /\ forall field maxRects, fromJSON_layout_flag field maxRects = true.
Proof.
  assert (Hflag : forall field maxRects, fromJSON_layout_flag field maxRects = true).
  { intros field maxRects. unfold fromJSON_layout_flag.
    destruct field as [| |[]|[|neg|z|fl]|s|]; cbn; try reflexivity;
      destruct (is_number maxRects); try reflexivity.
    all: first [ destruct (negb (z =? 0)); reflexivity
               | destruct (negb (s =? "")%string); reflexivity ]. }
  split; [|exact Hflag].
  unfold Texture_fromJSON_layout. rewrite !Hflag. reflexivity.
Qed.

(** X23: a number under the key [pixelFormat] in [Texture.fromJSON]: an
    index from 1 to 10 sets the format of that place of [PIXEL_FORMATS]
    through the setter; 0 is falsy and leaves the texture as it is; the
    bound of the test is the length of the table, so 11 passes it and the
    setter raises on [undefined], as it does for a number that is not an
    integer between 0 and 11; a number outside the bounds leaves the
    texture as it is. *)
Theorem Texture_fromJSON_pixelFormat_index `{ImageConvert} `{Locale} `{UpperCase}
    (data : gmap string JSValue) (this : Texture) (n : JSNumber) :
  property data "pixelFormat" = JS_number n ->
  let loaded := Texture_fromJSON_pixelFormat data this in
  (forall i f, n = JS_integer i -> PIXEL_FORMATS !! Z.to_nat i = Some f -> 0 < i ->
     loaded = Some (set_pixelFormat (format_name f) this))
  /\ (n = JS_integer 0 -> loaded = Some this)
  /\ (n = JS_integer (Z.of_nat (length PIXEL_FORMATS)) -> loaded = None)
  /\ (forall fl, n = JS_fraction fl -> 0 <= fl < Z.of_nat (length PIXEL_FORMATS) ->
        loaded = None)
  /\ (js_ge n 0 && js_le n (Z.of_nat (length PIXEL_FORMATS)) = false -> loaded = Some this).
Proof.
  intros Hdata loaded. unfold loaded, Texture_fromJSON_pixelFormat.
  rewrite Hdata. cbn zeta.
  split; [|split; [|split; [|split]]].
  - intros i f -> Hf Hi.
    assert (Hlt : (Z.to_nat i < length PIXEL_FORMATS)%nat)
      by (apply lookup_lt_is_Some; eexists; exact Hf).
    cbn [truthy js_ge js_le js_at]. unfold js_index.
    replace (i =? 0) with false by lia.
    replace (0 <=? i) with true by lia.
    replace (i <=? Z.of_nat (length PIXEL_FORMATS)) with true by lia.
    replace (i <? 0) with false by lia.
    cbn [negb andb]. rewrite Hf. reflexivity.
  - intros ->. reflexivity.
  - intros ->. reflexivity.
  - intros fl -> [Hlo Hhi]. cbn [truthy js_ge js_le js_at].
    replace (0 <=? fl) with true by lia.
    replace (fl <? Z.of_nat (length PIXEL_FORMATS)) with true by lia.
    reflexivity.
  - intros Hout. rewrite Hout. destruct (truthy _); reflexivity.
Qed.

Lemma Texture_fromJSON_pixelFormat_index_witness :
  let fromJSON n :=
    @Texture_fromJSON_pixelFormat relabel_convert plain_locale ascii_upper
      (pixelFormat_number n) new_Texture in
  fromJSON (JS_integer 4)
  = Some (@set_pixelFormat relabel_convert plain_locale "GL_RGB565" new_Texture)
  /\ fromJSON (JS_integer 11) = None
  /\ fromJSON (JS_fraction 1) = None
  /\ fromJSON (JS_integer 12) = Some new_Texture.
Proof.
  pose proof (fun n => @Texture_fromJSON_pixelFormat_index relabel_convert plain_locale
                         ascii_upper (pixelFormat_number n) new_Texture n eq_refl) as Hat.
  cbn zeta in *. split; [|split; [|split]].
  - apply (proj1 (Hat (JS_integer 4)) 4 GL_RGB565); [reflexivity|reflexivity|lia].
  - apply (proj1 (proj2 (proj2 (Hat (JS_integer 11))))). reflexivity.
  - apply (proj1 (proj2 (proj2 (proj2 (Hat (JS_fraction 1))))) 1); [reflexivity|cbn; lia].
  - apply (proj2 (proj2 (proj2 (proj2 (Hat (JS_integer 12)))))). reflexivity.
Defined.

Lemma toJSON_properties (D : SupercellSWF) (includeBanks : bool) :
  let json := SupercellSWF_toJSON D includeBanks in
  property json "hasExternalTexture" = JS_boolean (hasExternalTexture D)
  /\ property json "hasLowresTexture" = JS_undefined
  /\ property json "useUncommonTexture" = JS_boolean (useUncommonTexture D)
  /\ property json "highresPostfix" = JS_string (highresPostfix D)
  /\ property json "lowresPostfix" = JS_string (lowresPostfix D).
Proof. destruct includeBanks; vm_compute; repeat split. Qed.

(** X24: [SupercellSWF.fromJSON] on the object of [toJSON] restores
    [hasExternalTexture] and [useUncommonTexture], and each postfix unless it
    is empty, in which case the instance keeps its own; [useLowresTexture] is
    always [false], because [toJSON] writes it under the key
    [useLowresTexture] and [fromJSON] reads [hasLowresTexture], the only key
    that can set it. *)
Theorem SupercellSWF_JSON_flags (this D : SupercellSWF) (includeBanks : bool) :
  let this' := SupercellSWF_fromJSON_flags (SupercellSWF_toJSON D includeBanks) this in
  hasExternalTexture this' = hasExternalTexture D
  /\ useUncommonTexture this' = useUncommonTexture D
  /\ useLowresTexture this' = false
  /\ highresPostfix this'
     = (if String.eqb (highresPostfix D) "" then highresPostfix this else highresPostfix D)
  /\ lowresPostfix this'
     = (if String.eqb (lowresPostfix D) "" then lowresPostfix this else lowresPostfix D)
  /\ (forall data,
        useLowresTexture (SupercellSWF_fromJSON_flags data this) = true ->
        truthy (property data "hasLowresTexture") = true).
Proof.
  cbn zeta. unfold SupercellSWF_fromJSON_flags.
  destruct (toJSON_properties D includeBanks) as (-> & -> & -> & -> & ->).
  unfold fromJSON_flag, fromJSON_postfix. cbn.
  repeat split.
  - destruct (hasExternalTexture D); reflexivity.
  - destruct (useUncommonTexture D); reflexivity.
  - destruct (String.eqb (highresPostfix D) ""); reflexivity.
  - destruct (String.eqb (lowresPostfix D) ""); reflexivity.
  - intros data. destruct (truthy _); [reflexivity|discriminate].
Qed.

Lemma SupercellSWF_JSON_flags_witness :
  useLowresTexture
    (SupercellSWF_fromJSON_flags
       (SupercellSWF_toJSON (set_useLowresTexture true new_SupercellSWF) true)
       new_SupercellSWF) = false
  /\ truthy (property {[ "hasLowresTexture"%string := JS_number (JS_integer 1) ]}
                      "hasLowresTexture") = true.
Proof.
  pose proof (SupercellSWF_JSON_flags new_SupercellSWF
                (set_useLowresTexture true new_SupercellSWF) true) as Hall.
  cbn zeta in Hall. destruct Hall as (_ & _ & Hlow & _ & _ & Honly).
  split; [exact Hlow|].
  apply Honly. reflexivity.
Defined.
